(** * ch06/01_dqn_pong.py: a shallow embedding of the DQN training script

    The script wires a frame preprocessor, a frame stacker, a replay
    buffer, a value network with a target copy, an epsilon-greedy agent
    and a training loop.  The first part embeds the classes and functions
    of the script, one module each; the second part proves the properties
    stated about them.

    Conventions.
    - Python [int]s are [Z]; lengths and indices that the code obtains from
      [len] are [nat].
    - Python [float]s and tensor entries are exact rationals [Q]: rounding
      is outside this development.
    - A Python exception is [None] in an [option] result; in the agent and
      the training loop it is a tagged error in a sum.
    - Random draws ([np.random.random], [np.random.choice],
      [action_space.sample]) are explicit arguments. *)

From Stdlib Require Import ZArith QArith Qminmax List Bool Lia Permutation.
From Stdlib Require String.
Import ListNotations.

Set Implicit Arguments.
Close Scope Q_scope.

(** ** Module-level constants (lines 17-24) *)

Definition GAMMA : Q := (99 # 100)%Q.
Definition BATCH_SIZE : Z := 32.
Definition REPLAY_SIZE : Z := 20000.
Definition SYNC_TARGET_FRAMES : Z := 10000.
Definition REPLAY_START_SIZE : nat := 5000.
Definition SUMMARY_EVERY_FRAME : Z := 100.

(** ** Small helpers for fallible code *)

Definition bind {A B : Type} (m : option A) (f : A -> option B) : option B :=
  match m with
  | Some a => f a
  | None => None
  end.

Notation "x <- m ;; k" := (bind m (fun x => k))
  (at level 61, m at next level, right associativity).

Fixpoint mapM {A B : Type} (f : A -> option B) (l : list A) : option (list B) :=
  match l with
  | [] => Some []
  | a :: tl => b <- f a ;; bs <- mapM f tl ;; Some (b :: bs)
  end.

(** ** ExperienceBuffer (lines 89-104) *)

Module ExperienceBuffer.
Section Buffer.
Variable A : Type.

(** [self.capacity] is whatever integer the constructor received;
    [self.buffer] is a deque, oldest entry first. *)
Record t : Type := mk { capacity : Z; buffer : list A }.

Definition init (capacity : Z) : t := mk capacity [].

Definition len (b : t) : nat := length (buffer b).

(** The loop [while len(self.buffer) > self.capacity: self.buffer.popleft()].
    [popleft] on an empty deque raises [IndexError], which can only happen
    for a negative capacity. *)
Fixpoint evict (capacity : Z) (q : list A) : option (list A) :=
  match q with
  | [] => if (capacity <? 0)%Z then None else Some []
  | _ :: tl =>
      if (capacity <? Z.of_nat (length q))%Z then evict capacity tl else Some q
  end.

Definition append (b : t) (experience : A) : option t :=
  q <- evict (capacity b) (buffer b ++ [experience]) ;;
  Some (mk (capacity b) q).

(** A sequence of [append] calls, in order. *)
Fixpoint appends (b : t) (xs : list A) : option t :=
  match xs with
  | [] => Some b
  | x :: tl => b' <- append b x ;; appends b' tl
  end.

(** [np.random.choice(a, size, replace=False)] for an integer [a] is
    NumPy's, not this script's.  It raises [ValueError] when [a] is 0 and
    samples are asked for, when [size] exceeds [a] and when [size] is
    negative; otherwise it returns the first [size] entries of a random
    permutation of [range(a)].  The permutation drawn by the generator is
    the argument [perm]. *)
Definition choice (perm : list nat) (a : nat) (size : Z) : option (list nat) :=
  if ((a =? 0)%nat && negb (size =? 0)%Z)%bool then None
  else if (Z.of_nat a <? size)%Z then None
  else if (size <? 0)%Z then None
  else Some (firstn (Z.to_nat size) perm).

(** [self.buffer[idx]]: an index outside the deque raises [IndexError]. *)
Definition getitem (b : t) (idx : nat) : option A := nth_error (buffer b) idx.

Definition sample (b : t) (perm : list nat) (batch_size : Z) : option (list A) :=
  indices <- choice perm (len b) batch_size ;;
  mapM (getitem b) indices.

End Buffer.
End ExperienceBuffer.

(** ** Experience (line 86) *)

Module Experience.
(** The namedtuple, generic in what a state field holds: an array in the
    loss computation, a reference to an array in the agent. *)
Record t (S : Type) : Type := mk {
  state : S;
  action : Z;
  reward : Q;
  done : bool;
  new_state : S
}.
Arguments mk {S} _ _ _ _ _.
Arguments state {S} _.
Arguments action {S} _.
Arguments reward {S} _.
Arguments done {S} _.
Arguments new_state {S} _.
End Experience.

(** ** Exploration schedule (line 216) *)

(** [max(0.1, 1.0 - frame_idx / 10**6)], with Python 3's true division. *)
Definition epsilon_of (frame_idx : Z) : Q :=
  Qmax (1 # 10) (1 - inject_Z frame_idx / inject_Z (10 ^ 6))%Q.

(** ** calc_loss (lines 152-176) *)

(** In-place list update [l[i] = v] for an index known to be in range. *)
Fixpoint update {X : Type} (i : nat) (v : X) (l : list X) : list X :=
  match l, i with
  | [], _ => []
  | _ :: tl, O => v :: tl
  | x :: tl, S j => x :: update j v tl
  end.

Definition Qsum (l : list Q) : Q := fold_right Qplus 0%Q l.

Module Loss.

(** [np.max] of one row; it raises [ValueError] on an empty row. *)
Definition np_max (row : list Q) : option Q :=
  match row with
  | [] => None
  | x :: tl => Some (fold_left Qmax tl x)
  end.

(** [row[i] = v] on a NumPy row: a negative index counts from the end, an
    index outside [-n, n) raises [IndexError]. *)
Definition setitem (row : list Q) (i : Z) (v : Q) : option (list Q) :=
  let n := Z.of_nat (length row) in
  if ((0 <=? i) && (i <? n))%Z then Some (update (Z.to_nat i) v row)
  else if ((- n <=? i) && (i <? 0))%Z then Some (update (Z.to_nat (n + i)) v row)
  else None.

(** [nn.MSELoss()(input, target)]: the mean, over all entries of the two
    equally shaped tensors, of the squared difference. *)
Definition sq_diff_row (a b : list Q) : Q :=
  Qsum (map (fun xy => (fst xy - snd xy) * (fst xy - snd xy))%Q (combine a b)).

Definition sq_diff (a b : list (list Q)) : Q :=
  Qsum (map (fun rs => sq_diff_row (fst rs) (snd rs)) (combine a b)).

Definition numel (a : list (list Q)) : nat :=
  fold_right Nat.add 0 (map (@length Q) a).

Definition MSELoss (input target : list (list Q)) : option Q :=
  if (numel input =? 0)%nat then None
  else Some (sq_diff input target / inject_Z (Z.of_nat (numel input)))%Q.

Section CalcLoss.
Variable S : Type.

(** The network, as the map from one state to its row of per-action
    values; a batch is evaluated row by row. *)
Variable net : S -> list Q.

(** The loop [for idx, exp in enumerate(batch)] over the copy [y]. *)
Fixpoint fill_targets (items : list (nat * Experience.t S))
         (new_q : list (list Q)) (y : list (list Q)) : option (list (list Q)) :=
  match items with
  | [] => Some y
  | (idx, exp) :: rest =>
      R <- (if Experience.done exp then Some (Experience.reward exp)
            else row <- nth_error new_q idx ;;
                 m <- np_max row ;;
                 Some (Experience.reward exp + GAMMA * m)%Q) ;;
      yrow <- nth_error y idx ;;
      yrow' <- setitem yrow (Experience.action exp) R ;;
      fill_targets rest new_q (update idx yrow' y)
  end.

Definition enumerate (batch : list (Experience.t S)) : list (nat * Experience.t S) :=
  combine (seq 0 (length batch)) batch.

Definition calc_loss (batch : list (Experience.t S)) : option Q :=
  let x := map (@Experience.state S) batch in
  let q_v := map net x in
  let y := q_v in
  let new_x := map (@Experience.new_state S) batch in
  let new_q := map net new_x in
  y' <- fill_targets (enumerate batch) new_q y ;;
  MSELoss q_v y'.

(** The quantities the specification names. *)

(** The per-sample target scalar. *)
Definition target (exp : Experience.t S) : Q :=
  if Experience.done exp then Experience.reward exp
  else match np_max (net (Experience.new_state exp)) with
       | Some m => (Experience.reward exp + GAMMA * m)%Q
       | None => Experience.reward exp
       end.

(** The current estimate at the taken action's index. *)
Definition estimate (exp : Experience.t S) : Q :=
  nth (Z.to_nat (Experience.action exp)) (net (Experience.state exp)) 0%Q.

Definition sq_err (exp : Experience.t S) : Q :=
  ((estimate exp - target exp) * (estimate exp - target exp))%Q.

(** The mean squared error over the batch: the squared errors of the
    samples, averaged over the number of samples. *)
Definition batch_mse (batch : list (Experience.t S)) : Q :=
  (Qsum (map sq_err batch) / inject_Z (Z.of_nat (length batch)))%Q.

(** An action that indexes a row of [n] values from the front. *)
Definition valid_action (n : nat) (exp : Experience.t S) : Prop :=
  (0 <= Experience.action exp < Z.of_nat n)%Z.

(** The row of [y] for one sample once the loop has visited it. *)
Definition target_row (exp : Experience.t S) : list Q :=
  update (Z.to_nat (Experience.action exp)) (target exp)
         (net (Experience.state exp)).

End CalcLoss.
End Loss.

(** ** TargetNet (lines 143-149) *)

Module TargetNet.

(** A network is represented by its state dictionary: the named tensors,
    in registration order, each flattened to its entries. *)
Definition Tensor : Type := list Q.
Definition StateDict : Type := list (String.string * Tensor).

Definition keys (sd : StateDict) : list String.string := map fst sd.

Fixpoint lookup (name : String.string) (sd : StateDict) : option Tensor :=
  match sd with
  | [] => None
  | (k, v) :: tl => if String.eqb name k then Some v else lookup name tl
  end.

Fixpoint store (name : String.string) (v : Tensor) (sd : StateDict) : StateDict :=
  match sd with
  | [] => []
  | (k, old) :: tl =>
      if String.eqb name k then (k, v) :: tl else (k, old) :: store name v tl
  end.

(** [Module.load_state_dict] and [Tensor.copy_] are PyTorch's.  In the
    default strict mode every entry of [state_dict] is copied over the
    tensor of the same name; a name the module does not have, a name of
    the module that [state_dict] lacks, and a tensor of another size each
    raise. *)
Definition copy_ (dst src : Tensor) : option Tensor :=
  if (length dst =? length src)%nat then Some src else None.

Fixpoint load_items (own : StateDict) (items : StateDict) : option StateDict :=
  match items with
  | [] => Some own
  | (name, param) :: rest =>
      old <- lookup name own ;;
      new <- copy_ old param ;;
      load_items (store name new own) rest
  end.

Definition has_key (sd : StateDict) (name : String.string) : bool :=
  existsb (String.eqb name) (keys sd).

Definition load_state_dict (own : StateDict) (state_dict : StateDict)
  : option StateDict :=
  own' <- load_items own state_dict ;;
  if forallb (has_key state_dict) (keys own) then Some own' else None.

(** [self.model] is the very network the training loop updates (a shared
    reference); [self.target_model] is a deep copy owned by the holder. *)
Record t : Type := mk { model : StateDict; target_model : StateDict }.

Definition init (model : StateDict) : t := mk model model.

Definition sync (tn : t) : option t :=
  tm <- load_state_dict (target_model tn) (model tn) ;;
  Some (mk (model tn) tm).

(** Two dictionaries with the same names in the same order and tensors of
    the same sizes, as a network and its deep copy have. *)
Definition same_structure (a b : StateDict) : Prop :=
  Forall2 (fun x y => fst x = fst y /\ length (snd x) = length (snd y)) a b.

(** What [__init__] establishes and parameter updates keep: names are
    unique and the two networks have the same structure. *)
Definition wf (tn : t) : Prop :=
  NoDup (keys (target_model tn)) /\
  same_structure (target_model tn) (model tn).

End TargetNet.

(** ** NumPy arrays and the store they live in *)

(** A two-dimensional array is a list of rows, a three-dimensional one a
    list of planes: a raw frame is height x width x channels, a stacked
    observation is frames x 84 x 84. *)
Definition Plane : Type := list (list Q).
Definition Array3 : Type := list Plane.

Definition has_shape2 (d1 d2 : nat) (p : Plane) : bool :=
  ((length p =? d1)%nat && forallb (fun row => (length row =? d2)%nat) p)%bool.

Definition has_shape3 (d0 d1 d2 : nat) (a : Array3) : bool :=
  ((length a =? d0)%nat && forallb (has_shape2 d1 d2) a)%bool.

Definition zeros_like (a : Array3) : Array3 :=
  map (map (map (fun _ : Q => 0%Q))) a.

(** An 84 x 84 frame of zeros. *)
Definition zero_plane : Plane := repeat (repeat 0%Q 84) 84.

(** Arrays are objects: two names can denote the same array, and an
    in-place write through one is seen through the other.  The store maps
    a reference to the array's current contents; a new array gets the next
    free reference. *)
Definition addr : Type := nat.
Definition Heap : Type := list Array3.

Definition read (h : Heap) (a : addr) : option Array3 := nth_error h a.
Definition write (h : Heap) (a : addr) (v : Array3) : Heap := update a v h.
Definition alloc (h : Heap) (v : Array3) : Heap * addr := (h ++ [v], length h).

(** [arr.copy()]: a new array with the same contents. *)
Definition copy (h : Heap) (a : addr) : option (Heap * addr) :=
  v <- read h a ;; Some (alloc h v).

(** ** ImageWrapper (lines 27-39) *)

Module ImageWrapper.

Definition X_OFS : nat := 20.

Section Observation.
(** [scipy.misc.imresize] is SciPy's: it returns the image resized to
    the requested height and width. *)
Variable imresize : Array3 -> nat * nat -> Array3.

Definition mean (l : list Q) : Q :=
  (Qsum l / inject_Z (Z.of_nat (length l)))%Q.

(** [obs.mean(axis=-1, keepdims=True)] *)
Definition mean_channels (obs : Array3) : Array3 :=
  map (map (fun px => [mean px])) obs.

(** [obs[self.X_OFS:self.X_OFS+84, :, :]] *)
Definition crop (obs : Array3) : Array3 :=
  firstn 84 (skipn X_OFS obs).

(** [np.moveaxis(obs, 2, 0)]: the last axis becomes the first. *)
Definition moveaxis_2_0 (obs : Array3) : Array3 :=
  map (fun c => map (map (fun px => nth c px 0%Q)) obs)
      (seq 0 (length (hd [] (hd [] obs)))).

(** [obs.astype(np.float32) / 255.0] *)
Definition scale (obs : Array3) : Array3 :=
  map (map (map (fun v => (v / 255)%Q))) obs.

Definition _observation (obs : Array3) : Array3 :=
  let obs := imresize obs (110, 84) in
  let obs := mean_channels obs in
  let obs := crop obs in
  let obs := moveaxis_2_0 obs in
  scale obs.

End Observation.
End ImageWrapper.

(** ** BufferWrapper (lines 42-56): the array operations *)

Module BufferWrapper.

(** [a.repeat(n_steps, axis=0)] *)
Definition repeat_axis0 (n_steps : nat) (a : Array3) : Array3 :=
  flat_map (fun p => repeat p n_steps) a.

(** [self.buffer[:-1] = self.buffer[1:]]: every slot but the last takes
    the contents of the next one. *)
Definition shift (buffer : Array3) : Array3 :=
  match buffer with
  | [] => []
  | _ :: tl => tl ++ [last buffer []]
  end.

(** Broadcasting in an assignment: an axis of the value either has the
    target's length or has length one and is repeated. *)
Definition stretch {X : Type} (n : nat) (l : list X) : option (list X) :=
  if (length l =? n)%nat then Some l
  else match l with
       | [x] => Some (repeat x n)
       | _ => None
       end.

Definition broadcast_plane (d1 d2 : nat) (value : Array3) : option Plane :=
  match value with
  | [p] => rows <- stretch d1 p ;; mapM (stretch d2) rows
  | _ => None
  end.

(** [self.buffer[-1] = observation]: [IndexError] on an empty buffer,
    [ValueError] when the observation does not broadcast to a slot. *)
Definition set_last (buffer : Array3) (observation : Array3) : option Array3 :=
  match rev buffer with
  | [] => None
  | old :: _ =>
      p <- broadcast_plane (length old) (length (hd [] old)) observation ;;
      Some (removelast buffer ++ [p])
  end.

(** The new contents of [self.buffer] after [_observation]. *)
Definition roll (buffer : Array3) (observation : Array3) : option Array3 :=
  set_last (shift buffer) observation.

End BufferWrapper.

(** ** The wrapped environment (line 185) *)

Module Env.

(** The calls that reach the simulator, in order. *)
Inductive call : Type :=
| Reset
| Step (action : Z).

Section Env.
(** [gym.make("Pong-v4")] is Gym's: a state machine with [reset] and
    [step]; [step] may raise on an action it does not know.
    [raw_low] is its [observation_space.low]. *)
Variable RawEnv : Type.
Variable raw_reset : RawEnv -> RawEnv * Array3.
Variable raw_step : RawEnv -> Z -> option (RawEnv * (Array3 * Q * bool)).
Variable raw_low : Array3.
Variable imresize : Array3 -> nat * nat -> Array3.

(** [BufferWrapper(ImageWrapper(raw), n_steps)]: [low] is the stacker's
    [observation_space.low]; [buffer] is unset until the first reset;
    [calls] records what was asked of the simulator. *)
Record t : Type := mk {
  raw : RawEnv;
  low : Array3;
  buffer : option addr;
  calls : list call
}.

Definition make (raw0 : RawEnv) (n_steps : nat) : t :=
  let old_low := zeros_like (ImageWrapper._observation imresize raw_low) in
  mk raw0 (BufferWrapper.repeat_axis0 n_steps old_low) None [].

(** [BufferWrapper._observation]: the buffer is rewritten in place and
    the buffer itself is returned. *)
Definition _observation (e : t) (h : Heap) (observation : Array3)
  : option (t * Heap * addr) :=
  a <- buffer e ;;
  cur <- read h a ;;
  new <- BufferWrapper.roll cur observation ;;
  Some (e, write h a new, a).

(** [BufferWrapper._reset], with [ImageWrapper] applied to what the
    simulator's [reset] returns. *)
Definition reset (e : t) (h : Heap) : option (t * Heap * addr) :=
  let (h1, a) := alloc h (zeros_like (low e)) in
  let (raw', obs) := raw_reset (raw e) in
  let e1 := mk raw' (low e) (Some a) (calls e ++ [Reset]) in
  _observation e1 h1 (ImageWrapper._observation imresize obs).

(** [step] through both observation wrappers. *)
Definition step (e : t) (h : Heap) (action : Z)
  : option (t * Heap * (addr * Q * bool)) :=
  r <- raw_step (raw e) action ;;
  let '(raw', (obs, reward, done)) := r in
  let e1 := mk raw' (low e) (buffer e) (calls e ++ [Step action]) in
  o <- _observation e1 h (ImageWrapper._observation imresize obs) ;;
  let '(e2, h2, a) := o in
  Some (e2, h2, (a, reward, done)).

(** A sequence of calls; each returned observation is recorded as the
    contents it had when it was returned. *)
Fixpoint run (cs : list call) (e : t) (h : Heap)
  : option (t * Heap * list Array3) :=
  match cs with
  | [] => Some (e, h, [])
  | c :: rest =>
      o <- match c with
           | Reset => reset e h
           | Step action =>
               r <- step e h action ;;
               let '(e', h', (a, _, _)) := r in Some (e', h', a)
           end ;;
      let '(e', h', a) := o in
      out <- read h' a ;;
      r <- run rest e' h' ;;
      let '(e'', h'', outs) := r in
      Some (e'', h'', out :: outs)
  end.

(** A call the simulator accepts, for [n_actions] discrete actions. *)
Definition valid_call (n_actions : Z) (c : call) : Prop :=
  match c with
  | Reset => True
  | Step action => (0 <= action < n_actions)%Z
  end.

(** The stacker holds a live 4 x 84 x 84 buffer. *)
Definition ok (e : t) (h : Heap) : Prop :=
  has_shape3 4 84 84 (low e) = true /\
  exists a cur, buffer e = Some a /\ read h a = Some cur /\
                has_shape3 4 84 84 cur = true.

End Env.
End Env.

(** ** Comparisons and arg-max *)

(** [x < y] on floats, as a boolean. *)
Definition Qltb (x y : Q) : bool := negb (Qle_bool y x).

(** [torch.max(q, dim=1)] on one row: the index of the first largest
    entry. *)
Fixpoint argmax_from (best_i : nat) (best : Q) (i : nat) (l : list Q) : nat :=
  match l with
  | [] => best_i
  | x :: tl =>
      if Qltb best x then argmax_from i x (S i) tl
      else argmax_from best_i best (S i) tl
  end.

Definition argmax (l : list Q) : option nat :=
  match l with
  | [] => None
  | x :: tl => Some (argmax_from 0 x 1 tl)
  end.

(** ** Agent and training loop (lines 107-140 and 179-224) *)

Module Train.

(** The exceptions the script can raise, by origin. *)
Inductive exn : Type :=
| NoneNotCallable   (* calling [net] when it is [None] *)
| ArrayError        (* reading an array that is not there *)
| EmptyMax          (* a maximum over no values *)
| EnvError          (* raised inside [env.step] or [env.reset] *)
| BufferError       (* raised inside [ExperienceBuffer.append] *)
| SampleError       (* raised inside [ExperienceBuffer.sample] *)
| LossError         (* raised inside [calc_loss] *)
| SyncError.        (* raised inside [TargetNet.sync] *)

Definition Res (A : Type) : Type := (exn + A)%type.

Definition rbind {A B : Type} (m : Res A) (f : A -> Res B) : Res B :=
  match m with
  | inr a => f a
  | inl e => inl e
  end.

Definition lift {A : Type} (e : exn) (m : option A) : Res A :=
  match m with
  | Some a => inr a
  | None => inl e
  end.

Notation "x <~ m ;; k" := (rbind m (fun x => k))
  (at level 61, m at next level, right associativity).

(** What the random generator hands out during one [play_step] and one
    [sample]: the float of [np.random.random()], the action of
    [action_space.sample()], and the permutation [np.random.choice]
    draws for a population of a given size. *)
Record Draws : Type := mkDraws {
  u : Q;
  rand_action : Z;
  permutation : nat -> list nat
}.

Inductive tag : Type := RewardTag | EpsilonTag.

Section Loop.
Variable RawEnv : Type.
Variable raw_reset : RawEnv -> RawEnv * Array3.
Variable raw_step : RawEnv -> Z -> option (RawEnv * (Array3 * Q * bool)).
Variable raw_low : Array3.
Variable imresize : Array3 -> nat * nat -> Array3.

(** [DQN.forward] on one stacked observation, as a function of the
    network's parameters; the layers' arithmetic is PyTorch's. *)
Variable forward : TargetNet.StateDict -> Array3 -> list Q.

(** What [loss_v.backward()] leaves in the parameters' [grad] fields
    after [zero_grad()]: the gradient of the loss of a batch. *)
Variable G : Type.
Variable autograd : TargetNet.StateDict -> list (Experience.t Array3) -> G.

(** Everything [play_step] touches: the array store, the wrapped
    environment, the replay buffer, and the agent's two fields.
    Experiences hold references to arrays. *)
Record World : Type := mkWorld {
  heap : Heap;
  env : Env.t RawEnv;
  exp_buffer : ExperienceBuffer.t (Experience.t addr);
  agent_state : addr;
  total_reward : Q
}.

(** [Agent._reset]: [self.state = env.reset().copy()]. *)
Definition agent_reset (e : Env.t RawEnv) (h : Heap)
  : Res (Env.t RawEnv * Heap * addr) :=
  r <~ lift EnvError (Env.reset raw_reset imresize e h) ;;
  let '(e1, h1, a) := r in
  c <~ lift ArrayError (copy h1 a) ;;
  let '(h2, s) := c in
  inr (e1, h2, s).

(** Lines 120-128. *)
Definition select_action (net : option TargetNet.StateDict) (epsilon : Q)
           (d : Draws) (w : World) : Res Z :=
  if Qltb (u d) epsilon then inr (rand_action d)
  else
    state_v <~ lift ArrayError (read (heap w) (agent_state w)) ;;
    match net with
    | None => inl NoneNotCallable
    | Some params =>
        act_v <~ lift EmptyMax (argmax (forward params state_v)) ;;
        inr (Z.of_nat act_v)
    end.

(** [Agent.play_step]: returns the new world and [done_reward]. *)
Definition play_step (net : option TargetNet.StateDict) (epsilon : Q)
           (d : Draws) (w : World) : Res (World * option Q) :=
  action <~ select_action net epsilon d w ;;
  r <~ lift EnvError (Env.step raw_step imresize (env w) (heap w) action) ;;
  let '(e1, h1, (new_state, reward, is_done)) := r in
  let total := (total_reward w + reward)%Q in
  c <~ lift ArrayError (copy h1 new_state) ;;
  let '(h2, new_state) := c in
  let exp := Experience.mk (agent_state w) action reward is_done new_state in
  buf <~ lift BufferError (ExperienceBuffer.append (exp_buffer w) exp) ;;
  if is_done then
    r <~ agent_reset e1 h2 ;;
    let '(e2, h3, s) := r in
    inr (mkWorld h3 e2 buf s 0%Q, Some total)
  else
    inr (mkWorld h2 e1 buf new_state total, None).

(** Consecutive [play_step] calls, each with its own network argument,
    epsilon and draws. *)
Fixpoint play_steps (steps : list (option TargetNet.StateDict * Q * Draws))
         (w : World) : Res World :=
  match steps with
  | [] => inr w
  | (net, epsilon, d) :: rest =>
      r <~ play_step net epsilon d w ;;
      play_steps rest (fst r)
  end.

(** The module-level variables of the script.  [net] is the network
    held as [tgt_net.model]. *)
Record State : Type := mkState {
  world : World;
  tgt_net : TargetNet.t;
  grads : option G;
  epsilon : Q;
  frame_idx : Z;
  loss_v : option Q;
  writer : list (tag * Q * Z)
}.

Definition net (st : State) : TargetNet.StateDict := TargetNet.model (tgt_net st).

Definition set_world (st : State) (w : World) : State :=
  mkState w (tgt_net st) (grads st) (epsilon st) (frame_idx st) (loss_v st)
          (writer st).

(** The experience with its two arrays read out, as
    [torch.FloatTensor] does when the batch is assembled. *)
Definition deref (h : Heap) (exp : Experience.t addr)
  : option (Experience.t Array3) :=
  s <- read h (Experience.state exp) ;;
  s' <- read h (Experience.new_state exp) ;;
  Some (Experience.mk s (Experience.action exp) (Experience.reward exp)
                      (Experience.done exp) s').

(** Lines 185-192: what is built before the loops. *)
Definition main_init (raw0 : RawEnv) (params0 : TargetNet.StateDict) : Res State :=
  let e := Env.make raw_low imresize raw0 4 in
  let tn := TargetNet.init params0 in
  let buf := ExperienceBuffer.init (Experience.t addr) REPLAY_SIZE in
  r <~ agent_reset e [] ;;
  let '(e1, h1, s) := r in
  inr (mkState (mkWorld h1 e1 buf s 0%Q) tn None 1%Q 0%Z None []).

(** Lines 199-200: the warm-up loop. *)
Definition warmup (ds : nat -> Draws) (st : State) : Res State :=
  w <~ play_steps (map (fun i => (None, 1%Q, ds i)) (seq 0 REPLAY_START_SIZE))
                  (world st) ;;
  inr (set_world st w).

(** Lines 205-208: one environment step through the agent. *)
Definition play_phase (d : Draws) (st : State) : Res State :=
  r <~ play_step (Some (TargetNet.target_model (tgt_net st))) (epsilon st) d
                 (world st) ;;
  let '(w1, reward) := r in
  let log := match reward with
             | Some x => writer st ++ [(RewardTag, x, frame_idx st)]
             | None => writer st
             end in
  inr (mkState w1 (tgt_net st) (grads st) (epsilon st) (frame_idx st)
               (loss_v st) log).

(** Lines 210-214: [sample], [zero_grad], [calc_loss], [backward].  The
    source has no [optimizer.step()] after them, so the parameters are
    not touched here. *)
Definition learn_phase (d : Draws) (st : State) : Res State :=
  let buf := exp_buffer (world st) in
  if (BATCH_SIZE <=? Z.of_nat (ExperienceBuffer.len buf))%Z then
    batch <~ lift SampleError
               (ExperienceBuffer.sample buf
                  (permutation d (ExperienceBuffer.len buf)) BATCH_SIZE) ;;
    batch_v <~ lift ArrayError (mapM (deref (heap (world st))) batch) ;;
    loss <~ lift LossError (Loss.calc_loss (forward (net st)) batch_v) ;;
    inr (mkState (world st) (tgt_net st) (Some (autograd (net st) batch_v))
                 (epsilon st) (frame_idx st) (Some loss) (writer st))
  else inr st.

(** Lines 216-224: epsilon, logging, target sync, frame counter. *)
Definition bookkeeping (st : State) : Res State :=
  let eps := epsilon_of (frame_idx st) in
  let log := if (frame_idx st mod SUMMARY_EVERY_FRAME =? 0)%Z
             then writer st ++ [(EpsilonTag, eps, frame_idx st)]
             else writer st in
  tn <~ (if (frame_idx st mod SYNC_TARGET_FRAMES =? 0)%Z
         then lift SyncError (TargetNet.sync (tgt_net st))
         else inr (tgt_net st)) ;;
  inr (mkState (world st) tn (grads st) eps (frame_idx st + 1)%Z (loss_v st) log).

(** One iteration of [while True]. *)
Definition learning_iter (d : Draws) (st : State) : Res State :=
  st1 <~ play_phase d st ;;
  st2 <~ learn_phase d st1 ;;
  bookkeeping st2.

(** The first iterations of [while True], one per element of [ds]. *)
Fixpoint learning (ds : list Draws) (st : State) : Res State :=
  match ds with
  | [] => inr st
  | d :: rest => st' <~ learning_iter d st ;; learning rest st'
  end.

(** The same state with other parameters in the value network, or in
    the target network: used to say what a phase does not read. *)
Definition with_model (st : State) (params : TargetNet.StateDict) : State :=
  mkState (world st)
          (TargetNet.mk params (TargetNet.target_model (tgt_net st)))
          (grads st) (epsilon st) (frame_idx st) (loss_v st) (writer st).

Definition with_target (st : State) (params : TargetNet.StateDict) : State :=
  mkState (world st)
          (TargetNet.mk (TargetNet.model (tgt_net st)) params)
          (grads st) (epsilon st) (frame_idx st) (loss_v st) (writer st).

Definition rmap {A B : Type} (f : A -> B) (m : Res A) : Res B :=
  match m with
  | inr a => inr (f a)
  | inl e => inl e
  end.

(** ** Well-formed states *)

Variable n_actions : Z.

(** The generator's contract. *)
Definition valid_draws (d : Draws) : Prop :=
  (0 <= u d)%Q /\ (u d < 1)%Q /\
  (0 <= rand_action d < n_actions)%Z /\
  forall n, Permutation (permutation d n) (seq 0 n).

(** A stored reference is live and is not the stacker's buffer. *)
Definition snapshot (w : World) (a : addr) : Prop :=
  a < length (heap w) /\ Env.buffer (env w) <> Some a.

Definition exp_ok (w : World) (exp : Experience.t addr) : Prop :=
  snapshot w (Experience.state exp) /\
  snapshot w (Experience.new_state exp) /\
  (0 <= Experience.action exp < n_actions)%Z.

Definition wf_world (w : World) : Prop :=
  Env.ok (env w) (heap w) /\
  snapshot w (agent_state w) /\
  (1 <= ExperienceBuffer.capacity (exp_buffer w))%Z /\
  Forall (exp_ok w) (ExperienceBuffer.buffer (exp_buffer w)).

(** A call of [play_step] that can choose an action: the random branch
    is taken or a network is supplied. *)
Definition can_act (s : option TargetNet.StateDict * Q * Draws) : Prop :=
  let '(net, eps, d) := s in
  valid_draws d /\ (Qltb (u d) eps = true \/ net <> None).

Definition wf_state (st : State) : Prop :=
  wf_world (world st) /\ TargetNet.wf (tgt_net st).

End Loop.
End Train.

(** ** Further definitions used by the additional properties *)


(** Successive [BufferWrapper._observation] calls on the same buffer, one
    per preprocessed frame (each frame arrives as a 1 x 84 x 84 array). *)
Fixpoint rolls (buffer : Array3) (frames : list Plane) : option Array3 :=
  match frames with
  | [] => Some buffer
  | f :: rest => b <- BufferWrapper.roll buffer [f] ;; rolls b rest
  end.

(** What reached the simulator: the actions it was stepped with, in
    order, and how often it was reset. *)
Definition actions_of (cs : list Env.call) : list Z :=
  flat_map (fun c => match c with
                     | Env.Step action => [action]
                     | Env.Reset => []
                     end) cs.

Definition resets_of (cs : list Env.call) : nat :=
  length (filter (fun c => match c with
                           | Env.Reset => true
                           | Env.Step _ => false
                           end) cs).

(** The transitions of a list that ended an episode. *)
Definition episodes_ended {S : Type} (exps : list (Experience.t S)) : nat :=
  length (filter (@Experience.done S) exps).

(** The rewards of the episode in progress after the transitions [exps],
    oldest first, when [acc] had been collected before them. *)
Fixpoint running_reward {S : Type} (acc : Q) (exps : list (Experience.t S)) : Q :=
  match exps with
  | [] => acc
  | exp :: rest =>
      running_reward (if Experience.done exp then 0%Q
                      else (acc + Experience.reward exp)%Q) rest
  end.

(** ** DQN (lines 59-83) *)

Module DQN.

(** The layers are PyTorch's.  [nn.Conv2d(in, out, kernel_size=k,
    stride=s)] holds [out] stacks of [in] kernels of size [k] x [k] and
    [out] biases; applied to an [in] x [h] x [w] input it slides every
    kernel over the input in steps of [s] without padding and raises
    when the channels do not match or the input is smaller than the
    kernel.  [nn.Linear(in, out)] holds an [out] x [in] matrix and [out]
    biases and raises on a vector of another length. *)
Record Conv2d : Type := mkConv {
  kernel_size : nat;
  stride : nat;
  conv_weight : list (list Plane);
  conv_bias : list Q
}.

Record Linear : Type := mkLinear {
  weight : list (list Q);
  bias : list Q
}.

Definition dot (a b : list Q) : Q :=
  Qsum (map (fun ab => (fst ab * snd ab)%Q) (combine a b)).

(** The [k] x [k] patch of a plane whose top-left corner is [(i, j)]. *)
Definition window (p : Plane) (i j k : nat) : Plane :=
  map (fun row => firstn k (skipn j row)) (firstn k (skipn i p)).

Definition corr (kernel patch : Plane) : Q :=
  Qsum (map (fun kp => dot (fst kp) (snd kp)) (combine kernel patch)).

(** Number of positions of a kernel of size [k] moved in steps of [s]
    along an axis of length [n]. *)
Definition out_size (n k s : nat) : nat := (n - k) / s + 1.

Definition conv2d (L : Conv2d) (x : Array3) : option Array3 :=
  let h := length (hd [] x) in
  let w := length (hd [] (hd [] x)) in
  let k := kernel_size L in
  let s := stride L in
  if (forallb (fun wo => (length wo =? length x)%nat) (conv_weight L)
      && (length (conv_bias L) =? length (conv_weight L))%nat
      && (k <=? h)%nat && (k <=? w)%nat && (1 <=? s)%nat)%bool
  then Some (map (fun wb =>
                    map (fun i =>
                           map (fun j =>
                                  (snd wb
                                   + Qsum (map (fun kc =>
                                                  corr (fst kc)
                                                       (window (snd kc) (i * s) (j * s) k))
                                               (combine (fst wb) x)))%Q)
                               (seq 0 (out_size w k s)))
                        (seq 0 (out_size h k s)))
                 (combine (conv_weight L) (conv_bias L)))
  else None.

Definition linear (L : Linear) (x : list Q) : option (list Q) :=
  if (forallb (fun row => (length row =? length x)%nat) (weight L)
      && (length (bias L) =? length (weight L))%nat)%bool
  then Some (map (fun wb => (snd wb + dot (fst wb) x)%Q)
                 (combine (weight L) (bias L)))
  else None.

(** [nn.ReLU()] *)
Definition relu (v : Q) : Q := Qmax 0 v.
Definition relu3 (x : Array3) : Array3 := map (map (map relu)) x.

(** [.view(x.size()[0], -1)] for one sample: all entries in order. *)
Definition flatten (x : Array3) : list Q := concat (concat x).

Definition zeros (c h w : nat) : Array3 := repeat (repeat (repeat 0%Q w) h) c.

Record t : Type := mk {
  conv1 : Conv2d;
  conv2 : Conv2d;
  fc1 : Linear;
  fc2 : Linear
}.

(** [self.conv]: convolution, ReLU, convolution, ReLU. *)
Definition conv (c1 c2 : Conv2d) (x : Array3) : option Array3 :=
  a <- conv2d c1 x ;;
  b <- conv2d c2 (relu3 a) ;;
  Some (relu3 b).

(** [_get_conv_out]: the number of entries the convolutions produce on
    a zero input of the given shape. *)
Definition _get_conv_out (c1 c2 : Conv2d) (shape : nat * nat * nat) : option nat :=
  let '(c, h, w) := shape in
  o <- conv c1 c2 (zeros c h w) ;;
  Some (length (flatten o)).

(** [forward] on one sample: [self.fc] is linear, ReLU, linear. *)
Definition forward (net : t) (x : Array3) : option (list Q) :=
  o <- conv (conv1 net) (conv2 net) x ;;
  hidden <- linear (fc1 net) (flatten o) ;;
  linear (fc2 net) (map relu hidden).

(** What [__init__] fixes, whatever the initial weights are. *)
Definition conv_shape (out_c in_c k s : nat) (L : Conv2d) : Prop :=
  kernel_size L = k /\ stride L = s /\
  length (conv_weight L) = out_c /\
  Forall (fun wo => length wo = in_c /\
                    Forall (fun ker => has_shape2 k k ker = true) wo)
         (conv_weight L) /\
  length (conv_bias L) = out_c.

Definition linear_shape (out_f in_f : nat) (L : Linear) : Prop :=
  length (weight L) = out_f /\
  Forall (fun row => length row = in_f) (weight L) /\
  length (bias L) = out_f.

Definition built (input_shape : nat * nat * nat) (n_actions : nat) (net : t) : Prop :=
  conv_shape 16 (fst (fst input_shape)) 8 4 (conv1 net) /\
  conv_shape 32 16 4 2 (conv2 net) /\
  (exists conv_out_size,
      _get_conv_out (conv1 net) (conv2 net) input_shape = Some conv_out_size /\
      linear_shape 256 conv_out_size (fc1 net)) /\
  linear_shape n_actions 256 (fc2 net).

End DQN.

(** ** Small concrete instances used to exercise the definitions *)

Module Instances.
Import String.StringSyntax.
Local Open Scope string_scope.

(** A two-action network on states that are numbers. *)
Definition tiny_net (s : nat) : list Q := [inject_Z (Z.of_nat s); 1%Q].

Definition tiny_batch : list (Experience.t nat) :=
  [ Experience.mk 0 1 1%Q true 5;
    Experience.mk 2 0 (1 # 2)%Q false 3 ].

(** A network whose two estimates are always zero, and one terminal
    transition with reward 1. *)
Definition zero_net (s : nat) : list Q := [0%Q; 0%Q].

Definition one_terminal : list (Experience.t nat) :=
  [ Experience.mk 0 0 1%Q true 0 ].

(** A holder whose value network has moved away from its target copy. *)
Definition drifted : TargetNet.t :=
  TargetNet.mk
    [ ("fc.weight", [1%Q; 2%Q]); ("fc.bias", [3%Q]) ]
    [ ("fc.weight", [0%Q; 0%Q]); ("fc.bias", [0%Q]) ].

(** A toy simulator with six actions whose state counts the steps of the
    episode, whose frames are single pixels and whose episodes last three
    steps; and a resize that paints the requested size with the top-left
    value. *)
Definition toy_frame (s : nat) : Array3 := [[[inject_Z (Z.of_nat s); 0%Q; 0%Q]]].

Definition toy_raw_reset (s : nat) : nat * Array3 := (0, toy_frame 0).

Definition toy_raw_step (s : nat) (action : Z)
  : option (nat * (Array3 * Q * bool)) :=
  if ((0 <=? action) && (action <? 6))%Z
  then Some (S s, (toy_frame (S s),
                   (if (action =? 1)%Z then 1%Q else 0%Q),
                   (S s =? 3)%nat))
  else None.

Definition toy_raw_low : Array3 := toy_frame 0.

Definition toy_imresize (img : Array3) (size : nat * nat) : Array3 :=
  let v := hd 0%Q (hd [] (hd [] img)) in
  repeat (repeat [v; v; v] (snd size)) (fst size).

(** A six-action value function, a stand-in gradient, a generator that
    always draws one half, cycles through the actions and never shuffles,
    and a two-tensor parameter set. *)
Definition toy_forward (params : TargetNet.StateDict) (obs : Array3) : list Q :=
  let b := Qsum (flat_map snd params) in
  [b; 1%Q; 0%Q; 0%Q; 0%Q; 0%Q].

Definition toy_autograd (params : TargetNet.StateDict)
           (batch : list (Experience.t Array3)) : Q :=
  inject_Z (Z.of_nat (List.length batch)).

Definition toy_draws (i : nat) : Train.Draws :=
  Train.mkDraws (1 # 2)%Q (Z.of_nat (i mod 6)) (fun n => seq 0 n).

Definition toy_params : TargetNet.StateDict :=
  [ ("fc.weight", [1%Q; 2%Q]); ("fc.bias", [3%Q]) ].

(** The state the script is in when the warm-up loop starts. *)
Definition toy_start : Train.State nat Q :=
  match Train.main_init toy_raw_reset toy_raw_low toy_imresize Q 0 toy_params with
  | inr st => st
  | inl _ =>
      Train.mkState
        (Train.mkWorld [] (Env.make toy_raw_low toy_imresize 0 4)
                       (ExperienceBuffer.init (Experience.t addr) REPLAY_SIZE)
                       0 0%Q)
        (TargetNet.init toy_params) None 1%Q 0%Z None []
  end.

(** Four [play_step] calls from the start state: two random ones, one
    greedy one, and one more random one after the episode has ended. *)
Definition toy_four_steps : Train.Res (Train.World nat) :=
  Train.play_steps toy_raw_reset toy_raw_step toy_imresize toy_forward
    [ (None, 1%Q, toy_draws 0);
      (Some toy_params, 0%Q, toy_draws 1);
      (None, 1%Q, toy_draws 2);
      (None, 1%Q, toy_draws 3) ]
    (Train.world toy_start).

(** The top-left value of the newest frame of a stacked observation. *)
Definition newest_pixel (a : Array3) : Q :=
  match nth_error a 3 with
  | Some p => nth 0 (nth 0 p []) 0%Q
  | None => 0%Q
  end.

End Instances.

(** ** A concrete network for the additional properties *)

Module NetInstances.

(** The network the script builds for Pong's six actions, with every
    weight and bias zero. *)
Definition zero_dqn : DQN.t :=
  DQN.mk
    (DQN.mkConv 8 4 (repeat (repeat (repeat (repeat 0%Q 8) 8) 4) 16) (repeat 0%Q 16))
    (DQN.mkConv 4 2 (repeat (repeat (repeat (repeat 0%Q 4) 4) 16) 32) (repeat 0%Q 32))
    (DQN.mkLinear (repeat (repeat 0%Q 2592) 256) (repeat 0%Q 256))
    (DQN.mkLinear (repeat (repeat 0%Q 256) 6) (repeat 0%Q 6)).

End NetInstances.

(** * Properties *)

Unset Implicit Arguments.

(** ** Helper lemmas on fallible maps *)

Lemma mapM_length {A B : Type} (f : A -> option B) (l : list A) (out : list B) :
  mapM f l = Some out -> length out = length l.
Proof.
  revert out; induction l as [|a tl IH]; simpl; intros out H.
  - now inversion H.
  - destruct (f a) as [b|]; simpl in H; [|discriminate].
    destruct (mapM f tl) as [bs|]; simpl in H; [|discriminate].
    inversion H; subst; simpl; f_equal; now apply IH.
Qed.

Lemma mapM_Forall2 {A B : Type} (f : A -> option B) (l : list A) (out : list B) :
  mapM f l = Some out -> Forall2 (fun a b => f a = Some b) l out.
Proof.
  revert out; induction l as [|a tl IH]; simpl; intros out H.
  - inversion H; constructor.
  - destruct (f a) as [b|] eqn:Ea; simpl in H; [|discriminate].
    destruct (mapM f tl) as [bs|]; simpl in H; [|discriminate].
    inversion H; subst; constructor; auto.
Qed.

Lemma mapM_total {A B : Type} (f : A -> option B) (l : list A) :
  (forall a, In a l -> exists b, f a = Some b) ->
  exists out, mapM f l = Some out.
Proof.
  induction l as [|a tl IH]; simpl; intros H.
  - now exists [].
  - destruct (H a (or_introl eq_refl)) as [b Hb].
    destruct IH as [bs Hbs]; [intros; apply H; now right|].
    exists (b :: bs); now rewrite Hb, Hbs.
Qed.

(** ** Replay buffer: FIFO eviction and sampling *)

Section BufferFacts.
Variable A : Type.
Import ExperienceBuffer.

Lemma evict_skipn (cap : Z) (q : list A) :
  (0 <= cap)%Z ->
  evict cap q = Some (skipn (length q - Z.to_nat cap) q).
Proof.
  intros Hcap; induction q as [|x tl IH].
  - simpl. destruct (Z.ltb_spec cap 0); [lia | reflexivity].
  - cbn [evict]. destruct (Z.ltb_spec cap (Z.of_nat (length (x :: tl)))) as [Hlt|Hge].
    + rewrite IH. simpl length in *.
      replace (S (length tl) - Z.to_nat cap) with (S (length tl - Z.to_nat cap)) by lia.
      reflexivity.
    + simpl length in *.
      replace (S (length tl) - Z.to_nat cap) with 0 by lia. reflexivity.
Qed.

Lemma append_skipn (b : t A) (x : A) :
  (0 <= capacity b)%Z ->
  append b x =
  Some (mk (capacity b)
           (skipn (length (buffer b ++ [x]) - Z.to_nat (capacity b)) (buffer b ++ [x]))).
Proof.
  intros Hcap; unfold append. now rewrite evict_skipn.
Qed.

Lemma appends_app (b : t A) (xs ys : list A) :
  appends b (xs ++ ys) = (b' <- appends b xs ;; appends b' ys).
Proof.
  revert b; induction xs as [|x tl IH]; intros b; simpl; [reflexivity|].
  destruct (append b x) as [b'|]; simpl; [apply IH | reflexivity].
Qed.

(** Dropping from the front of a window that already is the tail of the
    history gives the tail of the longer history. *)
Lemma skipn_window_snoc (c : nat) (xs : list A) (x : A) :
  let q := skipn (length xs - c) xs ++ [x] in
  skipn (length q - c) q = skipn (length (xs ++ [x]) - c) (xs ++ [x]).
Proof.
  intros q; subst q.
  destruct (Nat.eq_dec c 0) as [->|Hc].
  - rewrite !Nat.sub_0_r, !skipn_all. reflexivity.
  - rewrite !length_app, length_skipn; simpl length.
    destruct (Nat.le_gt_cases (length xs) c) as [Hle|Hgt].
    + replace (length xs - c) with 0 by lia. simpl skipn.
      replace (length xs - 0 + 1 - c) with (length xs + 1 - c) by lia.
      reflexivity.
    + replace (length xs - (length xs - c) + 1 - c) with 1 by lia.
      replace (length xs + 1 - c) with (S (length xs - c)) by lia.
      rewrite (skipn_app (S (length xs - c)) xs).
      replace (S (length xs - c) - length xs) with 0 by lia.
      rewrite skipn_app, length_skipn, skipn_skipn.
      replace (1 + (length xs - c)) with (S (length xs - c)) by lia.
      f_equal. f_equal. lia.
Qed.

(** After any run of appends on a fresh buffer, the deque is the tail of
    the history that fits the capacity. *)
Lemma appends_init (cap : Z) (xs : list A) :
  (0 <= cap)%Z ->
  appends (init A cap) xs =
  Some (mk cap (skipn (length xs - Z.to_nat cap) xs)).
Proof.
  intros Hcap; induction xs as [|x xs IH] using rev_ind.
  - reflexivity.
  - rewrite appends_app, IH. cbn [bind appends].
    rewrite append_skipn by exact Hcap. cbn [capacity buffer bind].
    now rewrite skipn_window_snoc.
Qed.

(** C2.  On a buffer created with capacity [C >= 1], every sequence of
    appends succeeds; afterwards the size is at most [C], the contents are
    the last [min C n] of the [n] appended transitions in insertion order,
    and once more than [C] were appended the buffer holds exactly the [C]
    most recent ones. *)
Theorem replay_buffer_fifo (C : Z) (xs : list A) :
  (1 <= C)%Z ->
  exists b,
    appends (init A C) xs = Some b /\
    (Z.of_nat (len b) <= C)%Z /\
    buffer b = skipn (length xs - Z.to_nat C) xs /\
    ((C < Z.of_nat (length xs))%Z ->
     Z.of_nat (len b) = C /\
     exists evicted, xs = evicted ++ buffer b /\
                     length evicted = length xs - Z.to_nat C).
Proof.
  intros HC. eexists; split; [apply appends_init; lia|].
  unfold len; cbn [buffer]. rewrite length_skipn.
  split; [lia|]. split; [reflexivity|].
  intros Hlt. split; [lia|].
  exists (firstn (length xs - Z.to_nat C) xs). split.
  - symmetry; apply firstn_skipn.
  - rewrite length_firstn; lia.
Qed.

End BufferFacts.

(** The scenario of the specification: capacity 3, appends A, B, C, D. *)
Lemma replay_buffer_fifo_witness :
  (1 <= 3)%Z /\
  exists b,
    ExperienceBuffer.appends (ExperienceBuffer.init nat 3) [10; 11; 12; 13] = Some b /\
    (Z.of_nat (ExperienceBuffer.len b) <= 3)%Z /\
    ExperienceBuffer.buffer b = skipn (4 - Z.to_nat 3) [10; 11; 12; 13] /\
    ((3 < Z.of_nat 4)%Z ->
     Z.of_nat (ExperienceBuffer.len b) = 3%Z /\
     exists evicted, [10; 11; 12; 13] = evicted ++ ExperienceBuffer.buffer b /\
                     length evicted = 4 - Z.to_nat 3).
Proof.
  split; [lia|]. apply (@replay_buffer_fifo nat 3 [10; 11; 12; 13]). lia.
Defined.

Example replay_buffer_scenario :
  ExperienceBuffer.appends (ExperienceBuffer.init nat 3) [10; 11; 12; 13]
  = Some (ExperienceBuffer.mk 3 [11; 12; 13]).
Proof. reflexivity. Qed.

Section SampleFacts.
Variable A : Type.
Import ExperienceBuffer.

Lemma choice_in_range (perm : list nat) (a k : nat) :
  k <= a ->
  choice perm a (Z.of_nat k) = Some (firstn k perm).
Proof.
  intros Hk; unfold choice.
  destruct (Nat.eqb_spec a 0) as [Ha|Ha]; cbn [andb].
  - assert (k = 0) by lia; subst; simpl.
    destruct (Z.ltb_spec (Z.of_nat 0) 0); [lia|reflexivity].
  - destruct (Z.ltb_spec (Z.of_nat a) (Z.of_nat k)); [lia|].
    destruct (Z.ltb_spec (Z.of_nat k) 0); [lia|].
    now rewrite Nat2Z.id.
Qed.

Lemma choice_underflow (perm : list nat) (a : nat) (size : Z) :
  (Z.of_nat a < size)%Z -> choice perm a size = None.
Proof.
  intros Hk; unfold choice.
  destruct ((a =? 0)%nat && negb (size =? 0)%Z)%bool; [reflexivity|].
  destruct (Z.ltb_spec (Z.of_nat a) size); [reflexivity|lia].
Qed.

Lemma NoDup_firstn (k : nat) (l : list nat) : NoDup l -> NoDup (firstn k l).
Proof.
  intros H. rewrite <- (firstn_skipn k l) in H. now apply NoDup_app_remove_r in H.
Qed.

Lemma In_firstn (k : nat) (l : list nat) (i : nat) : In i (firstn k l) -> In i l.
Proof.
  intros H. rewrite <- (firstn_skipn k l). apply in_or_app; now left.
Qed.

(** Reading a duplicate-free list at duplicate-free positions gives a
    duplicate-free list. *)
Lemma NoDup_reads (l : list A) (indices : list nat) (out : list A) :
  NoDup l -> NoDup indices ->
  Forall2 (fun i x => nth_error l i = Some x) indices out ->
  NoDup out.
Proof.
  intros Hl Hi HF; induction HF as [|i x idxs xs Hix HF IH].
  - constructor.
  - inversion Hi as [|? ? Hnotin Hi']; subst. constructor; [|now apply IH].
    intros Hin. apply Hnotin. clear IH Hi Hi' Hnotin.
    induction HF as [|j y js ys Hjy HF IH]; [contradiction|].
    destruct Hin as [->|Hin].
    + left. rewrite NoDup_nth_error in Hl. symmetry. apply Hl.
      * apply nth_error_Some; congruence.
      * congruence.
    + right; now apply IH.
Qed.

Lemma reads_members (l : list A) (indices : list nat) (out : list A) :
  Forall2 (fun i x => nth_error l i = Some x) indices out ->
  forall x, In x out -> In x l.
Proof.
  intros HF x Hx.
  induction HF as [|i y idxs ys Hiy HF IH]; [contradiction|].
  destruct Hx as [->|Hx]; [|now apply IH].
  eapply nth_error_In; eauto.
Qed.

(** When the population is large enough, the indices are the first [k]
    entries of the permutation and every one of them is read. *)
Lemma sample_reads (b : t A) (perm : list nat) (k : nat) :
  Permutation perm (seq 0 (len b)) -> k <= len b ->
  exists out,
    sample b perm (Z.of_nat k) = Some out /\
    length out = k /\
    length (firstn k perm) = k /\
    Forall2 (fun i x => nth_error (buffer b) i = Some x) (firstn k perm) out.
Proof.
  intros Hperm Hk.
  assert (Hrange : forall i, In i (firstn k perm) -> i < len b).
  { intros i Hi. apply In_firstn in Hi.
    apply (Permutation_in _ Hperm), in_seq in Hi. lia. }
  destruct (@mapM_total nat A (getitem b) (firstn k perm)) as [out Hout].
  { intros i Hi. apply Hrange in Hi. unfold getitem.
    destruct (nth_error (buffer b) i) eqn:E; [eauto|].
    apply nth_error_None in E. unfold len in Hi; lia. }
  assert (Hlen : length (firstn k perm) = k).
  { rewrite length_firstn, (Permutation_length Hperm), length_seq. lia. }
  exists out. unfold sample. rewrite choice_in_range by exact Hk. cbn [bind].
  split; [exact Hout|]. split; [|split; [exact Hlen|]].
  - rewrite (mapM_length _ _ _ Hout). exact Hlen.
  - exact (mapM_Forall2 _ _ _ Hout).
Qed.

(** C3 (amended).  With [perm] a permutation of the buffer's positions:
    when the size is at least [k], [sample k] returns [k] entries read at
    [k] pairwise-distinct positions, each a member of the contents, and
    pairwise distinct whenever the contents are; when the size is less
    than [k] it fails. *)
Theorem sample_distinct_positions (b : t A) (perm : list nat) (k : nat) :
  Permutation perm (seq 0 (len b)) ->
  (k <= len b ->
   exists indices out,
     sample b perm (Z.of_nat k) = Some out /\
     length out = k /\
     length indices = k /\
     NoDup indices /\
     Forall2 (fun i x => nth_error (buffer b) i = Some x) indices out /\
     (forall x, In x out -> In x (buffer b)) /\
     (NoDup (buffer b) -> NoDup out)) /\
  (len b < k -> sample b perm (Z.of_nat k) = None).
Proof.
  intros Hperm; split.
  - intros Hk.
    assert (Hnd : NoDup (firstn k perm)).
    { apply NoDup_firstn.
      apply (Permutation_NoDup (Permutation_sym Hperm)), seq_NoDup. }
    destruct (sample_reads b perm k Hperm Hk) as (out & Hout & Hlen & Hlen' & HF).
    exists (firstn k perm), out.
    split; [exact Hout|]. split; [exact Hlen|]. split; [exact Hlen'|].
    split; [exact Hnd|]. split; [exact HF|]. split.
    + exact (reads_members _ _ _ HF).
    + intros Hb. exact (NoDup_reads _ _ _ Hb Hnd HF).
  - intros Hk. unfold sample. rewrite choice_underflow by lia. reflexivity.
Qed.

End SampleFacts.

Lemma sample_distinct_positions_witness :
  let b := ExperienceBuffer.mk 3 [11; 12; 13] in
  Permutation [2; 0; 1] (seq 0 (ExperienceBuffer.len b)) /\
  (3 <= ExperienceBuffer.len b ->
   exists indices out,
     ExperienceBuffer.sample b [2; 0; 1] (Z.of_nat 3) = Some out /\
     length out = 3 /\
     length indices = 3 /\
     NoDup indices /\
     Forall2 (fun i x => nth_error (ExperienceBuffer.buffer b) i = Some x) indices out /\
     (forall x, In x out -> In x (ExperienceBuffer.buffer b)) /\
     (NoDup (ExperienceBuffer.buffer b) -> NoDup out)) /\
  (ExperienceBuffer.len b < 4 ->
   ExperienceBuffer.sample b [2; 0; 1] (Z.of_nat 4) = None).
Proof.
  assert (Hperm : Permutation [2; 0; 1] (seq 0 3)).
  { simpl. apply Permutation_sym.
    apply (perm_trans (l' := [0; 2; 1])); [|apply perm_swap].
    apply perm_skip, perm_swap. }
  intros b. split; [exact Hperm|]. split.
  - exact (proj1 (@sample_distinct_positions nat b [2; 0; 1] 3 Hperm)).
  - exact (proj2 (@sample_distinct_positions nat b [2; 0; 1] 4 Hperm)).
Defined.

(** C3 as stated fails on a buffer that holds the same transition twice:
    the two positions are distinct but the two elements returned are not. *)
Lemma sample_elements_not_distinct :
  let b := ExperienceBuffer.mk 2 [7; 7] in
  Permutation [0; 1] (seq 0 (ExperienceBuffer.len b)) /\
  2 <= ExperienceBuffer.len b /\
  ExperienceBuffer.appends (ExperienceBuffer.init nat 2) [7; 7] = Some b /\
  ExperienceBuffer.sample b [0; 1] 2 = Some [7; 7] /\
  ~ (exists out,
       ExperienceBuffer.sample b [0; 1] 2 = Some out /\
       length out = 2 /\ NoDup out /\
       forall x, In x out -> In x (ExperienceBuffer.buffer b)).
Proof.
  cbv zeta. split; [apply Permutation_refl|].
  split; [unfold ExperienceBuffer.len; simpl; lia|].
  split; [reflexivity|]. split; [reflexivity|].
  intros (out & Hout & _ & Hnd & _).
  cbv in Hout. inversion Hout; subst.
  inversion Hnd as [|? ? Hnotin _]; subst. apply Hnotin; now left.
Qed.

(** ** Exploration schedule *)

Lemma epsilon_of_floor (s : Z) : (1 # 10 <= epsilon_of s)%Q.
Proof. unfold epsilon_of. apply Q.le_max_l. Qed.

Lemma epsilon_of_0 : (epsilon_of 0 == 1)%Q.
Proof. reflexivity. Qed.

Lemma epsilon_of_antitone (s1 s2 : Z) :
  (s1 <= s2)%Z -> (epsilon_of s2 <= epsilon_of s1)%Q.
Proof.
  intros H. unfold epsilon_of.
  apply Q.max_le_compat_l.
  apply Qplus_le_r. apply Qopp_le_compat.
  apply Qmult_le_compat_r.
  - now rewrite <- Zle_Qle.
  - apply Qinv_le_0_compat. discriminate.
Qed.

(** C5.  Epsilon as the loop recomputes it is non-increasing in the step
    count, never below the floor 0.1, and is 1 at step 0. *)
Theorem epsilon_schedule (s1 s2 : Z) :
  (s1 <= s2)%Z ->
  (epsilon_of s2 <= epsilon_of s1)%Q /\
  (1 # 10 <= epsilon_of s1)%Q /\
  (epsilon_of 0 == 1)%Q.
Proof.
  intros H. split; [now apply epsilon_of_antitone|].
  split; [apply epsilon_of_floor | apply epsilon_of_0].
Qed.

Lemma epsilon_schedule_witness :
  (500000 <= 950000)%Z /\
  (epsilon_of 950000 <= epsilon_of 500000)%Q /\
  (1 # 10 <= epsilon_of 500000)%Q /\
  (epsilon_of 0 == 1)%Q.
Proof.
  split; [lia|]. apply (@epsilon_schedule 500000 950000). lia.
Defined.

(** ** Loss computation *)

Lemma update_length {X : Type} (i : nat) (v : X) (l : list X) :
  length (update i v l) = length l.
Proof.
  revert i; induction l as [|x tl IH]; intros [|i]; simpl; auto.
Qed.

Lemma update_app_mid {X : Type} (pre : list X) (x v : X) (tl : list X) :
  update (length pre) v (pre ++ x :: tl) = pre ++ v :: tl.
Proof.
  induction pre as [|p pre IH]; simpl; [reflexivity | now rewrite IH].
Qed.

Lemma nth_error_app_mid {X : Type} (pre : list X) (x : X) (tl : list X) :
  nth_error (pre ++ x :: tl) (length pre) = Some x.
Proof.
  induction pre as [|p pre IH]; simpl; [reflexivity | exact IH].
Qed.

Lemma Qsum_app (a b : list Q) : (Qsum (a ++ b) == Qsum a + Qsum b)%Q.
Proof.
  induction a as [|x a IH]; simpl.
  - now rewrite Qplus_0_l.
  - rewrite IH. apply Qplus_assoc.
Qed.

Section LossFacts.
Variable S : Type.
Variable net : S -> list Q.
Variable n : nat.
Hypothesis net_width : forall s, length (net s) = n.
Hypothesis n_pos : 0 < n.
Import Loss.

Lemma np_max_some (s : S) : exists m, np_max (net s) = Some m.
Proof.
  specialize (net_width s). destruct (net s); simpl in *; [lia | eauto].
Qed.

Lemma setitem_valid (e : Experience.t S) (R : Q) :
  (valid_action n) e ->
  setitem (net (Experience.state e)) (Experience.action e) R
  = Some (update (Z.to_nat (Experience.action e)) R (net (Experience.state e))).
Proof.
  intros [H0 H1]. unfold setitem. rewrite net_width.
  destruct (Z.leb_spec 0 (Experience.action e)); [|lia].
  destruct (Z.ltb_spec (Experience.action e) (Z.of_nat n)); [|lia].
  reflexivity.
Qed.

Lemma fill_targets_rows (rest : list (Experience.t S)) :
  forall (pre : list (list Q)) (seen : list (Experience.t S)),
    length pre = length seen ->
    Forall (valid_action n) rest ->
    fill_targets (combine (seq (length pre) (length rest)) rest)
                 (map net (map (@Experience.new_state S) (seen ++ rest)))
                 (pre ++ map net (map (@Experience.state S) rest))
    = Some (pre ++ map (target_row net) rest).
Proof.
  induction rest as [|e rest IH]; intros pre seen Hlen Hvalid.
  - simpl. reflexivity.
  - inversion Hvalid as [|? ? He Hrest]; subst.
    cbn [length seq combine fill_targets map].
    assert (HR : (if Experience.done e then Some (Experience.reward e)
                  else row <- nth_error
                                (map net (map (@Experience.new_state S) (seen ++ e :: rest)))
                                (length pre) ;;
                       m <- np_max row ;;
                       Some (Experience.reward e + GAMMA * m)%Q)
                 = Some (target net e)).
    { unfold target. destruct (Experience.done e); [reflexivity|].
      rewrite !map_app. cbn [map].
      rewrite Hlen, <- (length_map (@Experience.new_state S) seen),
              <- (length_map net), nth_error_app_mid.
      cbn [bind]. destruct (np_max_some (Experience.new_state e)) as [m ->].
      reflexivity. }
    rewrite HR. cbn [bind].
    rewrite nth_error_app_mid. cbn [bind].
    rewrite setitem_valid by exact He. cbn [bind].
    rewrite update_app_mid.
    change (update (Z.to_nat (Experience.action e)) (target net e)
                   (net (Experience.state e))) with ((target_row net) e).
    specialize (IH (pre ++ [(target_row net) e]) (seen ++ [e])).
    rewrite !length_app in IH. simpl length in IH.
    rewrite Nat.add_1_r in IH. rewrite <- !app_assoc in IH. simpl app in IH.
    apply IH; [lia | exact Hrest].
Qed.

Lemma sq_diff_row_same (row : list Q) : (sq_diff_row row row == 0)%Q.
Proof.
  unfold sq_diff_row. induction row as [|x row IH]; simpl; [reflexivity|].
  rewrite IH. ring.
Qed.

Lemma sq_diff_row_update (row : list Q) (a : nat) (v : Q) :
  a < length row ->
  (sq_diff_row row (update a v row) == (nth a row 0 - v) * (nth a row 0 - v))%Q.
Proof.
  revert a; induction row as [|x row IH]; intros a Ha; simpl in Ha; [lia|].
  destruct a as [|a]; cbn [update nth].
  - unfold sq_diff_row; simpl. fold (sq_diff_row row row).
    rewrite sq_diff_row_same. ring.
  - unfold sq_diff_row; simpl. fold (sq_diff_row row (update a v row)).
    rewrite IH by lia. ring.
Qed.

Lemma sq_diff_targets (batch : list (Experience.t S)) :
  Forall (valid_action n) batch ->
  (sq_diff (map net (map (@Experience.state S) batch)) (map (target_row net) batch)
   == Qsum (map (sq_err net) batch))%Q.
Proof.
  unfold sq_diff. induction 1 as [|e batch He Hb IH]; simpl; [reflexivity|].
  rewrite IH. apply Qplus_inj_r.
  unfold target_row, sq_err, estimate.
  apply sq_diff_row_update. rewrite net_width. destruct He; lia.
Qed.

Lemma numel_rows (batch : list (Experience.t S)) :
  numel (map net (map (@Experience.state S) batch)) = length batch * n.
Proof.
  unfold numel. induction batch as [|e batch IH]; simpl; [reflexivity|].
  rewrite IH, net_width. reflexivity.
Qed.

(** The value [calc_loss] returns: the squared errors at the taken
    actions, summed over the batch and divided by the number of entries
    of the value matrix. *)
Lemma calc_loss_returns (batch : list (Experience.t S)) :
  batch <> [] ->
  Forall (valid_action n) batch ->
  exists L,
    calc_loss net batch = Some L /\
    (L == Qsum (map (sq_err net) batch)
          / inject_Z (Z.of_nat (length batch * n)))%Q.
Proof.
  intros Hne Hvalid. unfold calc_loss, enumerate.
  pose proof (@fill_targets_rows batch [] [] eq_refl Hvalid) as Hfill.
  simpl in Hfill. rewrite Hfill. cbn [bind].
  unfold MSELoss. rewrite numel_rows.
  destruct (Nat.eqb_spec (length batch * n) 0) as [H0|H0].
  { destruct batch; [congruence | simpl in H0; lia]. }
  eexists; split; [reflexivity|].
  now rewrite sq_diff_targets.
Qed.

(** C4 (amended).  For a non-empty batch whose actions index the network's
    [n] outputs, [calc_loss] returns the sum over the batch of the squared
    differences between the estimate at the taken action and the target,
    divided by the number of entries of the value matrix, batch size times
    [n]: the batch mean divided by [n].  The target is the reward when
    [done] holds, whatever network evaluates the next state, and
    [reward + GAMMA * max] of the same network's next-state values
    otherwise. *)
Theorem calc_loss_value (batch : list (Experience.t S)) :
  batch <> [] ->
  Forall (valid_action n) batch ->
  (exists L,
      calc_loss net batch = Some L /\
      (L == Qsum (map (sq_err net) batch)
            / inject_Z (Z.of_nat (length batch * n)))%Q /\
      (L == batch_mse net batch / inject_Z (Z.of_nat n))%Q) /\
  Forall (fun e =>
            (Experience.done e = true ->
             forall net' : S -> list Q, target net' e = Experience.reward e) /\
            (Experience.done e = false ->
             exists m, np_max (net (Experience.new_state e)) = Some m /\
                       target net e = (Experience.reward e + GAMMA * m)%Q))
         batch.
Proof.
  intros Hne Hvalid. split.
  - destruct (calc_loss_returns batch Hne Hvalid) as (L & HL & Hsum).
    exists L. split; [exact HL|]. split; [exact Hsum|].
    rewrite Hsum. unfold batch_mse.
    rewrite Nat2Z.inj_mul, inject_Z_mult.
    assert (Hb : ~ (inject_Z (Z.of_nat (length batch)) == 0)%Q).
    { change 0%Q with (inject_Z 0). rewrite inject_Z_injective.
      destruct batch; [congruence | simpl; lia]. }
    assert (Hn : ~ (inject_Z (Z.of_nat n) == 0)%Q).
    { change 0%Q with (inject_Z 0). rewrite inject_Z_injective. lia. }
    field. split; assumption.
  - apply Forall_forall. intros e _. split.
    + intros Hd net'. unfold target. now rewrite Hd.
    + intros Hd. destruct (np_max_some (Experience.new_state e)) as [m Hm].
      exists m. split; [exact Hm|]. unfold target. now rewrite Hd, Hm.
Qed.

End LossFacts.

Lemma calc_loss_value_witness :
  Instances.tiny_batch <> [] /\
  Forall (@Loss.valid_action nat 2) Instances.tiny_batch /\
  exists L,
    Loss.calc_loss Instances.tiny_net Instances.tiny_batch = Some L /\
    (L == Loss.batch_mse Instances.tiny_net Instances.tiny_batch / inject_Z 2)%Q.
Proof.
  assert (Hne : Instances.tiny_batch <> []) by discriminate.
  assert (Hv : Forall (@Loss.valid_action nat 2) Instances.tiny_batch).
  { repeat constructor; unfold Loss.valid_action; simpl; lia. }
  split; [exact Hne|]. split; [exact Hv|].
  destruct (@calc_loss_value nat Instances.tiny_net 2
              (fun s => eq_refl) (Nat.lt_0_succ 1) Instances.tiny_batch Hne Hv)
    as [(L & HL & _ & Hmse) _].
  exists L. split; [exact HL | exact Hmse].
Defined.

(** C4 as stated fails: with two actions, one terminal transition of reward
    1 and estimates 0, the batch mean of the squared error is 1 while
    [calc_loss] returns 1/2, the mean over both entries of the value row. *)
Lemma calc_loss_is_not_batch_mean :
  exists L,
    Loss.calc_loss Instances.zero_net Instances.one_terminal = Some L /\
    (L == 1 # 2)%Q /\
    (Loss.batch_mse Instances.zero_net Instances.one_terminal == 1)%Q /\
    ~ (L == Loss.batch_mse Instances.zero_net Instances.one_terminal)%Q.
Proof.
  eexists. split; [reflexivity|].
  split; [reflexivity|]. split; [reflexivity|].
  intros H. vm_compute in H. discriminate.
Qed.

(** ** Target network holder *)

Section TargetNetFacts.
Import TargetNet.

Lemma lookup_skip (name : String.string) (pre : StateDict) (v : Tensor)
      (tl : StateDict) :
  ~ In name (keys pre) ->
  lookup name (pre ++ (name, v) :: tl) = Some v.
Proof.
  induction pre as [|[k w] pre IH]; simpl; intros Hnotin.
  - now rewrite String.eqb_refl.
  - destruct (String.eqb_spec name k) as [->|Hneq]; [tauto|].
    apply IH; tauto.
Qed.

Lemma store_skip (name : String.string) (pre : StateDict) (old v : Tensor)
      (tl : StateDict) :
  ~ In name (keys pre) ->
  store name v (pre ++ (name, old) :: tl) = pre ++ (name, v) :: tl.
Proof.
  induction pre as [|[k w] pre IH]; simpl; intros Hnotin.
  - now rewrite String.eqb_refl.
  - destruct (String.eqb_spec name k) as [->|Hneq]; [tauto|].
    rewrite IH; tauto.
Qed.

Lemma load_items_structure (items : StateDict) :
  forall (pre own : StateDict),
    NoDup (keys (pre ++ own)) ->
    same_structure own items ->
    load_items (pre ++ own) items = Some (pre ++ items).
Proof.
  induction items as [|[name param] items IH]; intros pre own Hnd Hss.
  - inversion Hss; subst. reflexivity.
  - inversion Hss as [|[k old] ? own' ? [Hk Hlen] Hss']; subst.
    simpl in Hk, Hlen; subst k.
    assert (Hnotin : ~ In name (keys pre)).
    { unfold keys in *. rewrite map_app in Hnd. simpl in Hnd.
      apply NoDup_remove_2 in Hnd. intros Hin. apply Hnd.
      apply in_or_app; now left. }
    cbn [load_items]. rewrite lookup_skip by exact Hnotin. cbn [bind].
    unfold copy_. rewrite Hlen, Nat.eqb_refl. cbn [bind].
    rewrite store_skip by exact Hnotin.
    specialize (IH (pre ++ [(name, param)]) own').
    rewrite <- !app_assoc in IH. simpl app in IH. apply IH; [|exact Hss'].
    unfold keys in *. rewrite map_app in *. simpl in *. exact Hnd.
Qed.

Lemma same_structure_keys (a b : StateDict) :
  same_structure a b -> keys a = keys b.
Proof.
  induction 1 as [|x y a b [Hk _] _ IH]; [reflexivity|].
  unfold keys in *. cbn [map]. exact (f_equal2 cons Hk IH).
Qed.

Lemma same_structure_refl (a : StateDict) : same_structure a a.
Proof. induction a; constructor; auto. Qed.

Lemma has_all_keys (a b : StateDict) :
  keys a = keys b -> forallb (has_key b) (keys a) = true.
Proof.
  intros H. apply forallb_forall. intros k Hk. unfold has_key.
  apply existsb_exists. exists k. rewrite <- H.
  split; [exact Hk | apply String.eqb_refl].
Qed.

Lemma load_state_dict_structure (own sd : StateDict) :
  NoDup (keys own) -> same_structure own sd ->
  load_state_dict own sd = Some sd.
Proof.
  intros Hnd Hss. unfold load_state_dict.
  pose proof (@load_items_structure sd [] own Hnd Hss) as Hload.
  cbn [app] in Hload. rewrite Hload. cbn [bind].
  now rewrite has_all_keys by (now apply same_structure_keys).
Qed.

Lemma init_wf (m : StateDict) : NoDup (keys m) -> wf (init m).
Proof. intros H; split; [exact H | apply same_structure_refl]. Qed.

Lemma sync_wf (tn : t) :
  wf tn -> sync tn = Some (mk (model tn) (model tn)).
Proof.
  intros [Hnd Hss]. unfold sync.
  now rewrite (load_state_dict_structure _ _ Hnd Hss).
Qed.

(** C8.  On a holder whose two networks have the same structure, [sync]
    makes the target parameters equal to the value network's, and a
    second [sync] with the value network untouched returns the very same
    holder state. *)
Theorem sync_idempotent (tn : t) :
  wf tn ->
  exists tn1,
    sync tn = Some tn1 /\
    model tn1 = model tn /\
    target_model tn1 = model tn /\
    sync tn1 = Some tn1.
Proof.
  intros Hwf. exists (mk (model tn) (model tn)).
  split; [now apply sync_wf|]. split; [reflexivity|]. split; [reflexivity|].
  apply (@sync_wf (mk (model tn) (model tn))).
  destruct Hwf as [Hnd Hss]. split; cbn [target_model model].
  - now rewrite <- (same_structure_keys _ _ Hss).
  - apply same_structure_refl.
Qed.

End TargetNetFacts.

Lemma sync_idempotent_witness :
  TargetNet.wf Instances.drifted /\
  exists tn1,
    TargetNet.sync Instances.drifted = Some tn1 /\
    TargetNet.model tn1 = TargetNet.model Instances.drifted /\
    TargetNet.target_model tn1 = TargetNet.model Instances.drifted /\
    TargetNet.sync tn1 = Some tn1.
Proof.
  assert (Hwf : TargetNet.wf Instances.drifted).
  { split.
    - simpl. repeat constructor; simpl; intuition discriminate.
    - repeat constructor. }
  split; [exact Hwf | exact (sync_idempotent _ Hwf)].
Defined.

(** ** Arrays, shapes and the store *)

Lemma has_shape2_spec (d1 d2 : nat) (p : Plane) :
  has_shape2 d1 d2 p = true <->
  length p = d1 /\ Forall (fun row => length row = d2) p.
Proof.
  unfold has_shape2. rewrite andb_true_iff, Nat.eqb_eq, forallb_forall, Forall_forall.
  split; intros [H1 H2]; (split; [exact H1|]); intros x Hx; apply Nat.eqb_eq; auto.
Qed.

Lemma has_shape3_spec (d0 d1 d2 : nat) (a : Array3) :
  has_shape3 d0 d1 d2 a = true <->
  length a = d0 /\ Forall (fun p => has_shape2 d1 d2 p = true) a.
Proof.
  unfold has_shape3. rewrite andb_true_iff, Nat.eqb_eq, forallb_forall, Forall_forall.
  tauto.
Qed.

Lemma read_alloc (h : Heap) (v : Array3) :
  read (fst (alloc h v)) (snd (alloc h v)) = Some v.
Proof.
  unfold read, alloc; simpl. rewrite nth_error_app2, Nat.sub_diag by lia. reflexivity.
Qed.

Lemma read_alloc_old (h : Heap) (v : Array3) (a : addr) :
  a < length h -> read (fst (alloc h v)) a = read h a.
Proof.
  intros Ha. unfold read, alloc; simpl. now rewrite nth_error_app1.
Qed.

Lemma read_write_same (h : Heap) (a : addr) (v : Array3) :
  a < length h -> read (write h a v) a = Some v.
Proof.
  unfold read, write. revert a; induction h as [|x h IH]; intros [|a] Ha;
    simpl in *; try lia; [reflexivity | apply IH; lia].
Qed.

Lemma read_write_other (h : Heap) (a b : addr) (v : Array3) :
  a <> b -> read (write h a v) b = read h b.
Proof.
  unfold read, write. revert a b; induction h as [|x h IH]; intros [|a] [|b] Hab;
    simpl; try reflexivity; try congruence. apply IH; congruence.
Qed.

Lemma write_length (h : Heap) (a : addr) (v : Array3) :
  length (write h a v) = length h.
Proof. apply update_length. Qed.

Lemma read_lt (h : Heap) (a : addr) (v : Array3) :
  read h a = Some v -> a < length h.
Proof. intros H. apply nth_error_Some. unfold read in H. congruence. Qed.

(** ** Frame preprocessing and stacking *)

Lemma stretch_same {X : Type} (n : nat) (l : list X) :
  length l = n -> BufferWrapper.stretch n l = Some l.
Proof. intros H. unfold BufferWrapper.stretch. now rewrite H, Nat.eqb_refl. Qed.

Lemma mapM_stretch_rows (d2 : nat) (p : Plane) :
  Forall (fun row => length row = d2) p ->
  mapM (BufferWrapper.stretch d2) p = Some p.
Proof.
  induction 1 as [|row p Hrow _ IH]; simpl; [reflexivity|].
  now rewrite stretch_same, IH.
Qed.

Lemma broadcast_plane_same (d1 d2 : nat) (f : Plane) :
  has_shape2 d1 d2 f = true ->
  BufferWrapper.broadcast_plane d1 d2 [f] = Some f.
Proof.
  intros H. apply has_shape2_spec in H. destruct H as [H1 H2].
  unfold BufferWrapper.broadcast_plane.
  rewrite stretch_same by exact H1. cbn [bind].
  now apply mapM_stretch_rows.
Qed.

Lemma four_planes (a : Array3) :
  has_shape3 4 84 84 a = true ->
  exists b0 b1 b2 b3,
    a = [b0; b1; b2; b3] /\
    has_shape2 84 84 b0 = true /\ has_shape2 84 84 b1 = true /\
    has_shape2 84 84 b2 = true /\ has_shape2 84 84 b3 = true.
Proof.
  intros H. apply has_shape3_spec in H. destruct H as [Hlen Hall].
  destruct a as [|b0 [|b1 [|b2 [|b3 [|b4 a]]]]]; simpl in Hlen; try lia.
  exists b0, b1, b2, b3. split; [reflexivity|].
  inversion Hall as [|? ? H0 Hall1]; subst.
  inversion Hall1 as [|? ? H1 Hall2]; subst.
  inversion Hall2 as [|? ? H2 Hall3]; subst.
  inversion Hall3 as [|? ? H3 _]; subst. auto.
Qed.

Lemma four_planes_shape (b0 b1 b2 b3 : Plane) :
  has_shape2 84 84 b0 = true -> has_shape2 84 84 b1 = true ->
  has_shape2 84 84 b2 = true -> has_shape2 84 84 b3 = true ->
  has_shape3 4 84 84 [b0; b1; b2; b3] = true.
Proof.
  intros H0 H1 H2 H3. unfold has_shape3. cbn [length forallb Nat.eqb andb].
  now rewrite H0, H1, H2, H3.
Qed.

(** One call of the stacker on a full 4-deep buffer: the three newest
    frames move one slot older and the new frame takes the last slot. *)
Lemma roll_four (b0 b1 b2 b3 f : Plane) :
  has_shape2 84 84 b3 = true -> has_shape2 84 84 f = true ->
  BufferWrapper.roll [b0; b1; b2; b3] [f] = Some [b1; b2; b3; f].
Proof.
  intros H3 Hf. unfold BufferWrapper.roll, BufferWrapper.shift, BufferWrapper.set_last.
  cbn [last app rev].
  pose proof H3 as H3'. apply has_shape2_spec in H3'. destruct H3' as [Hlen Hrows].
  assert (Hhd : length (hd [] b3) = 84).
  { destruct b3 as [|row b3]; simpl in Hlen; [lia|]. now inversion Hrows. }
  rewrite Hlen, Hhd, broadcast_plane_same by exact Hf. reflexivity.
Qed.

Lemma zeros_like_four (a : Array3) :
  has_shape3 4 84 84 a = true ->
  zeros_like a = [zero_plane; zero_plane; zero_plane; zero_plane].
Proof.
  assert (Hrow : forall row : list Q,
             length row = 84 -> map (fun _ : Q => 0%Q) row = repeat 0%Q 84).
  { intros row <-. induction row; simpl; congruence. }
  assert (Hplane : forall p : Plane,
             has_shape2 84 84 p = true ->
             map (map (fun _ : Q => 0%Q)) p = zero_plane).
  { intros p Hp. apply has_shape2_spec in Hp. destruct Hp as [Hlen Hrows].
    assert (Hgen : map (map (fun _ : Q => 0%Q)) p
                   = repeat (repeat 0%Q 84) (length p)).
    { clear Hlen. induction Hrows as [|row p Hr _ IH]; [reflexivity|].
      cbn [map length repeat]. now rewrite Hrow, IH. }
    rewrite Hgen, Hlen. reflexivity. }
  intros H. destruct (four_planes a H) as (b0 & b1 & b2 & b3 & -> & H0 & H1 & H2 & H3).
  unfold zeros_like. cbn [map]. now rewrite !Hplane.
Qed.

Lemma zero_plane_shape : has_shape2 84 84 zero_plane = true.
Proof. reflexivity. Qed.

Section PreprocessFacts.
Variable imresize : Array3 -> nat * nat -> Array3.
Variable chan : nat.
Hypothesis imresize_shape :
  forall img, has_shape3 110 84 chan (imresize img (110, 84)) = true.

(** The preprocessor returns a single 84 x 84 frame, as a 1 x 84 x 84
    array. *)
Lemma observation_frame (obs : Array3) :
  exists f, ImageWrapper._observation imresize obs = [f] /\
            has_shape2 84 84 f = true.
Proof.
  unfold ImageWrapper._observation.
  pose proof (imresize_shape obs) as Hr.
  apply has_shape3_spec in Hr. destruct Hr as [Hlen Hrows].
  set (r := imresize obs (110, 84)) in *.
  set (c := ImageWrapper.crop (ImageWrapper.mean_channels r)).
  assert (Hc : length c = 84).
  { unfold c, ImageWrapper.crop, ImageWrapper.mean_channels, ImageWrapper.X_OFS.
    rewrite length_firstn, length_skipn, length_map.
    unfold Array3, Plane in *. rewrite Hlen. reflexivity. }
  assert (Hcrow : Forall (fun row => length row = 84 /\
                                     Forall (fun px : list Q => length px = 1) row) c).
  { apply Forall_forall. intros row Hin.
    unfold c, ImageWrapper.crop in Hin.
    assert (Hin' : In row (ImageWrapper.mean_channels r)).
    { rewrite <- (firstn_skipn ImageWrapper.X_OFS (ImageWrapper.mean_channels r)).
      apply in_or_app; right.
      rewrite <- (firstn_skipn 84 (skipn ImageWrapper.X_OFS (ImageWrapper.mean_channels r))).
      apply in_or_app; now left. }
    unfold ImageWrapper.mean_channels in Hin'.
    apply in_map_iff in Hin'. destruct Hin' as (row0 & <- & Hrow0).
    rewrite Forall_forall in Hrows. specialize (Hrows row0 Hrow0).
    apply has_shape2_spec in Hrows. destruct Hrows as [Hl _].
    rewrite length_map. split; [exact Hl|].
    apply Forall_forall. intros px Hpx. apply in_map_iff in Hpx.
    destruct Hpx as (px0 & <- & _). reflexivity. }
  assert (Hch : length (hd [] (hd [] c)) = 1).
  { destruct c as [|row c']; simpl in Hc; [lia|].
    inversion Hcrow as [|? ? [Hl Hpx] _]; subst. simpl.
    destruct row as [|px row]; simpl in Hl; [lia|].
    now inversion Hpx. }
  unfold ImageWrapper.moveaxis_2_0. fold c. rewrite Hch.
  cbn [seq map ImageWrapper.scale]. eexists; split; [reflexivity|].
  apply has_shape2_spec. rewrite !length_map. split; [exact Hc|].
  apply Forall_forall. intros row Hrow.
  apply in_map_iff in Hrow. destruct Hrow as (row1 & <- & Hrow1).
  apply in_map_iff in Hrow1. destruct Hrow1 as (row0 & <- & Hrow0).
  rewrite !length_map. rewrite Forall_forall in Hcrow.
  now destruct (Hcrow row0 Hrow0).
Qed.

End PreprocessFacts.

Section EnvFacts.
Variable RawEnv : Type.
Variable raw_reset : RawEnv -> RawEnv * Array3.
Variable raw_step : RawEnv -> Z -> option (RawEnv * (Array3 * Q * bool)).
Variable raw_low : Array3.
Variable imresize : Array3 -> nat * nat -> Array3.
Variable chan : nat.
Hypothesis imresize_shape :
  forall img, has_shape3 110 84 chan (imresize img (110, 84)) = true.

Let frame_of := @observation_frame imresize chan imresize_shape.

Lemma make_low (raw0 : RawEnv) :
  has_shape3 4 84 84 (Env.low (Env.make raw_low imresize raw0 4)) = true.
Proof.
  unfold Env.make; cbn [Env.low].
  destruct (frame_of raw_low) as (f & -> & Hf).
  unfold zeros_like, BufferWrapper.repeat_axis0. cbn [map flat_map repeat app].
  assert (Hz : has_shape2 84 84 (map (map (fun _ : Q => 0%Q)) f) = true).
  { apply has_shape2_spec in Hf. destruct Hf as [Hl Hr].
    apply has_shape2_spec. rewrite length_map. split; [exact Hl|].
    apply Forall_forall. intros row Hrow. apply in_map_iff in Hrow.
    destruct Hrow as (row0 & <- & Hrow0). rewrite length_map.
    rewrite Forall_forall in Hr. now apply Hr. }
  now apply four_planes_shape.
Qed.

Lemma env_observation_four (e : Env.t RawEnv) (h : Heap) (a : addr)
      (b0 b1 b2 b3 f : Plane) :
  Env.buffer e = Some a ->
  read h a = Some [b0; b1; b2; b3] ->
  has_shape2 84 84 b3 = true -> has_shape2 84 84 f = true ->
  Env._observation e h [f] = Some (e, write h a [b1; b2; b3; f], a).
Proof.
  intros Hb Hr H3 Hf. unfold Env._observation.
  rewrite Hb; cbn [bind]. rewrite Hr; cbn [bind].
  now rewrite roll_four.
Qed.

(** Reset: a fresh zero-filled buffer receives the first frame in its
    newest slot. *)
Lemma env_reset_ok (e : Env.t RawEnv) (h : Heap) :
  has_shape3 4 84 84 (Env.low e) = true ->
  exists f,
    ImageWrapper._observation imresize (snd (raw_reset (Env.raw e))) = [f] /\
    has_shape2 84 84 f = true /\
    Env.reset raw_reset imresize e h
    = Some (Env.mk (fst (raw_reset (Env.raw e))) (Env.low e) (Some (length h))
                   (Env.calls e ++ [Env.Reset]),
            h ++ [[zero_plane; zero_plane; zero_plane; f]],
            length h).
Proof.
  intros Hlow. unfold Env.reset. cbn [alloc].
  destruct (raw_reset (Env.raw e)) as [raw' obs]. cbn [fst snd].
  destruct (frame_of obs) as (f & Hobs & Hf). exists f.
  split; [exact Hobs|]. split; [exact Hf|].
  rewrite Hobs, (zeros_like_four _ Hlow).
  erewrite env_observation_four; [| reflexivity | | apply zero_plane_shape | exact Hf].
  - unfold write. f_equal. f_equal.
    change (h ++ [[zero_plane; zero_plane; zero_plane; zero_plane]])
      with (h ++ [zero_plane; zero_plane; zero_plane; zero_plane] :: []).
    now rewrite update_app_mid.
  - unfold read. now rewrite nth_error_app2, Nat.sub_diag by lia.
Qed.

(** Step: the buffer is rewritten in place, shifted by one frame. *)
Lemma env_step_ok (e : Env.t RawEnv) (h : Heap) (action : Z)
      (raw' : RawEnv) (obs : Array3) (reward : Q) (done : bool)
      (a : addr) (b0 b1 b2 b3 : Plane) :
  raw_step (Env.raw e) action = Some (raw', (obs, reward, done)) ->
  Env.buffer e = Some a ->
  read h a = Some [b0; b1; b2; b3] ->
  has_shape2 84 84 b3 = true ->
  exists f,
    ImageWrapper._observation imresize obs = [f] /\
    has_shape2 84 84 f = true /\
    Env.step raw_step imresize e h action
    = Some (Env.mk raw' (Env.low e) (Some a) (Env.calls e ++ [Env.Step action]),
            write h a [b1; b2; b3; f],
            (a, reward, done)).
Proof.
  intros Hraw Hb Hr H3. unfold Env.step. rewrite Hraw. cbn [bind].
  destruct (frame_of obs) as (f & Hobs & Hf). exists f.
  split; [exact Hobs|]. split; [exact Hf|].
  rewrite Hobs.
  erewrite env_observation_four; [| exact Hb | exact Hr | exact H3 | exact Hf].
  cbn [bind]. now rewrite Hb.
Qed.

Variable n_actions : Z.
Hypothesis raw_step_ok :
  forall s action, (0 <= action < n_actions)%Z ->
                   exists r, raw_step s action = Some r.

Lemma env_ok_reset (e : Env.t RawEnv) (h : Heap) :
  has_shape3 4 84 84 (Env.low e) = true ->
  exists e' h' a out,
    Env.reset raw_reset imresize e h = Some (e', h', a) /\
    read h' a = Some out /\ has_shape3 4 84 84 out = true /\
    Env.ok e' h'.
Proof.
  intros Hlow. destruct (env_reset_ok e h Hlow) as (f & _ & Hf & Hreset).
  assert (Hread : read (h ++ [[zero_plane; zero_plane; zero_plane; f]]) (length h)
                  = Some [zero_plane; zero_plane; zero_plane; f]).
  { unfold read. now rewrite nth_error_app2, Nat.sub_diag by lia. }
  assert (Hshape : has_shape3 4 84 84 [zero_plane; zero_plane; zero_plane; f] = true).
  { apply four_planes_shape; auto using zero_plane_shape. }
  do 4 eexists. split; [exact Hreset|]. split; [exact Hread|].
  split; [exact Hshape|]. split; [exact Hlow|].
  do 2 eexists. cbn [Env.buffer]. eauto.
Qed.

Lemma env_ok_step (e : Env.t RawEnv) (h : Heap) (action : Z) :
  Env.ok e h -> (0 <= action < n_actions)%Z ->
  exists e' h' a reward done out,
    Env.step raw_step imresize e h action = Some (e', h', (a, reward, done)) /\
    Env.buffer e = Some a /\
    read h' a = Some out /\ has_shape3 4 84 84 out = true /\
    Env.ok e' h'.
Proof.
  intros (Hlow & a & cur & Hb & Hr & Hcur) Ha.
  destruct (raw_step_ok (Env.raw e) action Ha) as ([raw' [[obs reward] done]] & Hraw).
  destruct (four_planes _ Hcur) as (b0 & b1 & b2 & b3 & -> & H0 & H1 & H2 & H3).
  destruct (env_step_ok e h action _ _ _ _ _ _ _ _ _ Hraw Hb Hr H3)
    as (f & _ & Hf & Hstep).
  assert (Hread : read (write h a [b1; b2; b3; f]) a = Some [b1; b2; b3; f]).
  { apply read_write_same. eapply read_lt; eauto. }
  assert (Hshape : has_shape3 4 84 84 [b1; b2; b3; f] = true).
  { now apply four_planes_shape. }
  do 6 eexists. split; [exact Hstep|]. split; [exact Hb|].
  split; [exact Hread|]. split; [exact Hshape|]. split; [exact Hlow|].
  do 2 eexists. cbn [Env.buffer]. eauto.
Qed.

Lemma env_run_shapes (cs : list Env.call) :
  forall (e : Env.t RawEnv) (h : Heap),
    has_shape3 4 84 84 (Env.low e) = true ->
    (Env.ok e h \/ exists cs', cs = Env.Reset :: cs') ->
    Forall (Env.valid_call n_actions) cs ->
    exists e' h' outs,
      Env.run raw_reset raw_step imresize cs e h = Some (e', h', outs) /\
      length outs = length cs /\
      Forall (fun out => has_shape3 4 84 84 out = true) outs.
Proof.
  induction cs as [|c cs IH]; intros e h Hlow Hstart Hvalid.
  - exists e, h, []. repeat split; constructor.
  - inversion Hvalid as [|? ? Hc Hcs]; subst.
    assert (Hhead : exists e1 h1 a out,
               match c with
               | Env.Reset => Env.reset raw_reset imresize e h
               | Env.Step action =>
                   r <- Env.step raw_step imresize e h action ;;
                   let '(e', h', (a, _, _)) := r in Some (e', h', a)
               end = Some (e1, h1, a) /\
               read h1 a = Some out /\ has_shape3 4 84 84 out = true /\
               Env.ok e1 h1).
    { destruct c as [|action].
      - apply env_ok_reset; exact Hlow.
      - destruct Hstart as [Hok | (cs' & Hcs')]; [|discriminate].
        destruct (env_ok_step e h action Hok Hc)
          as (e1 & h1 & a & reward & done & out & Hstep & _ & Hread & Hshape & Hok1).
        exists e1, h1, a, out. rewrite Hstep. cbn [bind]. auto. }
    destruct Hhead as (e1 & h1 & a & out & Hhead & Hread & Hshape & Hok1).
    destruct (IH e1 h1 (proj1 Hok1) (or_introl Hok1) Hcs)
      as (e2 & h2 & outs & Hrun & Hlen & Hall).
    exists e2, h2, (out :: outs). cbn [Env.run].
    rewrite Hhead. cbn [bind]. rewrite Hread. cbn [bind]. rewrite Hrun. cbn [bind].
    split; [reflexivity|]. split; [simpl; now rewrite Hlen|].
    constructor; assumption.
Qed.

(** C7.  For the stacker built with [n_steps = 4]: a reset leaves three
    zero frames followed by the first preprocessed frame; a step moves
    the three newest frames one slot older and writes the new frame into
    the last slot; and every observation returned by any sequence of
    accepted calls that starts with a reset has shape (4, 84, 84). *)
Theorem frame_stacker_window (raw0 : RawEnv) (h : Heap) (cs : list Env.call) :
  Forall (Env.valid_call n_actions) cs ->
  let e0 := Env.make raw_low imresize raw0 4 in
  (exists e1 h1 a f,
      Env.reset raw_reset imresize e0 h = Some (e1, h1, a) /\
      ImageWrapper._observation imresize (snd (raw_reset raw0)) = [f] /\
      read h1 a = Some [zero_plane; zero_plane; zero_plane; f]) /\
  (forall (e : Env.t RawEnv) (h' : Heap) (a : addr) (b0 b1 b2 b3 : Plane)
          (action : Z) (raw' : RawEnv) (obs : Array3) (reward : Q) (done : bool),
      Env.buffer e = Some a ->
      read h' a = Some [b0; b1; b2; b3] ->
      has_shape3 4 84 84 [b0; b1; b2; b3] = true ->
      raw_step (Env.raw e) action = Some (raw', (obs, reward, done)) ->
      exists e' h'' f,
        Env.step raw_step imresize e h' action = Some (e', h'', (a, reward, done)) /\
        ImageWrapper._observation imresize obs = [f] /\
        read h'' a = Some [b1; b2; b3; f]) /\
  (exists e' h' outs,
      Env.run raw_reset raw_step imresize (Env.Reset :: cs) e0 h
      = Some (e', h', outs) /\
      length outs = Datatypes.S (length cs) /\
      Forall (fun out => has_shape3 4 84 84 out = true) outs).
Proof.
  intros Hvalid e0. split; [|split].
  - destruct (env_reset_ok e0 h (make_low raw0)) as (f & Hobs & _ & Hreset).
    do 4 eexists. split; [exact Hreset|]. split; [exact Hobs|].
    unfold read. now rewrite nth_error_app2, Nat.sub_diag by lia.
  - intros e h' a b0 b1 b2 b3 action raw' obs reward done Hb Hr Hshape Hraw.
    destruct (four_planes _ Hshape) as (c0 & c1 & c2 & c3 & Heq & _ & _ & _ & H3).
    inversion Heq; subst c0 c1 c2 c3.
    destruct (env_step_ok e h' action _ _ _ _ _ _ _ _ _ Hraw Hb Hr H3)
      as (f & Hobs & _ & Hstep).
    do 3 eexists. split; [exact Hstep|]. split; [exact Hobs|].
    apply read_write_same. eapply read_lt; eauto.
  - apply env_run_shapes.
    + apply make_low.
    + right; eauto.
    + constructor; [exact I | exact Hvalid].
Qed.

(** What a step and a reset do to the store: a step rewrites only the
    stacker's buffer, a reset only allocates. *)
Lemma env_step_frame (e : Env.t RawEnv) (h : Heap) (action : Z) :
  Env.ok e h -> (0 <= action < n_actions)%Z ->
  exists e' a reward done out,
    Env.step raw_step imresize e h action
    = Some (e', write h a out, (a, reward, done)) /\
    Env.buffer e = Some a /\ Env.buffer e' = Some a /\ a < length h /\
    has_shape3 4 84 84 out = true /\
    Env.low e' = Env.low e /\
    Env.calls e' = Env.calls e ++ [Env.Step action].
Proof.
  intros (Hlow & a & cur & Hb & Hr & Hcur) Ha.
  destruct (raw_step_ok (Env.raw e) action Ha) as ([raw' [[obs reward] done]] & Hraw).
  destruct (four_planes _ Hcur) as (b0 & b1 & b2 & b3 & -> & H0 & H1 & H2 & H3).
  destruct (env_step_ok e h action _ _ _ _ _ _ _ _ _ Hraw Hb Hr H3)
    as (f & _ & Hf & Hstep).
  do 5 eexists. split; [exact Hstep|]. cbn [Env.buffer Env.low Env.calls].
  repeat split; auto.
  - eapply read_lt; eauto.
  - now apply four_planes_shape.
Qed.

Lemma env_reset_frame (e : Env.t RawEnv) (h : Heap) :
  has_shape3 4 84 84 (Env.low e) = true ->
  exists e' out,
    Env.reset raw_reset imresize e h = Some (e', h ++ [out], length h) /\
    Env.buffer e' = Some (length h) /\
    has_shape3 4 84 84 out = true /\
    Env.low e' = Env.low e /\
    Env.calls e' = Env.calls e ++ [Env.Reset].
Proof.
  intros Hlow. destruct (env_reset_ok e h Hlow) as (f & _ & Hf & Hreset).
  do 2 eexists. split; [exact Hreset|]. cbn [Env.buffer Env.low Env.calls].
  repeat split; auto.
  apply four_planes_shape; auto using zero_plane_shape.
Qed.

End EnvFacts.

Lemma toy_imresize_shape (img : Array3) :
  has_shape3 110 84 3 (Instances.toy_imresize img (110, 84)) = true.
Proof. reflexivity. Qed.

Lemma toy_raw_step_ok (s : nat) (action : Z) :
  (0 <= action < 6)%Z -> exists r, Instances.toy_raw_step s action = Some r.
Proof.
  intros [H0 H1]. unfold Instances.toy_raw_step.
  destruct (Z.leb_spec 0 action); [|lia].
  destruct (Z.ltb_spec action 6); [|lia].
  cbn [andb]. eauto.
Qed.

Lemma frame_stacker_window_witness :
  let cs := [Env.Step 2; Env.Step 0; Env.Reset; Env.Step 1] in
  Forall (Env.valid_call 6) cs /\
  exists e' h' outs,
    Env.run Instances.toy_raw_reset Instances.toy_raw_step Instances.toy_imresize
            (Env.Reset :: cs)
            (Env.make Instances.toy_raw_low Instances.toy_imresize 0 4) []
    = Some (e', h', outs) /\
    length outs = 5 /\
    Forall (fun out => has_shape3 4 84 84 out = true) outs.
Proof.
  intros cs.
  assert (Hvalid : Forall (Env.valid_call 6) cs).
  { repeat constructor; simpl; lia. }
  split; [exact Hvalid|].
  exact (proj2 (proj2 (frame_stacker_window
                         nat Instances.toy_raw_reset Instances.toy_raw_step
                         Instances.toy_raw_low Instances.toy_imresize 3
                         toy_imresize_shape 6 toy_raw_step_ok 0 [] cs Hvalid))).
Defined.

(** ** Agent and training loop *)

Lemma argmax_from_bound (l : list Q) :
  forall best_i best i,
    best_i < i -> argmax_from best_i best i l < i + length l.
Proof.
  induction l as [|x l IH]; intros best_i best i Hlt; simpl.
  - lia.
  - destruct (Qltb best x).
    + specialize (IH i x (S i)). lia.
    + specialize (IH best_i best (S i)). lia.
Qed.

Lemma argmax_bound (l : list Q) (i : nat) :
  argmax l = Some i -> i < length l.
Proof.
  destruct l as [|x l]; simpl; [discriminate|].
  intros H; inversion H; subst.
  pose proof (argmax_from_bound l 0 x 1). lia.
Qed.

Lemma Forall_skipn_keep {X : Type} (P : X -> Prop) (k : nat) (l : list X) :
  Forall P l -> Forall P (skipn k l).
Proof.
  intros H. rewrite <- (firstn_skipn k l) in H.
  now apply Forall_app in H.
Qed.

Lemma Qltb_lt (x y : Q) : (x < y)%Q -> Qltb x y = true.
Proof.
  intros H. unfold Qltb. destruct (Qle_bool y x) eqn:E; [|reflexivity].
  apply Qle_bool_iff in E. exfalso. exact (Qlt_not_le _ _ H E).
Qed.

Section TrainFacts.
Variable RawEnv : Type.
Variable raw_reset : RawEnv -> RawEnv * Array3.
Variable raw_step : RawEnv -> Z -> option (RawEnv * (Array3 * Q * bool)).
Variable raw_low : Array3.
Variable imresize : Array3 -> nat * nat -> Array3.
Variable forward : TargetNet.StateDict -> Array3 -> list Q.
Variable G : Type.
Variable autograd : TargetNet.StateDict -> list (Experience.t Array3) -> G.
Variable n_actions : Z.
Variable chan : nat.

Hypothesis imresize_shape :
  forall img, has_shape3 110 84 chan (imresize img (110, 84)) = true.
Hypothesis raw_step_ok :
  forall s action, (0 <= action < n_actions)%Z ->
                   exists r, raw_step s action = Some r.
Hypothesis forward_width :
  forall params obs, Z.of_nat (length (forward params obs)) = n_actions.
Hypothesis n_actions_pos : (0 < n_actions)%Z.

Import Train.

Local Abbreviation World := (Train.World RawEnv).
Local Abbreviation State := (Train.State RawEnv G).
Local Abbreviation select_action := (@Train.select_action RawEnv forward).
Local Abbreviation agent_reset := (Train.agent_reset raw_reset imresize).
Local Abbreviation play_step := (Train.play_step raw_reset raw_step imresize forward).
Local Abbreviation play_steps := (Train.play_steps raw_reset raw_step imresize forward).
Local Abbreviation wf_world := (@Train.wf_world RawEnv n_actions).
Local Abbreviation exp_ok := (@Train.exp_ok RawEnv n_actions).
Local Abbreviation valid_draws := (Train.valid_draws n_actions).

Lemma select_action_ok (net : option TargetNet.StateDict) (eps : Q)
      (d : Draws) (w : World) :
  wf_world w -> valid_draws d ->
  Qltb (u d) eps = true \/ net <> None ->
  exists action,
    select_action net eps d w = inr action /\ (0 <= action < n_actions)%Z.
Proof.
  intros (_ & [Hs _] & _) (_ & _ & Hact & _) Hpol.
  unfold Train.select_action.
  destruct (Qltb (u d) eps) eqn:Hlt.
  - exists (rand_action d). auto.
  - destruct Hpol as [Hpol|Hnet]; [discriminate|].
    destruct net as [params|]; [|congruence].
    destruct (read (heap w) (agent_state w)) as [state_v|] eqn:Hread.
    2:{ apply nth_error_None in Hread. lia. }
    cbn [lift rbind].
    destruct (argmax (forward params state_v)) as [i|] eqn:Hmax.
    + cbn [lift rbind]. exists (Z.of_nat i). split; [reflexivity|].
      apply argmax_bound in Hmax. rewrite <- (forward_width params state_v). lia.
    + specialize (forward_width params state_v).
      destruct (forward params state_v); simpl in *; [lia | discriminate].
Qed.

Lemma snapshot_mono (w w' : World) (a : addr) :
  snapshot w a ->
  length (heap w) <= length (heap w') ->
  (Env.buffer (env w') = Env.buffer (env w) \/
   exists b, Env.buffer (env w') = Some b /\ length (heap w) <= b) ->
  snapshot w' a.
Proof.
  intros [Ha Hb] Hlen Hbuf. split; [lia|].
  destruct Hbuf as [->|(b & -> & Hfresh)]; [exact Hb|].
  intros Heq; inversion Heq; lia.
Qed.

Lemma exp_ok_mono (w w' : World) (exp : Experience.t addr) :
  exp_ok w exp ->
  length (heap w) <= length (heap w') ->
  (Env.buffer (env w') = Env.buffer (env w) \/
   exists b, Env.buffer (env w') = Some b /\ length (heap w) <= b) ->
  exp_ok w' exp.
Proof.
  intros (H1 & H2 & H3) Hlen Hbuf.
  split; [|split]; eauto using snapshot_mono.
Qed.


(** One [play_step] from a well-formed world: it returns, the world stays
    well formed, no array that an earlier reference denotes is touched,
    the appended experience holds a fresh copy of the observation, and
    the simulator is stepped exactly once (and reset when the episode
    ended). *)
Lemma play_step_ok (net : option TargetNet.StateDict) (eps : Q)
      (d : Draws) (w : World) :
  wf_world w -> valid_draws d ->
  Qltb (u d) eps = true \/ net <> None ->
  exists w' action reward (done : bool) a,
    play_step net eps d w
    = inr (w', if done then Some (total_reward w + reward)%Q else None) /\
    wf_world w' /\
    select_action net eps d w = inr action /\
    Env.buffer (env w) = Some a /\
    length (heap w) < length (heap w') /\
    (forall b, snapshot w b -> read (heap w') b = read (heap w) b) /\
    exp_buffer w'
    = ExperienceBuffer.mk
        (ExperienceBuffer.capacity (exp_buffer w))
        (let q := ExperienceBuffer.buffer (exp_buffer w)
                  ++ [Experience.mk (agent_state w) action reward done
                                    (length (heap w))] in
         skipn (length q - Z.to_nat (ExperienceBuffer.capacity (exp_buffer w))) q) /\
    read (heap w') (length (heap w)) = read (heap w') a /\
    Env.calls (env w')
    = Env.calls (env w) ++ Env.Step action :: (if done then [Env.Reset] else []) /\
    (forall b, snapshot w b -> snapshot w' b).
Proof.
  intros Hwf Hd Hpol.
  destruct (select_action_ok net eps d w Hwf Hd Hpol) as (action & Hsel & Hact).
  destruct Hwf as (Hok & Hs & Hcap & Hexps).
  destruct (env_step_frame RawEnv raw_step imresize chan imresize_shape
              n_actions raw_step_ok (env w) (heap w) action Hok Hact)
    as (e1 & a & reward & done & out & Hstep & Hb & Hb1 & Ha & Hout & Hlow1 & Hcalls1).
  set (h1 := write (heap w) a out) in *.
  assert (Hlen1 : length h1 = length (heap w)) by apply write_length.
  assert (Hread1 : read h1 a = Some out) by (apply read_write_same; exact Ha).
  set (exp := Experience.mk (agent_state w) action reward done (length (heap w))).
  set (q := ExperienceBuffer.buffer (exp_buffer w) ++ [exp]).
  set (buf := ExperienceBuffer.mk (ExperienceBuffer.capacity (exp_buffer w))
                (skipn (length q - Z.to_nat (ExperienceBuffer.capacity (exp_buffer w))) q)).
  assert (Happend : ExperienceBuffer.append (exp_buffer w) exp = Some buf).
  { apply append_skipn. lia. }
  assert (Hprefix : forall b, snapshot w b -> read h1 b = read (heap w) b).
  { intros b [_ Hnb]. apply read_write_other. congruence. }
  assert (Hhead : play_step net eps d w
                  = (if done
                     then r <~ agent_reset e1 (h1 ++ [out]) ;;
                          let '(e2, h3, s) := r in
                          inr (mkWorld h3 e2 buf s 0%Q, Some (total_reward w + reward)%Q)
                     else inr (mkWorld (h1 ++ [out]) e1 buf (length (heap w))
                                       (total_reward w + reward)%Q, None))).
  { unfold Train.play_step. rewrite Hsel. cbn [rbind]. rewrite Hstep. cbn [lift rbind].
    unfold copy. fold h1. rewrite Hread1. cbn [bind alloc lift rbind].
    rewrite Hlen1. fold exp. rewrite Happend. cbn [lift rbind]. reflexivity. }
  assert (Hexps1 : forall w' : World,
             length (heap w) <= length (heap w') ->
             (Env.buffer (env w') = Env.buffer (env w) \/
              exists b, Env.buffer (env w') = Some b /\ length (heap w) < b) ->
             length (heap w) < length (heap w') ->
             Forall (exp_ok w') (ExperienceBuffer.buffer buf)).
  { intros w' Hle Hbuf Hlt. unfold buf; cbn [ExperienceBuffer.buffer].
    apply Forall_skipn_keep. unfold q. apply Forall_app. split.
    - eapply Forall_impl; [|exact Hexps]. intros x Hx.
      apply (exp_ok_mono w w' x Hx Hle).
      destruct Hbuf as [Hbuf|(b & Hbuf & Hfresh)]; [now left|].
      right; exists b; split; [exact Hbuf | lia].
    - constructor; [|constructor]. unfold Train.exp_ok, exp.
      cbn [Experience.state Experience.new_state Experience.action].
      split; [|split; [|exact Hact]].
      + apply (snapshot_mono w w' _ Hs Hle).
        destruct Hbuf as [Hbuf|(b & Hbuf & Hfresh)]; [now left|].
        right; exists b; split; [exact Hbuf | lia].
      + split; [exact Hlt|].
        destruct Hbuf as [->|(b & -> & Hfresh)].
        * rewrite Hb. intros Heq; inversion Heq; lia.
        * intros Heq; inversion Heq; lia. }
  destruct done.
  - (* the episode ended: the agent resets *)
    destruct (env_reset_frame RawEnv raw_reset imresize chan imresize_shape
                e1 (h1 ++ [out])) as (e2 & out2 & Hreset & Hb2 & Hout2 & Hlow2 & Hcalls2).
    { rewrite Hlow1. exact (proj1 Hok). }
    set (h2 := h1 ++ [out]) in *.
    assert (Hlen2 : length h2 = S (length (heap w))).
    { unfold h2. rewrite length_app, Hlen1. simpl. lia. }
    assert (Hreset' : agent_reset e1 h2
                      = inr (e2, (h2 ++ [out2]) ++ [out2], S (length h2))).
    { unfold Train.agent_reset. rewrite Hreset. cbn [lift rbind].
      unfold copy, read. rewrite nth_error_app2, Nat.sub_diag by lia.
      cbn [nth_error bind alloc lift rbind].
      rewrite length_app. simpl length. now rewrite Nat.add_1_r. }
    set (w' := mkWorld ((h2 ++ [out2]) ++ [out2]) e2 buf (S (length h2)) 0%Q).
    assert (Hlen' : length (heap w') = S (S (S (length (heap w))))).
    { unfold w'; cbn [heap]. rewrite !length_app, Hlen2. simpl. lia. }
    exists w', action, reward, true, a.
    split; [rewrite Hhead, Hreset'; reflexivity|].
    assert (Hold : forall b, b < length h2 -> read (heap w') b = read h2 b).
    { intros b Hlt. unfold w', read; cbn [heap].
      rewrite <- app_assoc. now rewrite nth_error_app1. }
    split; [|split; [exact Hsel|split; [exact Hb|split; [lia|split; [|split; [|split]]]]]].
    + (* well-formedness *)
      split; [|split; [|split]].
      * split; [unfold w'; cbn [env]; rewrite Hlow2, Hlow1; exact (proj1 Hok)|].
        exists (length h2), out2. split; [exact Hb2|]. split; [|exact Hout2].
        unfold w', read; cbn [heap]. rewrite <- app_assoc.
        now rewrite nth_error_app2, Nat.sub_diag by lia.
      * split; [rewrite Hlen'; unfold w'; cbn [agent_state]; lia|].
        unfold w'; cbn [env agent_state]. rewrite Hb2.
        intros Heq; inversion Heq; lia.
      * exact Hcap.
      * apply (Hexps1 w'); [lia| |lia]. right. exists (length h2).
        unfold w'; cbn [env]. split; [exact Hb2 | lia].
    + intros b Hsb. rewrite Hold by (destruct Hsb; lia).
      unfold h2, read. rewrite nth_error_app1 by (destruct Hsb; lia).
      now apply Hprefix.
    + reflexivity.
    + rewrite !Hold by lia.
      unfold h2, read. rewrite <- Hlen1, nth_error_app2, Nat.sub_diag by lia.
      rewrite nth_error_app1 by lia. symmetry. exact Hread1.
    + split.
      * unfold w'; cbn [env]. rewrite Hcalls2, Hcalls1, <- app_assoc. reflexivity.
      * intros b Hsb. apply (snapshot_mono w w' b Hsb); [lia|].
        right. exists (length h2). unfold w'; cbn [env]. split; [exact Hb2 | lia].
  - (* the episode goes on *)
    set (w' := mkWorld (h1 ++ [out]) e1 buf (length (heap w))
                       (total_reward w + reward)%Q).
    assert (Hlen' : length (heap w') = S (length (heap w))).
    { unfold w'; cbn [heap]. rewrite length_app, Hlen1. simpl. lia. }
    exists w', action, reward, false, a.
    split; [exact Hhead|].
    split; [|split; [exact Hsel|split; [exact Hb|split; [lia|split; [|split; [|split]]]]]].
    + split; [|split; [|split]].
      * split; [unfold w'; cbn [env]; rewrite Hlow1; exact (proj1 Hok)|].
        exists a, out. split; [exact Hb1|]. split; [|exact Hout].
        unfold w', read; cbn [heap]. rewrite nth_error_app1 by lia. exact Hread1.
      * split; [rewrite Hlen'; unfold w'; cbn [agent_state]; lia|].
        unfold w'; cbn [env agent_state]. rewrite Hb1.
        intros Heq; inversion Heq; lia.
      * exact Hcap.
      * apply (Hexps1 w'); [lia| |lia]. left. unfold w'; cbn [env]. congruence.
    + intros b Hsb. unfold w', read; cbn [heap].
      rewrite nth_error_app1 by (destruct Hsb; lia). now apply Hprefix.
    + reflexivity.
    + unfold w', read; cbn [heap].
      rewrite <- Hlen1, nth_error_app2, Nat.sub_diag by lia.
      rewrite nth_error_app1 by lia. symmetry. exact Hread1.
    + split.
      * unfold w'; cbn [env]. exact Hcalls1.
      * intros b Hsb. apply (snapshot_mono w w' b Hsb); [lia|].
        left. unfold w'; cbn [env]. congruence.
Qed.

Local Abbreviation can_act := (Train.can_act n_actions).

(** Any number of further [play_step] calls: they return, and every array
    that a reference denoted before still has the same contents. *)
Lemma play_steps_ok (steps : list (option TargetNet.StateDict * Q * Draws)) :
  forall w : World,
    wf_world w -> Forall can_act steps ->
    exists w',
      play_steps steps w = inr w' /\
      wf_world w' /\
      forall b, snapshot w b ->
                read (heap w') b = read (heap w) b /\ snapshot w' b.
Proof.
  induction steps as [|[[net eps] d] steps IH]; intros w Hwf Hsteps.
  - exists w. split; [reflexivity|]. split; [exact Hwf|].
    intros b Hb; split; [reflexivity | exact Hb].
  - inversion Hsteps as [|? ? Hcan Hrest]; subst.
    unfold Train.can_act in Hcan. destruct Hcan as [Hd Hpol].
    destruct (play_step_ok net eps d w Hwf Hd Hpol)
      as (w1 & action & reward & done & a & Hstep & Hwf1 & _ & _ & _ & Hframe & _ & _ & _ & Hsnap).
    destruct (IH w1 Hwf1 Hrest) as (w2 & Hrun & Hwf2 & Hframe2).
    exists w2. cbn [Train.play_steps]. rewrite Hstep. cbn [rbind fst].
    split; [exact Hrun|]. split; [exact Hwf2|].
    intros b Hb. destruct (Hframe2 b (Hsnap b Hb)) as [Hread Hsb].
    split; [|exact Hsb]. rewrite Hread. now apply Hframe.
Qed.

Lemma newest_kept {X : Type} (c : nat) (l : list X) (x : X) :
  1 <= c -> In x (skipn (length (l ++ [x]) - c) (l ++ [x])).
Proof.
  intros Hc. rewrite length_app. simpl length.
  rewrite skipn_app.
  replace (length l + 1 - c - length l) with 0 by lia.
  apply in_or_app. right. now left.
Qed.

(** C10.  The experience that [play_step] appends refers to the agent's
    previous state copy and to a fresh array that is a copy of the
    observation the environment returned; the environment returns its own
    buffer and rewrites it in place at every step; and whatever
    [play_step] calls follow, the arrays behind the state and new_state
    fields of every experience in the replay buffer keep their contents. *)
Theorem stored_observations_frozen
        (net : option TargetNet.StateDict) (eps : Q) (d : Draws) (w : World)
        (later : list (option TargetNet.StateDict * Q * Draws)) :
  wf_world w -> can_act (net, eps, d) -> Forall can_act later ->
  (forall (e : Env.t RawEnv) (h : Heap) (action : Z),
      Env.ok e h -> (0 <= action < n_actions)%Z ->
      exists e' a reward done out,
        Env.step raw_step imresize e h action
        = Some (e', write h a out, (a, reward, done)) /\
        Env.buffer e = Some a /\ Env.buffer e' = Some a) /\
  exists w1 r w2 exp a,
    play_step net eps d w = inr (w1, r) /\
    Env.buffer (env w) = Some a /\
    In exp (ExperienceBuffer.buffer (exp_buffer w1)) /\
    Experience.state exp = agent_state w /\
    Experience.new_state exp = length (heap w) /\
    Experience.new_state exp <> a /\
    read (heap w1) (Experience.new_state exp) = read (heap w1) a /\
    play_steps later w1 = inr w2 /\
    forall exp',
      In exp' (ExperienceBuffer.buffer (exp_buffer w1)) ->
      read (heap w2) (Experience.state exp')
      = read (heap w1) (Experience.state exp') /\
      read (heap w2) (Experience.new_state exp')
      = read (heap w1) (Experience.new_state exp').
Proof.
  intros Hwf [Hd Hpol] Hlater. split.
  - intros e h action Hok Hact.
    destruct (env_step_frame RawEnv raw_step imresize chan imresize_shape
                n_actions raw_step_ok e h action Hok Hact)
      as (e' & a & reward & done & out & Hstep & Hb & Hb' & _).
    exists e', a, reward, done, out. auto.
  - destruct (play_step_ok net eps d w Hwf Hd Hpol)
      as (w1 & action & reward & done & a & Hstep & Hwf1 & _ & Hb & _ & _
          & Hbuf & Hcopy & _ & _).
    destruct (play_steps_ok later w1 Hwf1 Hlater) as (w2 & Hrun & _ & Hframe).
    set (exp := Experience.mk (agent_state w) action reward done (length (heap w))) in *.
    exists w1, (if done then Some (total_reward w + reward)%Q else None), w2, exp, a.
    split; [exact Hstep|]. split; [exact Hb|].
    split.
    { rewrite Hbuf. cbn [ExperienceBuffer.buffer].
      apply newest_kept. destruct Hwf as (_ & _ & Hcap & _). lia. }
    split; [reflexivity|]. split; [reflexivity|].
    split.
    { cbn [exp Experience.new_state].
      destruct Hwf as ((_ & a' & cur & Hb' & Hr & _) & _).
      rewrite Hb in Hb'. inversion Hb'; subst a'.
      apply read_lt in Hr. lia. }
    split; [exact Hcopy|]. split; [exact Hrun|].
    intros exp' Hin.
    destruct Hwf1 as (_ & _ & _ & Hexps).
    rewrite Forall_forall in Hexps. destruct (Hexps exp' Hin) as (Hs & Hs' & _).
    split; [apply (Hframe _ Hs) | apply (Hframe _ Hs')].
Qed.

Local Abbreviation warmup := (@Train.warmup RawEnv raw_reset raw_step imresize forward G).

Lemma select_action_eps1 (net : option TargetNet.StateDict) (d : Draws) (w : World) :
  (u d < 1)%Q -> select_action net 1%Q d w = inr (rand_action d).
Proof.
  intros Hu. unfold Train.select_action. now rewrite Qltb_lt.
Qed.

Lemma play_step_eps1 (net : option TargetNet.StateDict) (d : Draws) (w : World) :
  (u d < 1)%Q -> play_step net 1%Q d w = play_step None 1%Q d w.
Proof.
  intros Hu. unfold Train.play_step. now rewrite !select_action_eps1.
Qed.

Lemma play_step_eps1_error (d : Draws) (w : World) :
  (u d < 1)%Q -> play_step None 1%Q d w <> inl NoneNotCallable.
Proof.
  intros Hu. unfold Train.play_step. rewrite select_action_eps1 by exact Hu.
  cbn [rbind].
  destruct (Env.step raw_step imresize (env w) (heap w) (rand_action d))
    as [[[e1 h1] [[new_state reward] is_done]]|]; cbn [lift rbind]; [|discriminate].
  destruct (copy h1 new_state) as [[h2 s]|]; cbn [lift rbind]; [|discriminate].
  destruct (ExperienceBuffer.append _ _) as [buf|]; cbn [lift rbind]; [|discriminate].
  destruct is_done; [|discriminate].
  unfold Train.agent_reset.
  destruct (Env.reset raw_reset imresize e1 h2) as [[[e2 h3] a]|];
    cbn [lift rbind]; [|discriminate].
  destruct (copy h3 a) as [[h4 s']|]; cbn [lift rbind]; discriminate.
Qed.

(** The failure that the warm-up avoids is real: once the draw is not
    below epsilon, [play_step] with [net = None] fails on the call. *)
Lemma select_action_none_raises (eps : Q) (d : Draws) (w : World) :
  wf_world w -> Qltb (u d) eps = false ->
  select_action None eps d w = inl NoneNotCallable /\
  play_step None eps d w = inl NoneNotCallable.
Proof.
  intros (_ & [Hs _] & _) Hlt.
  assert (Hsel : select_action None eps d w = inl NoneNotCallable).
  { unfold Train.select_action. rewrite Hlt.
    destruct (read (heap w) (agent_state w)) as [state_v|] eqn:Hread.
    - reflexivity.
    - apply nth_error_None in Hread. lia. }
  split; [exact Hsel|]. unfold Train.play_step. now rewrite Hsel.
Qed.

(** C9.  With [epsilon = 1.0] and a draw below 1 the random branch is
    taken and [play_step] does not depend on its [net] argument, so with
    [net = None] it never fails on calling [None]; and the warm-up loop,
    started in a well-formed world, runs to its end. *)
Theorem warmup_never_calls_net (ds : nat -> Draws) (st : State) :
  wf_world (world st) ->
  (forall i, valid_draws (ds i)) ->
  (forall (net : option TargetNet.StateDict) (d : Draws) (w : World),
      (u d < 1)%Q ->
      select_action net 1%Q d w = inr (rand_action d) /\
      play_step net 1%Q d w = play_step None 1%Q d w /\
      play_step None 1%Q d w <> inl NoneNotCallable) /\
  exists st',
    warmup ds st = inr st' /\ wf_world (world st').
Proof.
  intros Hwf Hds. split.
  - intros net d w Hu.
    split; [now apply select_action_eps1|].
    split; [now apply play_step_eps1 | now apply play_step_eps1_error].
  - unfold Train.warmup.
    destruct (play_steps_ok
                (map (fun i => (None, 1%Q, ds i)) (seq 0 REPLAY_START_SIZE))
                (world st) Hwf) as (w' & Hrun & Hwf' & _).
    { apply Forall_forall. intros s Hs. apply in_map_iff in Hs.
      destruct Hs as (i & <- & _). split; [apply Hds|].
      left. apply Qltb_lt. now destruct (Hds i) as (_ & Hu & _). }
    rewrite Hrun. cbn [rbind]. eexists. split; [reflexivity | exact Hwf'].
Qed.

Local Abbreviation wf_state := (@Train.wf_state RawEnv G n_actions).
Local Abbreviation play_phase := (@Train.play_phase RawEnv raw_reset raw_step imresize forward G).
Local Abbreviation learn_phase := (@Train.learn_phase RawEnv forward G autograd).
Local Abbreviation bookkeeping := (@Train.bookkeeping RawEnv G).
Local Abbreviation learning_iter := (@Train.learning_iter RawEnv raw_reset raw_step imresize forward G autograd).
Local Abbreviation learning := (@Train.learning RawEnv raw_reset raw_step imresize forward G autograd).
Local Abbreviation main_init := (@Train.main_init RawEnv raw_reset raw_low imresize G).

Lemma forward_width_nat (params : TargetNet.StateDict) (obs : Array3) :
  length (forward params obs) = Z.to_nat n_actions.
Proof. rewrite <- (forward_width params obs). now rewrite Nat2Z.id. Qed.

Lemma deref_ok (w : World) (exp : Experience.t addr) :
  exp_ok w exp ->
  exists exp_v,
    deref (heap w) exp = Some exp_v /\
    Experience.action exp_v = Experience.action exp.
Proof.
  intros ([Hs _] & [Hs' _] & _). unfold deref.
  destruct (read (heap w) (Experience.state exp)) as [s|] eqn:E1.
  2:{ apply nth_error_None in E1. lia. }
  destruct (read (heap w) (Experience.new_state exp)) as [s'|] eqn:E2.
  2:{ apply nth_error_None in E2. lia. }
  cbn [bind]. eexists. split; reflexivity.
Qed.

Lemma deref_action (h : Heap) (exp : Experience.t addr) (exp_v : Experience.t Array3) :
  deref h exp = Some exp_v -> Experience.action exp_v = Experience.action exp.
Proof.
  unfold deref. destruct (read h (Experience.state exp)); [|discriminate].
  destruct (read h (Experience.new_state exp)); [|discriminate].
  cbn [bind]. intros H; inversion H. reflexivity.
Qed.

(** The learning phase of an iteration, once the buffer holds a batch:
    a batch is sampled, the loss of the value network on it is computed
    and its gradient is left in [grads]; nothing else changes. *)
Lemma learn_phase_ok (d : Draws) (st : State) :
  wf_state st -> valid_draws d ->
  let buf := exp_buffer (world st) in
  exists st',
    learn_phase d st = inr st' /\
    world st' = world st /\ tgt_net st' = tgt_net st /\
    epsilon st' = epsilon st /\ frame_idx st' = frame_idx st /\
    writer st' = writer st /\
    ((BATCH_SIZE <= Z.of_nat (ExperienceBuffer.len buf))%Z ->
     exists batch batch_v loss,
       ExperienceBuffer.sample buf (permutation d (ExperienceBuffer.len buf)) BATCH_SIZE
       = Some batch /\
       mapM (deref (heap (world st))) batch = Some batch_v /\
       length batch_v = 32 /\
       Loss.calc_loss (forward (net st)) batch_v = Some loss /\
       grads st' = Some (autograd (net st) batch_v) /\
       loss_v st' = Some loss) /\
    ((Z.of_nat (ExperienceBuffer.len buf) < BATCH_SIZE)%Z -> st' = st).
Proof.
  intros [Hwf _] (_ & _ & _ & Hperm) buf. unfold Train.learn_phase. fold buf.
  destruct (Z.leb_spec BATCH_SIZE (Z.of_nat (ExperienceBuffer.len buf))) as [Hle|Hlt].
  - change BATCH_SIZE with (Z.of_nat 32) in *.
    destruct (sample_reads _ buf (permutation d (ExperienceBuffer.len buf)) 32
                (Hperm (ExperienceBuffer.len buf))) as (batch & Hsample & Hlen & _ & Hreads);
      [lia|].
    pose proof (reads_members _ _ _ _ Hreads) as Hmem.
    destruct Hwf as (_ & _ & _ & Hexps). rewrite Forall_forall in Hexps.
    destruct (mapM_total (deref (heap (world st))) batch) as [batch_v Hderef].
    { intros exp Hin. destruct (deref_ok (world st) exp (Hexps exp (Hmem exp Hin)))
        as (exp_v & Hv & _). eauto. }
    assert (Hlenv : length batch_v = 32).
    { rewrite (mapM_length _ _ _ Hderef). exact Hlen. }
    assert (Hvalid : Forall (Loss.valid_action (Z.to_nat n_actions)) batch_v).
    { pose proof (mapM_Forall2 _ _ _ Hderef) as HF.
      assert (Hall : Forall (exp_ok (world st)) batch).
      { apply Forall_forall. intros exp Hin. apply Hexps, Hmem, Hin. }
      clear - HF Hall n_actions_pos.
      induction HF as [|exp exp_v batch batch_v Hd HF IH]; constructor.
      - inversion Hall as [|? ? (_ & _ & Hact) _]; subst.
        unfold Loss.valid_action. rewrite (deref_action _ _ _ Hd). lia.
      - apply IH. now inversion Hall. }
    destruct (calc_loss_returns _ (forward (net st)) (Z.to_nat n_actions)
                (forward_width_nat (net st)) ltac:(lia) batch_v)
      as (loss & Hloss & _); [|exact Hvalid|].
    { destruct batch_v; [discriminate | discriminate]. }
    rewrite Hsample. cbn [lift rbind]. rewrite Hderef. cbn [lift rbind].
    rewrite Hloss. cbn [lift rbind].
    eexists. split; [reflexivity|]. cbn [world tgt_net epsilon frame_idx writer grads loss_v].
    repeat (split; [reflexivity|]).
    split; [|lia].
    intros _. exists batch, batch_v, loss.
    repeat (split; [first [reflexivity | assumption]|]). reflexivity.
  - exists st. repeat (split; [reflexivity|]). split; [lia | reflexivity].
Qed.

Lemma bookkeeping_ok (st : State) :
  TargetNet.wf (tgt_net st) ->
  exists tn,
    bookkeeping st
    = inr (mkState (world st) tn (grads st) (epsilon_of (frame_idx st))
                   (frame_idx st + 1)%Z (loss_v st)
                   (if (frame_idx st mod SUMMARY_EVERY_FRAME =? 0)%Z
                    then writer st ++ [(EpsilonTag, epsilon_of (frame_idx st), frame_idx st)]
                    else writer st)) /\
    TargetNet.wf tn /\
    TargetNet.model tn = TargetNet.model (tgt_net st) /\
    TargetNet.target_model tn
    = (if (frame_idx st mod SYNC_TARGET_FRAMES =? 0)%Z
       then TargetNet.model (tgt_net st)
       else TargetNet.target_model (tgt_net st)).
Proof.
  intros Hwf. unfold Train.bookkeeping.
  destruct (frame_idx st mod SYNC_TARGET_FRAMES =? 0)%Z.
  - rewrite (sync_wf _ Hwf). cbn [lift rbind].
    exists (TargetNet.mk (TargetNet.model (tgt_net st)) (TargetNet.model (tgt_net st))).
    split; [reflexivity|]. split; [|split; reflexivity].
    destruct Hwf as [Hnd Hss]. split; cbn [TargetNet.target_model TargetNet.model].
    + now rewrite <- (same_structure_keys _ _ Hss).
    + apply same_structure_refl.
  - cbn [rbind]. exists (tgt_net st). auto.
Qed.

Lemma play_phase_ok (d : Draws) (st : State) :
  wf_state st -> valid_draws d ->
  exists st1 action (done : bool),
    play_phase d st = inr st1 /\
    wf_state st1 /\
    select_action (Some (TargetNet.target_model (tgt_net st))) (epsilon st) d (world st)
    = inr action /\
    tgt_net st1 = tgt_net st /\ grads st1 = grads st /\
    epsilon st1 = epsilon st /\ frame_idx st1 = frame_idx st /\
    loss_v st1 = loss_v st /\
    Env.calls (env (world st1))
    = Env.calls (env (world st)) ++ Env.Step action :: (if done then [Env.Reset] else []).
Proof.
  intros [Hwf Htn] Hd.
  destruct (play_step_ok (Some (TargetNet.target_model (tgt_net st))) (epsilon st)
              d (world st) Hwf Hd)
    as (w1 & action & reward & done & a & Hstep & Hwf1 & Hsel & _ & _ & _ & _ & _
        & Hcalls & _).
  { right; discriminate. }
  unfold Train.play_phase. rewrite Hstep. cbn [rbind].
  eexists _, action, done. split; [reflexivity|].
  cbn [world tgt_net grads epsilon frame_idx loss_v].
  split; [split; assumption|]. auto 10.
Qed.

(** One iteration from a well-formed state: what it does to the
    environment, the gradient, the two networks and the counters. *)
Lemma learning_iter_ok (d : Draws) (st : State) :
  wf_state st -> valid_draws d ->
  exists st' action (done : bool),
    learning_iter d st = inr st' /\
    wf_state st' /\
    Env.calls (env (world st'))
    = Env.calls (env (world st)) ++ Env.Step action :: (if done then [Env.Reset] else []) /\
    ((BATCH_SIZE <= Z.of_nat (ExperienceBuffer.len (exp_buffer (world st'))))%Z ->
     exists batch_v loss,
       length batch_v = 32 /\
       Loss.calc_loss (forward (net st)) batch_v = Some loss /\
       grads st' = Some (autograd (net st) batch_v) /\
       loss_v st' = Some loss) /\
    net st' = net st /\
    TargetNet.target_model (tgt_net st')
    = (if (frame_idx st mod SYNC_TARGET_FRAMES =? 0)%Z
       then net st
       else TargetNet.target_model (tgt_net st)) /\
    frame_idx st' = (frame_idx st + 1)%Z /\
    epsilon st' = epsilon_of (frame_idx st).
Proof.
  intros Hwf Hd.
  destruct (play_phase_ok d st Hwf Hd)
    as (st1 & action & done & Hplay & Hwf1 & _ & Htn1 & _ & _ & Hidx1 & _ & Hcalls).
  destruct (learn_phase_ok d st1 Hwf1 Hd)
    as (st2 & Hlearn & Hw2 & Htn2 & _ & Hidx2 & _ & Hbatch & _).
  assert (Hwf2 : wf_state st2).
  { destruct Hwf1 as [Hw Ht]. split; [rewrite Hw2 | rewrite Htn2]; assumption. }
  destruct (bookkeeping_ok st2 (proj2 Hwf2)) as (tn & Hbook & Hwftn & Hm & Ht).
  unfold Train.learning_iter. rewrite Hplay. cbn [rbind].
  rewrite Hlearn. cbn [rbind]. rewrite Hbook.
  eexists _, action, done. split; [reflexivity|].
  cbn [world tgt_net grads epsilon frame_idx loss_v].
  assert (Hnet : net st2 = net st).
  { unfold Train.net. now rewrite Htn2, Htn1. }
  split; [split; [exact (proj1 Hwf2) | exact Hwftn]|].
  split; [rewrite Hw2; exact Hcalls|].
  split.
  { rewrite Hw2. intros Hle. destruct (Hbatch Hle)
      as (batch & batch_v & loss & _ & _ & Hlen & Hloss & Hg & Hl).
    assert (Hnet1 : net st1 = net st) by (unfold Train.net; now rewrite Htn1).
    rewrite Hnet1 in *. exists batch_v, loss. auto. }
  split; [unfold Train.net; cbn [tgt_net]; rewrite Hm; exact Hnet|].
  split.
  { rewrite Ht, Hidx2, Hidx1, Htn2, Htn1. reflexivity. }
  split; [now rewrite Hidx2, Hidx1 | now rewrite Hidx2, Hidx1].
Qed.

Lemma learning_iter_runs (d : Draws) (st : State) :
  wf_state st -> valid_draws d ->
  exists st',
    learning_iter d st = inr st' /\ wf_state st' /\
    net st' = net st /\ frame_idx st' = (frame_idx st + 1)%Z.
Proof.
  intros Hwf Hd.
  destruct (learning_iter_ok d st Hwf Hd)
    as (st' & _ & _ & Hiter & Hwf' & _ & _ & Hnet & _ & Hidx & _).
  exists st'. auto.
Qed.

(** However long the loop runs, the value network keeps its initial
    parameters. *)
Lemma learning_keeps_net (ds : list Draws) :
  forall st : State,
    wf_state st -> Forall valid_draws ds ->
    exists st',
      learning ds st = inr st' /\ wf_state st' /\
      net st' = net st /\
      frame_idx st' = (frame_idx st + Z.of_nat (length ds))%Z.
Proof.
  induction ds as [|d ds IH]; intros st Hwf Hds.
  - exists st. cbn [Train.learning length].
    split; [reflexivity|]. split; [exact Hwf|]. split; [reflexivity|]. lia.
  - inversion Hds as [|? ? Hd Hrest]; subst.
    destruct (learning_iter_runs d st Hwf Hd) as (st1 & Hiter & Hwf1 & Hnet1 & Hidx1).
    destruct (IH st1 Hwf1 Hrest) as (st2 & Hrun & Hwf2 & Hnet2 & Hidx2).
    exists st2. cbn [Train.learning]. rewrite Hiter. cbn [rbind].
    split; [exact Hrun|]. split; [exact Hwf2|].
    split; [congruence|]. rewrite Hidx2, Hidx1. cbn [length]. lia.
Qed.

Lemma main_init_ok (raw0 : RawEnv) (params0 : TargetNet.StateDict) :
  NoDup (TargetNet.keys params0) ->
  exists st0,
    main_init raw0 params0 = inr st0 /\
    wf_state st0 /\
    net st0 = params0 /\ frame_idx st0 = 0%Z /\ (epsilon st0 == 1)%Q.
Proof.
  intros Hnd. unfold Train.main_init, Train.agent_reset.
  destruct (env_reset_frame RawEnv raw_reset imresize chan imresize_shape
              (Env.make raw_low imresize raw0 4) [])
    as (e1 & out & Hreset & Hb & Hout & Hlow & _).
  { apply (make_low RawEnv raw_low imresize chan imresize_shape). }
  rewrite Hreset. cbn [lift rbind app length copy read nth_error bind alloc].
  eexists. split; [reflexivity|].
  cbn [world tgt_net frame_idx epsilon Train.net].
  split; [|split; [reflexivity|split; reflexivity]].
  split; [|apply init_wf; exact Hnd].
  split; [|split; [|split]]; cbn [world env heap agent_state exp_buffer].
  - split.
    + rewrite Hlow. apply (make_low RawEnv raw_low imresize chan imresize_shape).
    + exists 0, out. auto.
  - split; cbn [world env heap agent_state]; [simpl; lia|].
    rewrite Hb. discriminate.
  - discriminate.
  - constructor.
Qed.

(** C6.  The play phase passes the target network's parameters to
    [play_step], and what it does is the same whatever the value
    network's parameters are; the learning phase computes the loss and
    the gradient with the value network's parameters, and what it does
    is the same whatever the target network's parameters are. *)
Theorem networks_keep_their_roles (d : Draws) (st : State)
        (params : TargetNet.StateDict) :
  play_phase d (with_model st params)
  = rmap (fun s => with_model s params) (play_phase d st) /\
  learn_phase d (with_target st params)
  = rmap (fun s => with_target s params) (learn_phase d st) /\
  match play_phase d st with
  | inr st1 =>
      exists r,
        play_step (Some (TargetNet.target_model (tgt_net st))) (epsilon st) d (world st)
        = inr (world st1, r)
  | inl _ => True
  end /\
  match learn_phase d st with
  | inr st2 =>
      st2 = st \/
      exists batch_v,
        loss_v st2 = Loss.calc_loss (forward (TargetNet.model (tgt_net st))) batch_v /\
        grads st2 = Some (autograd (TargetNet.model (tgt_net st)) batch_v)
  | inl _ => True
  end.
Proof.
  split; [|split; [|split]].
  - unfold Train.play_phase, with_model. cbn [tgt_net TargetNet.target_model epsilon world].
    destruct (play_step _ _ d (world st)) as [e|[w1 reward]]; reflexivity.
  - unfold Train.learn_phase, with_target, Train.net.
    cbn [tgt_net TargetNet.model world].
    destruct (BATCH_SIZE <=? _)%Z; [|reflexivity].
    destruct (ExperienceBuffer.sample _ _ _) as [batch|]; [|reflexivity].
    cbn [lift rbind].
    destruct (mapM _ batch) as [batch_v|]; [|reflexivity].
    cbn [lift rbind].
    destruct (Loss.calc_loss _ batch_v) as [loss|]; reflexivity.
  - unfold Train.play_phase.
    destruct (play_step _ _ d (world st)) as [e|[w1 reward]]; cbn [rbind]; [exact I|].
    eexists. reflexivity.
  - unfold Train.learn_phase, Train.net.
    destruct (BATCH_SIZE <=? _)%Z; [|now left].
    destruct (ExperienceBuffer.sample _ _ _) as [batch|]; [|exact I].
    cbn [lift rbind].
    destruct (mapM _ batch) as [batch_v|]; [|exact I].
    cbn [lift rbind].
    destruct (Loss.calc_loss _ batch_v) as [loss|] eqn:Hloss; [|exact I].
    cbn [lift rbind]. right. exists batch_v. cbn [loss_v grads]. auto.
Qed.

(** C1, as the code has it.  After any number of iterations of the
    learning loop from a well-formed state, the next iteration returns;
    it steps the environment exactly once (and resets it when the
    episode ended); when the buffer holds at least [BATCH_SIZE]
    transitions it samples one batch of that size and leaves the
    gradient of the value network's loss on it in [grads]; it syncs the
    target network exactly when [frame_idx] is a multiple of
    [SYNC_TARGET_FRAMES]; and the value network's parameters after it are
    still the ones the loop started with: the gradient is computed and
    never applied. *)
Theorem learning_iter_never_updates_net (ds : list Draws) (d : Draws) (st : State) :
  wf_state st -> Forall valid_draws ds -> valid_draws d ->
  exists st_n st' action (done : bool),
    learning ds st = inr st_n /\
    frame_idx st_n = (frame_idx st + Z.of_nat (length ds))%Z /\
    learning_iter d st_n = inr st' /\
    Env.calls (env (world st'))
    = Env.calls (env (world st_n)) ++ Env.Step action :: (if done then [Env.Reset] else []) /\
    ((BATCH_SIZE <= Z.of_nat (ExperienceBuffer.len (exp_buffer (world st'))))%Z ->
     exists batch_v loss,
       length batch_v = 32 /\
       Loss.calc_loss (forward (net st_n)) batch_v = Some loss /\
       grads st' = Some (autograd (net st_n) batch_v) /\
       loss_v st' = Some loss) /\
    net st_n = net st /\
    net st' = net st /\
    TargetNet.target_model (tgt_net st')
    = (if (frame_idx st_n mod SYNC_TARGET_FRAMES =? 0)%Z
       then net st
       else TargetNet.target_model (tgt_net st_n)) /\
    frame_idx st' = (frame_idx st_n + 1)%Z.
Proof.
  intros Hwf Hds Hd.
  destruct (learning_keeps_net ds st Hwf Hds) as (st_n & Hrun & Hwf_n & Hnet_n & Hidx_n).
  destruct (learning_iter_ok d st_n Hwf_n Hd)
    as (st' & action & done & Hiter & _ & Hcalls & Hgrad & Hnet' & Htgt & Hidx' & _).
  exists st_n, st', action, done.
  split; [exact Hrun|]. split; [exact Hidx_n|]. split; [exact Hiter|].
  split; [exact Hcalls|]. split; [exact Hgrad|]. split; [exact Hnet_n|].
  split; [congruence|]. split; [|exact Hidx'].
  rewrite Htgt, Hnet_n. reflexivity.
Qed.

Lemma append_len (cap : Z) (q : list (Experience.t addr)) :
  (Z.of_nat (length q) <= cap)%Z ->
  skipn (length q - Z.to_nat cap) q = q.
Proof. intros H. replace (length q - Z.to_nat cap) with 0 by lia. reflexivity. Qed.

(** While the buffer has room, every [play_step] adds one transition. *)
Lemma play_steps_fill (steps : list (option TargetNet.StateDict * Q * Draws)) :
  forall w : World,
    wf_world w -> Forall can_act steps ->
    (Z.of_nat (ExperienceBuffer.len (exp_buffer w) + length steps)
     <= ExperienceBuffer.capacity (exp_buffer w))%Z ->
    exists w',
      play_steps steps w = inr w' /\ wf_world w' /\
      ExperienceBuffer.len (exp_buffer w')
      = ExperienceBuffer.len (exp_buffer w) + length steps /\
      ExperienceBuffer.capacity (exp_buffer w')
      = ExperienceBuffer.capacity (exp_buffer w).
Proof.
  induction steps as [|[[net eps] d] steps IH]; intros w Hwf Hsteps Hroom.
  - exists w. cbn [Train.play_steps length]. auto.
  - inversion Hsteps as [|? ? Hcan Hrest]; subst.
    unfold Train.can_act in Hcan. destruct Hcan as [Hd Hpol].
    destruct (play_step_ok net eps d w Hwf Hd Hpol)
      as (w1 & action & reward & done & a & Hstep & Hwf1 & _ & _ & _ & _ & Hbuf & _).
    cbn [length] in Hroom. unfold ExperienceBuffer.len in *.
    rewrite append_len in Hbuf by (rewrite length_app; simpl length; lia).
    assert (Hlen1 : length (ExperienceBuffer.buffer (exp_buffer w1))
                    = S (length (ExperienceBuffer.buffer (exp_buffer w)))).
    { rewrite Hbuf. cbn [ExperienceBuffer.buffer]. rewrite length_app. simpl. lia. }
    assert (Hcap1 : ExperienceBuffer.capacity (exp_buffer w1)
                    = ExperienceBuffer.capacity (exp_buffer w)).
    { rewrite Hbuf. reflexivity. }
    destruct (IH w1 Hwf1 Hrest) as (w2 & Hrun & Hwf2 & Hlen2 & Hcap2).
    { rewrite Hlen1, Hcap1. lia. }
    exists w2. cbn [Train.play_steps]. rewrite Hstep. cbn [rbind fst].
    split; [exact Hrun|]. split; [exact Hwf2|].
    split; [rewrite Hlen2, Hlen1; cbn [length]; lia | congruence].
Qed.

(** The script up to the learning loop: the warm-up leaves exactly
    [REPLAY_START_SIZE] transitions in the buffer, so the first learning
    iteration already has a batch to sample. *)
Lemma warmup_fills_buffer (raw0 : RawEnv) (params0 : TargetNet.StateDict)
      (ds : nat -> Draws) :
  NoDup (TargetNet.keys params0) ->
  (forall i, valid_draws (ds i)) ->
  exists st0 st1,
    main_init raw0 params0 = inr st0 /\
    warmup ds st0 = inr st1 /\
    wf_state st1 /\
    ExperienceBuffer.len (exp_buffer (world st1)) = REPLAY_START_SIZE /\
    ExperienceBuffer.capacity (exp_buffer (world st1)) = REPLAY_SIZE /\
    net st1 = params0 /\ frame_idx st1 = 0%Z.
Proof.
  intros Hnd Hds. unfold Train.warmup.
  assert (Hinit : exists st0,
             main_init raw0 params0 = inr st0 /\ wf_state st0 /\
             net st0 = params0 /\ frame_idx st0 = 0%Z /\
             exp_buffer (world st0)
             = ExperienceBuffer.init (Experience.t addr) REPLAY_SIZE).
  { destruct (main_init_ok raw0 params0 Hnd) as (st0 & Hinit & Hwf & Hnet & Hidx & _).
    exists st0. repeat (split; [assumption|]).
    unfold Train.main_init in Hinit.
    destruct (Train.agent_reset _ _ _ _) as [e|[[e1 h1] s]]; [discriminate|].
    cbn [rbind] in Hinit. inversion Hinit. reflexivity. }
  destruct Hinit as (st0 & Hinit & [Hwf Htn] & Hnet & Hidx & Hbuf).
  destruct (play_steps_fill
              (map (fun i => (None, 1%Q, ds i)) (seq 0 REPLAY_START_SIZE))
              (world st0) Hwf) as (w1 & Hrun & Hwf1 & Hlen & Hcap).
  { apply Forall_forall. intros s Hs. apply in_map_iff in Hs.
    destruct Hs as (i & <- & _). split; [apply Hds|].
    left. apply Qltb_lt. now destruct (Hds i) as (_ & Hu & _). }
  { rewrite Hbuf, length_map, length_seq. vm_compute. discriminate. }
  rewrite Hbuf, length_map, length_seq in Hlen.
  change (ExperienceBuffer.len (ExperienceBuffer.init (Experience.t addr) REPLAY_SIZE))
    with 0 in Hlen.
  rewrite Nat.add_0_l in Hlen.
  exists st0, (set_world st0 w1). split; [exact Hinit|].
  rewrite Hrun. cbn [rbind]. split; [reflexivity|].
  cbn [set_world world tgt_net frame_idx Train.net].
  split; [split; assumption|]. split; [exact Hlen|].
  split; [rewrite Hcap, Hbuf; reflexivity|].
  split; [exact Hnet | exact Hidx].
Qed.

Lemma play_phase_grows (d : Draws) (st st1 : State) :
  wf_state st -> valid_draws d ->
  play_phase d st = inr st1 ->
  (Z.of_nat (ExperienceBuffer.len (exp_buffer (world st)))
   < ExperienceBuffer.capacity (exp_buffer (world st)))%Z ->
  ExperienceBuffer.len (exp_buffer (world st1))
  = S (ExperienceBuffer.len (exp_buffer (world st))).
Proof.
  intros [Hwf _] Hd Hplay Hroom.
  destruct (play_step_ok (Some (TargetNet.target_model (tgt_net st))) (epsilon st)
              d (world st) Hwf Hd)
    as (w1 & action & reward & done & a & Hstep & _ & _ & _ & _ & _ & Hbuf & _).
  { right; discriminate. }
  unfold Train.play_phase in Hplay. rewrite Hstep in Hplay. cbn [rbind] in Hplay.
  inversion Hplay; subst st1. cbn [world].
  unfold ExperienceBuffer.len in *.
  rewrite append_len in Hbuf by (rewrite length_app; simpl length; lia).
  rewrite Hbuf. cbn [ExperienceBuffer.buffer]. rewrite length_app. simpl. lia.
Qed.

(** The first iteration of the learning loop as the script reaches it:
    5000 transitions are in the buffer, a batch of 32 is sampled, its
    loss and gradient are computed with the initial parameters, and the
    value network still holds the initial parameters afterwards. *)
Lemma first_learning_iteration (raw0 : RawEnv) (params0 : TargetNet.StateDict)
      (ds : nat -> Draws) (d : Draws) :
  NoDup (TargetNet.keys params0) ->
  (forall i, valid_draws (ds i)) -> valid_draws d ->
  exists st0 st1 st2 batch_v loss,
    main_init raw0 params0 = inr st0 /\
    warmup ds st0 = inr st1 /\
    learning_iter d st1 = inr st2 /\
    length batch_v = 32 /\
    Loss.calc_loss (forward params0) batch_v = Some loss /\
    grads st2 = Some (autograd params0 batch_v) /\
    loss_v st2 = Some loss /\
    net st2 = params0 /\
    TargetNet.target_model (tgt_net st2) = params0 /\
    frame_idx st2 = 1%Z.
Proof.
  intros Hnd Hds Hd.
  destruct (warmup_fills_buffer raw0 params0 ds Hnd Hds)
    as (st0 & st1 & Hinit & Hwarm & Hwf1 & Hlen1 & Hcap1 & Hnet1 & Hidx1).
  destruct (learning_iter_ok d st1 Hwf1 Hd)
    as (st2 & action & done & Hiter & _ & _ & Hgrad & Hnet2 & Htgt & Hidx2 & _).
  destruct Hgrad as (batch_v & loss & Hlen & Hloss & Hg & Hl).
  { unfold Train.learning_iter in Hiter.
    destruct (play_phase d st1) as [e|st1'] eqn:Hplay; [discriminate|].
    cbn [rbind] in Hiter.
    destruct (learn_phase_ok d st1') as (st1'' & Hlearn & Hw & _).
    { destruct (play_phase_ok d st1 Hwf1 Hd) as (x & _ & _ & Hx & Hwfx & _).
      rewrite Hplay in Hx. inversion Hx; subst x. exact Hwfx. }
    { exact Hd. }
    rewrite Hlearn in Hiter. cbn [rbind] in Hiter.
    unfold Train.bookkeeping in Hiter.
    destruct (if (frame_idx st1'' mod SYNC_TARGET_FRAMES =? 0)%Z
              then lift SyncError (TargetNet.sync (tgt_net st1''))
              else inr (tgt_net st1'')) as [e|tn]; [discriminate|].
    cbn [rbind] in Hiter. inversion Hiter; subst st2. cbn [world].
    rewrite Hw.
    assert (Hroom : (Z.of_nat (ExperienceBuffer.len (exp_buffer (world st1)))
                     < ExperienceBuffer.capacity (exp_buffer (world st1)))%Z).
    { rewrite Hcap1, Hlen1. vm_compute. reflexivity. }
    rewrite (play_phase_grows d st1 st1' Hwf1 Hd Hplay Hroom), Hlen1.
    vm_compute. discriminate. }
  exists st0, st1, st2, batch_v, loss.
  rewrite Hnet1 in *. rewrite Hidx1 in *.
  split; [exact Hinit|]. split; [exact Hwarm|]. split; [exact Hiter|].
  split; [exact Hlen|]. split; [exact Hloss|]. split; [exact Hg|].
  split; [exact Hl|]. split; [exact Hnet2|]. split; [exact Htgt | exact Hidx2].
Qed.
End TrainFacts.

(** ** The toy instance satisfies the assumptions *)

Lemma toy_forward_width (params : TargetNet.StateDict) (obs : Array3) :
  Z.of_nat (length (Instances.toy_forward params obs)) = 6%Z.
Proof. reflexivity. Qed.

Lemma toy_draws_valid (i : nat) : Train.valid_draws 6 (Instances.toy_draws i).
Proof.
  unfold Train.valid_draws, Instances.toy_draws; cbn [Train.u Train.rand_action Train.permutation].
  split; [discriminate|]. split; [reflexivity|]. split.
  - pose proof (Nat.mod_upper_bound i 6). lia.
  - intros n. apply Permutation_refl.
Qed.

Lemma toy_params_keys : NoDup (TargetNet.keys Instances.toy_params).
Proof. simpl. repeat constructor; simpl; intuition discriminate. Qed.

Lemma toy_start_wf :
  Train.main_init Instances.toy_raw_reset Instances.toy_raw_low Instances.toy_imresize
                  Q 0 Instances.toy_params
  = inr Instances.toy_start /\
  Train.wf_state 6 Instances.toy_start.
Proof.
  destruct (main_init_ok nat Instances.toy_raw_reset Instances.toy_raw_low
              Instances.toy_imresize Q 6 3 toy_imresize_shape 0
              Instances.toy_params toy_params_keys) as (st0 & Hinit & Hwf & _).
  unfold Instances.toy_start. rewrite Hinit. auto.
Qed.

Lemma warmup_never_calls_net_witness :
  Train.wf_world 6 (Train.world Instances.toy_start) /\
  (forall i, Train.valid_draws 6 (Instances.toy_draws i)) /\
  exists st',
    Train.warmup Instances.toy_raw_reset Instances.toy_raw_step Instances.toy_imresize
                 Instances.toy_forward Instances.toy_draws Instances.toy_start
    = inr st' /\
    Train.wf_world 6 (Train.world st').
Proof.
  pose proof (proj1 (proj2 toy_start_wf)) as Hwf.
  split; [exact Hwf|]. split; [exact toy_draws_valid|].
  exact (proj2 (warmup_never_calls_net
                  nat Instances.toy_raw_reset Instances.toy_raw_step
                  Instances.toy_imresize Instances.toy_forward Q 6 3
                  toy_imresize_shape toy_raw_step_ok toy_forward_width eq_refl
                  Instances.toy_draws Instances.toy_start Hwf toy_draws_valid)).
Defined.

Lemma learning_iter_never_updates_net_witness :
  let ds := [Instances.toy_draws 0; Instances.toy_draws 1] in
  Train.wf_state 6 Instances.toy_start /\
  Forall (Train.valid_draws 6) ds /\
  Train.valid_draws 6 (Instances.toy_draws 2) /\
  exists st_n st',
    Train.learning Instances.toy_raw_reset Instances.toy_raw_step
                   Instances.toy_imresize Instances.toy_forward
                   Instances.toy_autograd ds Instances.toy_start
    = inr st_n /\
    Train.learning_iter Instances.toy_raw_reset Instances.toy_raw_step
                        Instances.toy_imresize Instances.toy_forward
                        Instances.toy_autograd (Instances.toy_draws 2) st_n
    = inr st' /\
    Train.net st' = Train.net Instances.toy_start.
Proof.
  intros ds.
  pose proof (proj2 toy_start_wf) as Hwf.
  assert (Hds : Forall (Train.valid_draws 6) ds).
  { repeat constructor; apply toy_draws_valid. }
  split; [exact Hwf|]. split; [exact Hds|]. split; [exact (toy_draws_valid 2)|].
  destruct (learning_iter_never_updates_net
              nat Instances.toy_raw_reset Instances.toy_raw_step
              Instances.toy_imresize Instances.toy_forward Q Instances.toy_autograd 6 3
              toy_imresize_shape toy_raw_step_ok toy_forward_width eq_refl
              ds (Instances.toy_draws 2) Instances.toy_start Hwf Hds (toy_draws_valid 2))
    as (st_n & st' & _ & _ & Hrun & _ & Hiter & _ & _ & _ & Hnet & _).
  exists st_n, st'. split; [exact Hrun|]. split; [exact Hiter | exact Hnet].
Defined.

Lemma stored_observations_frozen_witness :
  let later := [ (None, 1%Q, Instances.toy_draws 1);
                 (Some Instances.toy_params, 0%Q, Instances.toy_draws 2) ] in
  Train.wf_world 6 (Train.world Instances.toy_start) /\
  Train.can_act 6 (None, 1%Q, Instances.toy_draws 0) /\
  Forall (Train.can_act 6) later /\
  exists w1 r w2,
    Train.play_step Instances.toy_raw_reset Instances.toy_raw_step
                    Instances.toy_imresize Instances.toy_forward
                    None 1%Q (Instances.toy_draws 0) (Train.world Instances.toy_start)
    = inr (w1, r) /\
    Train.play_steps Instances.toy_raw_reset Instances.toy_raw_step
                     Instances.toy_imresize Instances.toy_forward later w1
    = inr w2 /\
    forall exp',
      In exp' (ExperienceBuffer.buffer (Train.exp_buffer w1)) ->
      read (Train.heap w2) (Experience.state exp')
      = read (Train.heap w1) (Experience.state exp') /\
      read (Train.heap w2) (Experience.new_state exp')
      = read (Train.heap w1) (Experience.new_state exp').
Proof.
  intros later.
  pose proof (proj1 (proj2 toy_start_wf)) as Hwf.
  assert (H0 : Train.can_act 6 (None, 1%Q, Instances.toy_draws 0)).
  { split; [apply toy_draws_valid | left; reflexivity]. }
  assert (Hlater : Forall (Train.can_act 6) later).
  { constructor; [|constructor; [|constructor]].
    - split; [apply toy_draws_valid | left; reflexivity].
    - split; [apply toy_draws_valid | right; discriminate]. }
  split; [exact Hwf|]. split; [exact H0|]. split; [exact Hlater|].
  destruct (proj2 (stored_observations_frozen
                     nat Instances.toy_raw_reset Instances.toy_raw_step
                     Instances.toy_imresize Instances.toy_forward 6 3
                     toy_imresize_shape toy_raw_step_ok toy_forward_width eq_refl
                     None 1%Q (Instances.toy_draws 0)
                     (Train.world Instances.toy_start) later Hwf H0 Hlater))
    as (w1 & r & w2 & exp & a & Hstep & _ & _ & _ & _ & _ & _ & Hrun & Hframe).
  exists w1, r, w2. split; [exact Hstep|]. split; [exact Hrun | exact Hframe].
Defined.

(** The toy run, evaluated: the simulator is stepped once per call and
    reset after the third step; the stacker's first buffer (reference 0)
    has been rewritten by every step of the first episode, while the
    copies stored in the experiences (references 1 to 4, 6 and 7) still
    show the frame that was newest when each was taken. *)
Example toy_four_steps_trace :
  match Instances.toy_four_steps with
  | inr w =>
      Env.calls (Train.env w)
      = [Env.Reset; Env.Step 0; Env.Step 0; Env.Step 2; Env.Reset; Env.Step 3] /\
      map (fun e => (Experience.state e, Experience.action e,
                     Experience.done e, Experience.new_state e))
          (ExperienceBuffer.buffer (Train.exp_buffer w))
      = [(1, 0%Z, false, 2); (2, 0%Z, false, 3); (3, 2%Z, true, 4); (6, 3%Z, false, 7)] /\
      Env.buffer (Train.env w) = Some 5 /\
      map Instances.newest_pixel (Train.heap w)
      = [9 # 765; 0 # 765; 3 # 765; 6 # 765; 9 # 765; 3 # 765; 0 # 765; 3 # 765]%Q
  | inl _ => False
  end.
Proof. vm_compute. repeat split. Qed.

(** * Further properties of the script *)

(** ** Replay buffer: one append, and sampling everything *)

Section BufferSteps.
Variable A : Type.
Import ExperienceBuffer.

Lemma evict_negative (cap : Z) (q : list A) :
  (cap < 0)%Z -> evict cap q = None.
Proof.
  intros Hcap. induction q as [|x q IH]; cbn [evict].
  - destruct (Z.ltb_spec cap 0); [reflexivity | lia].
  - destruct (Z.ltb_spec cap (Z.of_nat (length (x :: q)))); [exact IH | lia].
Qed.

(** X1.  On a buffer that respects its capacity [C >= 1], [append] adds
    the transition at the newest end; while there is room nothing is
    dropped, and on a full buffer exactly the oldest entry is dropped. *)
Theorem append_fifo_step (b : t A) (x : A) :
  (1 <= capacity b)%Z ->
  (Z.of_nat (len b) <= capacity b)%Z ->
  ((Z.of_nat (len b) < capacity b)%Z ->
   append b x = Some (mk (capacity b) (buffer b ++ [x]))) /\
  (Z.of_nat (len b) = capacity b ->
   append b x = Some (mk (capacity b) (tl (buffer b) ++ [x]))).
Proof.
  intros Hcap Hfit. unfold len in *.
  rewrite append_skipn by lia. rewrite length_app. simpl length. split.
  - intros Hroom.
    replace (length (buffer b) + 1 - Z.to_nat (capacity b)) with 0 by lia.
    reflexivity.
  - intros Hfull.
    replace (length (buffer b) + 1 - Z.to_nat (capacity b)) with 1 by lia.
    destruct (buffer b) as [|y q]; simpl in *; [lia | reflexivity].
Qed.

(** X2.  A buffer created with capacity 0 stays empty: every append
    succeeds and drops the transition at once.  A buffer created with a
    negative capacity cannot be appended to: the eviction loop empties
    the deque and then pops from the empty deque. *)
Theorem append_without_room (b : t A) (x : A) :
  (capacity b <= 0)%Z ->
  append b x = (if (capacity b <? 0)%Z then None else Some (mk (capacity b) [])).
Proof.
  intros Hcap. destruct (Z.ltb_spec (capacity b) 0) as [Hneg|Hzero].
  - unfold append. now rewrite evict_negative.
  - rewrite append_skipn by lia.
    replace (Z.to_nat (capacity b)) with 0 by lia.
    now rewrite Nat.sub_0_r, skipn_all.
Qed.

Lemma reads_permuted (l : list A) (idx idx' : list nat) :
  Permutation idx idx' ->
  forall out,
    Forall2 (fun i x => nth_error l i = Some x) idx out ->
    exists out',
      Forall2 (fun i x => nth_error l i = Some x) idx' out' /\
      Permutation out out'.
Proof.
  induction 1 as [|i idx idx' Hp IH|i j idx|idx1 idx2 idx3 H12 IH12 H23 IH23];
    intros out HF.
  - inversion HF; subst. exists []. split; constructor.
  - inversion HF as [|? x ? out0 Hx HF0]; subst.
    destruct (IH out0 HF0) as (out' & HF' & Hperm).
    exists (x :: out'). split; constructor; assumption.
  - inversion HF as [|? x ? out0 Hx HF0]; subst.
    inversion HF0 as [|? y ? out1 Hy HF1]; subst.
    exists (y :: x :: out1). split; [|apply perm_swap].
    constructor; [exact Hy|]. constructor; assumption.
  - destruct (IH12 out HF) as (out2 & HF2 & Hp2).
    destruct (IH23 out2 HF2) as (out3 & HF3 & Hp3).
    exists out3. split; [exact HF3 | eapply perm_trans; eauto].
Qed.

Lemma reads_in_order (l pre out : list A) :
  Forall2 (fun i x => nth_error (pre ++ l) i = Some x)
          (seq (length pre) (length l)) out ->
  out = l.
Proof.
  revert pre out. induction l as [|x l IH]; intros pre out HF.
  - inversion HF. reflexivity.
  - cbn [length seq] in HF. inversion HF as [|? y ? out0 Hy HF0]; subst.
    rewrite nth_error_app_mid in Hy. inversion Hy; subst y.
    f_equal. apply (IH (pre ++ [x])).
    rewrite <- app_assoc, length_app. simpl. rewrite Nat.add_1_r. exact HF0.
Qed.

(** X3.  Sampling as many transitions as the buffer holds returns all of
    them, each once, in the order the generator drew: a permutation of
    the buffer's contents. *)
Theorem sample_whole_buffer (b : t A) (perm : list nat) :
  Permutation perm (seq 0 (len b)) ->
  exists out,
    sample b perm (Z.of_nat (len b)) = Some out /\
    Permutation out (buffer b).
Proof.
  intros Hperm.
  destruct (sample_reads A b perm (len b) Hperm (Nat.le_refl _))
    as (out & Hout & _ & _ & HF).
  exists out. split; [exact Hout|].
  assert (Hall : firstn (len b) perm = perm).
  { apply firstn_all2. rewrite (Permutation_length Hperm), length_seq. lia. }
  rewrite Hall in HF.
  destruct (reads_permuted (buffer b) perm (seq 0 (len b)) Hperm out HF)
    as (out' & HF' & Hp).
  rewrite (reads_in_order (buffer b) [] out' HF') in Hp. exact Hp.
Qed.

End BufferSteps.

Lemma append_fifo_step_witness :
  let b := ExperienceBuffer.mk 3 [11; 12; 13] in
  (1 <= ExperienceBuffer.capacity b)%Z /\
  (Z.of_nat (ExperienceBuffer.len b) <= ExperienceBuffer.capacity b)%Z /\
  (Z.of_nat (ExperienceBuffer.len b) = ExperienceBuffer.capacity b ->
   ExperienceBuffer.append b 14
   = Some (ExperienceBuffer.mk 3 (tl [11; 12; 13] ++ [14]))).
Proof.
  intros b.
  assert (H1 : (1 <= ExperienceBuffer.capacity b)%Z) by (simpl; lia).
  assert (H2 : (Z.of_nat (ExperienceBuffer.len b) <= ExperienceBuffer.capacity b)%Z)
    by (unfold ExperienceBuffer.len; simpl; lia).
  split; [exact H1|]. split; [exact H2|].
  exact (proj2 (append_fifo_step nat b 14 H1 H2)).
Defined.

Lemma append_without_room_witness :
  (ExperienceBuffer.capacity (ExperienceBuffer.init nat (-1)) <= 0)%Z /\
  ExperienceBuffer.append (ExperienceBuffer.init nat (-1)) 7 = None /\
  ExperienceBuffer.append (ExperienceBuffer.init nat 0) 7
  = Some (ExperienceBuffer.init nat 0).
Proof.
  split; [simpl; lia|]. split.
  - apply (append_without_room nat (ExperienceBuffer.init nat (-1)) 7). simpl; lia.
  - apply (append_without_room nat (ExperienceBuffer.init nat 0) 7). simpl; lia.
Defined.

Lemma sample_whole_buffer_witness :
  let b := ExperienceBuffer.mk 3 [11; 12; 13] in
  Permutation [0; 1; 2] (seq 0 (ExperienceBuffer.len b)) /\
  exists out,
    ExperienceBuffer.sample b [0; 1; 2] (Z.of_nat (ExperienceBuffer.len b)) = Some out /\
    Permutation out (ExperienceBuffer.buffer b).
Proof.
  intros b.
  assert (Hperm : Permutation [0; 1; 2] (seq 0 (ExperienceBuffer.len b)))
    by apply Permutation_refl.
  split; [exact Hperm | exact (sample_whole_buffer nat b [0; 1; 2] Hperm)].
Defined.

(** ** Loss computation: sign, zero, batch order and failures *)

Lemma Qsum_nonneg (l : list Q) :
  Forall (fun x => 0 <= x)%Q l -> (0 <= Qsum l)%Q.
Proof.
  induction 1 as [|x l Hx _ IH]; simpl; [apply Qle_refl|].
  replace 0%Q with (0 + 0)%Q by reflexivity. now apply Qplus_le_compat.
Qed.


Lemma Qsum_permutation (l l' : list Q) :
  Permutation l l' -> (Qsum l == Qsum l')%Q.
Proof.
  induction 1 as [|x l l' _ IH|x y l|l1 l2 l3 _ IH12 _ IH23]; simpl.
  - reflexivity.
  - now rewrite IH.
  - ring.
  - now rewrite IH12.
Qed.

Lemma Qsquare_nonneg (x : Q) : (0 <= x * x)%Q.
Proof.
  destruct (Qlt_le_dec x 0) as [Hneg|Hpos].
  - setoid_replace (x * x)%Q with ((- x) * (- x))%Q by ring.
    apply Qmult_le_0_compat; apply (Qopp_le_compat x 0); now apply Qlt_le_weak.
  - now apply Qmult_le_0_compat.
Qed.


Lemma sq_diff_row_nonneg (a b : list Q) : (0 <= Loss.sq_diff_row a b)%Q.
Proof.
  unfold Loss.sq_diff_row. apply Qsum_nonneg.
  apply Forall_forall. intros x Hx. apply in_map_iff in Hx.
  destruct Hx as (xy & <- & _). apply Qsquare_nonneg.
Qed.

Lemma sq_diff_nonneg (a b : list (list Q)) : (0 <= Loss.sq_diff a b)%Q.
Proof.
  unfold Loss.sq_diff. apply Qsum_nonneg.
  apply Forall_forall. intros x Hx. apply in_map_iff in Hx.
  destruct Hx as (rs & <- & _). apply sq_diff_row_nonneg.
Qed.



Section LossMore.
Variable S : Type.
Variable net : S -> list Q.
Import Loss.

(** X4.  Whatever the network and the batch, a loss that [calc_loss]
    returns is never negative. *)
Theorem calc_loss_nonneg (batch : list (Experience.t S)) (L : Q) :
  calc_loss net batch = Some L -> (0 <= L)%Q.
Proof.
  unfold calc_loss.
  destruct (fill_targets (enumerate batch) _ _) as [y|]; cbn [bind]; [|discriminate].
  unfold MSELoss.
  destruct (Nat.eqb_spec (numel (map net (map (@Experience.state S) batch))) 0)
    as [H0|H0]; [discriminate|].
  intros H; inversion H; subst L.
  apply Qle_shift_div_l.
  - change 0%Q with (inject_Z 0). rewrite <- Zlt_Qlt. lia.
  - rewrite Qmult_0_l. apply sq_diff_nonneg.
Qed.

Variable n : nat.
Hypothesis net_width : forall s, length (net s) = n.
Hypothesis n_pos : 0 < n.

Let returns := calc_loss_returns S net n net_width n_pos.



(** X6.  The loss does not depend on the order of the transitions in
    the batch. *)
Theorem calc_loss_batch_order (batch batch' : list (Experience.t S)) :
  Permutation batch batch' ->
  batch <> [] ->
  Forall (valid_action n) batch ->
  exists L L',
    calc_loss net batch = Some L /\
    calc_loss net batch' = Some L' /\
    (L == L')%Q.
Proof.
  intros Hperm Hne Hvalid.
  assert (Hne' : batch' <> []).
  { intros ->. apply Permutation_sym, Permutation_nil in Hperm. congruence. }
  assert (Hvalid' : Forall (valid_action n) batch').
  { apply Forall_forall. intros e He. rewrite Forall_forall in Hvalid.
    apply Hvalid. eapply Permutation_in; [apply Permutation_sym|]; eauto. }
  destruct (returns batch Hne Hvalid) as (L & HL & Hsum).
  destruct (returns batch' Hne' Hvalid') as (L' & HL' & Hsum').
  exists L, L'. split; [exact HL|]. split; [exact HL'|].
  rewrite Hsum, Hsum', (Permutation_length Hperm).
  now rewrite (Qsum_permutation _ _ (Permutation_map (sq_err net) Hperm)).
Qed.





End LossMore.

Lemma calc_loss_nonneg_witness :
  exists L,
    Loss.calc_loss Instances.tiny_net Instances.tiny_batch = Some L /\ (0 <= L)%Q.
Proof.
  eexists. split; [reflexivity|].
  apply (calc_loss_nonneg nat Instances.tiny_net Instances.tiny_batch). reflexivity.
Defined.


Lemma calc_loss_batch_order_witness :
  Permutation Instances.tiny_batch (rev Instances.tiny_batch) /\
  exists L L',
    Loss.calc_loss Instances.tiny_net Instances.tiny_batch = Some L /\
    Loss.calc_loss Instances.tiny_net (rev Instances.tiny_batch) = Some L' /\
    (L == L')%Q.
Proof.
  assert (Hperm : Permutation Instances.tiny_batch (rev Instances.tiny_batch))
    by apply Permutation_rev.
  assert (Hne : Instances.tiny_batch <> []) by discriminate.
  assert (Hv : Forall (@Loss.valid_action nat 2) Instances.tiny_batch).
  { repeat constructor; unfold Loss.valid_action; simpl; lia. }
  split; [exact Hperm|].
  exact (calc_loss_batch_order nat Instances.tiny_net 2 (fun s => eq_refl)
           (Nat.lt_0_succ 1) Instances.tiny_batch (rev Instances.tiny_batch)
           Hperm Hne Hv).
Defined.


(** ** Exploration schedule: the linear part and the floor *)

Lemma linear_part (s : Z) :
  ((1 - inject_Z s / inject_Z (10 ^ 6))%Q == (1000000 - s) # 1000000)%Q.
Proof.
  change (inject_Z (10 ^ 6)) with (1000000 # 1)%Q.
  unfold Qeq, Qminus, Qplus, Qopp, Qdiv, Qmult, Qinv, inject_Z. cbn [Qnum Qden].
  rewrite !Pos.mul_1_l. lia.
Qed.

(** X8.  For a step count [s >= 0]: epsilon is at most 1; up to step
    900000 it is exactly [1 - s / 10^6] and strictly decreasing; from step
    900000 on it is exactly the floor 0.1. *)
Theorem epsilon_linear_then_floor (s : Z) :
  (0 <= s)%Z ->
  (epsilon_of s <= 1)%Q /\
  ((s <= 900000)%Z ->
   (epsilon_of s == 1 - inject_Z s / inject_Z (10 ^ 6))%Q /\
   forall s', (s < s' <= 900000)%Z -> (epsilon_of s' < epsilon_of s)%Q) /\
  ((900000 <= s)%Z -> (epsilon_of s == 1 # 10)%Q).
Proof.
  intros Hs.
  assert (Hlin : forall t, (t <= 900000)%Z ->
                           (epsilon_of t == (1000000 - t) # 1000000)%Q).
  { intros t Ht. unfold epsilon_of. rewrite linear_part.
    apply Q.max_r. unfold Qle; cbn [Qnum Qden]. lia. }
  split; [|split].
  - unfold epsilon_of. rewrite linear_part. apply Q.max_lub.
    + discriminate.
    + unfold Qle; cbn [Qnum Qden]. lia.
  - intros Hle. split.
    + rewrite linear_part. now apply Hlin.
    + intros s' [Hlt Hle']. rewrite (Hlin s Hle), (Hlin s' Hle').
      unfold Qlt; cbn [Qnum Qden]. lia.
  - intros Hge. unfold epsilon_of. rewrite linear_part.
    apply Q.max_l. unfold Qle; cbn [Qnum Qden]. lia.
Qed.

Lemma epsilon_linear_then_floor_witness :
  (0 <= 900000)%Z /\
  (epsilon_of 900000 == 1 # 10)%Q /\
  (epsilon_of 250000 == 3 # 4)%Q.
Proof.
  split; [lia|]. split.
  - apply (proj2 (proj2 (epsilon_linear_then_floor 900000 ltac:(lia)))). lia.
  - reflexivity.
Defined.

(** ** Frame preprocessing: which pixels, and their range *)

Lemma Qsum_le_bound (l : list Q) (M : Q) :
  Forall (fun v => v <= M)%Q l -> (Qsum l <= inject_Z (Z.of_nat (length l)) * M)%Q.
Proof.
  induction 1 as [|v l Hv _ IH].
  - simpl. rewrite Qmult_0_l. apply Qle_refl.
  - cbn [Qsum fold_right length]. fold (Qsum l).
    rewrite Nat2Z.inj_succ, <- Z.add_1_l, inject_Z_plus.
    setoid_replace ((inject_Z 1 + inject_Z (Z.of_nat (length l))) * M)%Q
      with (M + inject_Z (Z.of_nat (length l)) * M)%Q by ring.
    now apply Qplus_le_compat.
Qed.

Lemma mean_bounds (l : list Q) (M : Q) :
  l <> [] ->
  Forall (fun v => 0 <= v /\ v <= M)%Q l ->
  (0 <= ImageWrapper.mean l /\ ImageWrapper.mean l <= M)%Q.
Proof.
  intros Hne Hall. unfold ImageWrapper.mean.
  assert (Hlen : (0 < inject_Z (Z.of_nat (length l)))%Q).
  { change 0%Q with (inject_Z 0). rewrite <- Zlt_Qlt.
    destruct l; [congruence | simpl; lia]. }
  split.
  - apply Qle_shift_div_l; [exact Hlen|]. rewrite Qmult_0_l.
    apply Qsum_nonneg. eapply Forall_impl; [|exact Hall]. now intros v [H0 _].
  - apply Qle_shift_div_r; [exact Hlen|]. rewrite Qmult_comm.
    apply Qsum_le_bound. eapply Forall_impl; [|exact Hall]. now intros v [_ HM].
Qed.

Lemma nth_map_rows (h : list Q -> Q) (rows : list (list (list Q))) (i j : nat) :
  j < length (nth i rows []) ->
  nth j (nth i (map (map h) rows) []) 0%Q = h (nth j (nth i rows []) []).
Proof.
  intros Hj.
  change (@nil Q) with (map h (@nil (list Q))) at 1.
  rewrite map_nth.
  rewrite (nth_indep (map h (nth i rows [])) 0%Q (h []))
    by (now rewrite length_map).
  now rewrite map_nth.
Qed.

Section PreprocessMore.
Variable imresize : Array3 -> nat * nat -> Array3.
Variable chan : nat.
Hypothesis imresize_shape :
  forall img, has_shape3 110 84 chan (imresize img (110, 84)) = true.

(** The preprocessor in closed form: rows 20 to 103 of the resized
    image, each pixel replaced by the mean of its channels over 255. *)
Lemma observation_closed_form (obs : Array3) :
  ImageWrapper._observation imresize obs
  = [ map (map (fun px => (ImageWrapper.mean px / 255)%Q))
          (firstn 84 (skipn 20 (imresize obs (110, 84)))) ].
Proof.
  unfold ImageWrapper._observation.
  pose proof (imresize_shape obs) as Hr.
  apply has_shape3_spec in Hr. destruct Hr as [Hlen Hrows].
  set (r := imresize obs (110, 84)) in *.
  unfold ImageWrapper.crop, ImageWrapper.mean_channels, ImageWrapper.X_OFS.
  rewrite skipn_map, firstn_map.
  match goal with
  | |- context [ImageWrapper.moveaxis_2_0 (map _ ?X)] => set (c := X)
  end.
  assert (Hc : length c = 84).
  { unfold c. rewrite length_firstn, length_skipn.
    unfold Array3, Plane in *. rewrite Hlen. reflexivity. }
  assert (Hsub : forall row, In row c -> In row r).
  { intros row Hin. unfold c in Hin.
    rewrite <- (firstn_skipn 20 r). apply in_or_app; right.
    rewrite <- (firstn_skipn 84 (skipn 20 r)). apply in_or_app; now left. }
  assert (Hch : length (hd [] (hd [] (map (map (fun px => [ImageWrapper.mean px])) c))) = 1).
  { revert Hc Hsub. generalize c. intros c0 Hc Hsub.
    destruct c0 as [|row c']; [simpl in Hc; lia|].
    rewrite Forall_forall in Hrows. specialize (Hrows row (Hsub row (or_introl eq_refl))).
    apply has_shape2_spec in Hrows. destruct Hrows as [Hl _].
    destruct row as [|px row]; [simpl in Hl; lia | reflexivity]. }
  unfold ImageWrapper.moveaxis_2_0. rewrite Hch.
  cbn [seq map ImageWrapper.scale]. f_equal.
  rewrite !map_map. apply map_ext. intros row.
  rewrite !map_map. reflexivity.
Qed.

(** X9.  The preprocessor returns one 84 x 84 frame whose pixel
    [(i, j)] is the channel mean of pixel [(i + 20, j)] of the resized
    image divided by 255; when the resized image has at least one
    channel and entries between 0 and 255, every pixel of the frame lies
    between 0 and 1. *)
Theorem preprocessed_pixels (obs : Array3) :
  0 < chan ->
  exists f,
    ImageWrapper._observation imresize obs = [f] /\
    (forall i j, i < 84 -> j < 84 ->
                 nth j (nth i f []) 0%Q
                 = Qdiv (ImageWrapper.mean
                           (nth j (nth (i + 20) (imresize obs (110, 84)) []) []))
                        255%Q) /\
    ((forall row px v, In row (imresize obs (110, 84)) -> In px row -> In v px ->
                       (0 <= v /\ v <= 255)%Q) ->
     forall row v, In row f -> In v row -> (0 <= v /\ v <= 1)%Q).
Proof.
  intros Hchan. rewrite observation_closed_form.
  pose proof (imresize_shape obs) as Hr.
  apply has_shape3_spec in Hr. destruct Hr as [Hlen Hrows].
  set (r := imresize obs (110, 84)) in *.
  unfold Array3, Plane in *.
  eexists. split; [reflexivity|]. split.
  - intros i j Hi Hj.
    assert (Hnth : nth i (firstn 84 (skipn 20 r)) [] = nth (i + 20) r []).
    { rewrite nth_firstn. destruct (Nat.ltb_spec i 84) as [_|Hge]; [|lia].
      now rewrite nth_skipn, (Nat.add_comm 20 i). }
    assert (Hrow : length (nth (i + 20) r []) = 84).
    { rewrite Forall_forall in Hrows.
      assert (Hin : In (nth (i + 20) r []) r).
      { apply nth_In. unfold Array3, Plane in *. rewrite Hlen. lia. }
      specialize (Hrows _ Hin). apply has_shape2_spec in Hrows. tauto. }
    rewrite nth_map_rows by (rewrite Hnth, Hrow; exact Hj).
    now rewrite Hnth.
  - intros Hrange row v Hrow Hv.
    apply in_map_iff in Hrow. destruct Hrow as (row0 & <- & Hrow0).
    apply in_map_iff in Hv. destruct Hv as (px & <- & Hpx).
    assert (Hin0 : In row0 r).
    { rewrite <- (firstn_skipn 20 r). apply in_or_app; right.
      rewrite <- (firstn_skipn 84 (skipn 20 r)). apply in_or_app; now left. }
    assert (Hpxlen : length px = chan).
    { rewrite Forall_forall in Hrows. specialize (Hrows row0 Hin0).
      apply has_shape2_spec in Hrows. destruct Hrows as [_ Hpxs].
      rewrite Forall_forall in Hpxs. now apply Hpxs. }
    destruct (mean_bounds px 255) as [H0 H255].
    + destruct px; [simpl in Hpxlen; lia | discriminate].
    + apply Forall_forall. intros w Hw. exact (Hrange row0 px w Hin0 Hpx Hw).
    + split.
      * apply Qle_shift_div_l; [reflexivity|]. now rewrite Qmult_0_l.
      * apply Qle_shift_div_r; [reflexivity|]. now rewrite Qmult_1_l.
Qed.

End PreprocessMore.

Lemma preprocessed_pixels_witness :
  0 < 3 /\
  exists f,
    ImageWrapper._observation Instances.toy_imresize (Instances.toy_frame 51) = [f] /\
    (forall row v, In row f -> In v row -> (0 <= v /\ v <= 1)%Q).
Proof.
  split; [lia|].
  destruct (preprocessed_pixels Instances.toy_imresize 3 toy_imresize_shape
              (Instances.toy_frame 51) (Nat.lt_0_succ 2)) as (f & Hf & _ & Hrange).
  exists f. split; [exact Hf|]. apply Hrange.
  intros row px v Hrow Hpx Hv.
  unfold Instances.toy_imresize, Instances.toy_frame in Hrow. cbn [hd fst snd] in Hrow.
  apply repeat_spec in Hrow. subst row.
  apply repeat_spec in Hpx. subst px.
  simpl in Hv. destruct Hv as [<-|[<-|[<-|[]]]]; split; discriminate.
Defined.

(** ** Frame stacking: the rolling window *)

(** X10.  Feeding frames one after the other to a 4-deep buffer leaves
    the last four entries of the buffer's old contents followed by the
    frames, oldest first; from the fourth frame on, nothing of the old
    contents (the zeros of a reset) is left. *)
Theorem stack_is_last_four (frames : list Plane) :
  forall buffer : Array3,
    has_shape3 4 84 84 buffer = true ->
    Forall (fun f => has_shape2 84 84 f = true) frames ->
    rolls buffer frames = Some (skipn (length frames) (buffer ++ frames)) /\
    (4 <= length frames ->
     rolls buffer frames = Some (skipn (length frames - 4) frames)).
Proof.
  assert (Hmain : forall buffer : Array3,
             has_shape3 4 84 84 buffer = true ->
             Forall (fun f => has_shape2 84 84 f = true) frames ->
             rolls buffer frames = Some (skipn (length frames) (buffer ++ frames))).
  { induction frames as [|f frames IH]; intros buffer Hb Hf.
    - cbn [rolls length skipn]. now rewrite app_nil_r.
    - inversion Hf as [|? ? Hf0 Hrest]; subst.
      destruct (four_planes buffer Hb) as (b0 & b1 & b2 & b3 & -> & H0 & H1 & H2 & H3).
      cbn [rolls]. rewrite roll_four by assumption. cbn [bind].
      rewrite IH; [reflexivity | now apply four_planes_shape | exact Hrest]. }
  intros buffer Hb Hf. split; [now apply Hmain|].
  intros Hlen. rewrite Hmain by assumption.
  rewrite skipn_app.
  apply has_shape3_spec in Hb. destruct Hb as [Hb _].
  unfold Array3, Plane in *. rewrite Hb.
  rewrite (skipn_all2 buffer) by lia. reflexivity.
Qed.

Lemma stack_is_last_four_witness :
  let buffer := [zero_plane; zero_plane; zero_plane; zero_plane] in
  let f := repeat (repeat 1%Q 84) 84 in
  has_shape3 4 84 84 buffer = true /\
  Forall (fun p => has_shape2 84 84 p = true) [f; f] /\
  rolls buffer [f; f] = Some [zero_plane; zero_plane; f; f].
Proof.
  intros buffer f.
  assert (Hb : has_shape3 4 84 84 buffer = true) by reflexivity.
  assert (Hf : Forall (fun p => has_shape2 84 84 p = true) [f; f]).
  { repeat constructor. }
  split; [exact Hb|]. split; [exact Hf|].
  exact (proj1 (stack_is_last_four [f; f] buffer Hb Hf)).
Defined.

(** ** The value network: sizes, output width and rejected inputs *)

Lemma forallb_lengths {X : Type} (n : nat) (l : list (list X)) :
  Forall (fun r => length r = n) l ->
  forallb (fun r => (length r =? n)%nat) l = true.
Proof.
  intros H. apply forallb_forall. intros r Hr. apply Nat.eqb_eq.
  rewrite Forall_forall in H. now apply H.
Qed.

Lemma shape3_dims (d0 d1 d2 : nat) (x : Array3) :
  has_shape3 d0 d1 d2 x = true -> 1 <= d0 -> 1 <= d1 ->
  length x = d0 /\ length (hd [] x) = d1 /\ length (hd [] (hd [] x)) = d2.
Proof.
  intros H H0 H1. apply has_shape3_spec in H. destruct H as [Hlen Hall].
  split; [exact Hlen|].
  destruct x as [|p x]; [simpl in Hlen; lia|]. cbn [hd].
  inversion Hall as [|? ? Hp _]; subst.
  apply has_shape2_spec in Hp. destruct Hp as [Hrows Hcols].
  split; [exact Hrows|].
  destruct p as [|row p]; [simpl in Hrows; lia|]. cbn [hd].
  now inversion Hcols.
Qed.

Lemma relu3_shape (d0 d1 d2 : nat) (x : Array3) :
  has_shape3 d0 d1 d2 x = true -> has_shape3 d0 d1 d2 (DQN.relu3 x) = true.
Proof.
  intros H. apply has_shape3_spec in H. destruct H as [Hlen Hall].
  apply has_shape3_spec. unfold DQN.relu3. rewrite length_map.
  split; [exact Hlen|].
  apply Forall_forall. intros p Hp. apply in_map_iff in Hp.
  destruct Hp as (p0 & <- & Hp0).
  rewrite Forall_forall in Hall. specialize (Hall p0 Hp0).
  apply has_shape2_spec in Hall. destruct Hall as [Hr Hc].
  apply has_shape2_spec. rewrite length_map. split; [exact Hr|].
  apply Forall_forall. intros row Hrow. apply in_map_iff in Hrow.
  destruct Hrow as (row0 & <- & Hrow0). rewrite length_map.
  rewrite Forall_forall in Hc. now apply Hc.
Qed.

Lemma concat_length_uniform {X : Type} (n : nat) (l : list (list X)) :
  Forall (fun r => length r = n) l -> length (concat l) = length l * n.
Proof.
  induction 1 as [|r l Hr _ IH]; simpl; [reflexivity|].
  rewrite length_app, Hr, IH. reflexivity.
Qed.

Lemma flatten_length (d0 d1 d2 : nat) (x : Array3) :
  has_shape3 d0 d1 d2 x = true -> length (DQN.flatten x) = d0 * d1 * d2.
Proof.
  intros H. apply has_shape3_spec in H. destruct H as [Hlen Hall].
  unfold DQN.flatten.
  rewrite (concat_length_uniform d2).
  - rewrite (concat_length_uniform d1).
    + unfold Array3, Plane in *. now rewrite Hlen.
    + eapply Forall_impl; [|exact Hall]. intros p Hp.
      apply has_shape2_spec in Hp. tauto.
  - apply Forall_forall. intros row Hrow. apply in_concat in Hrow.
    destruct Hrow as (p & Hp & Hrow).
    rewrite Forall_forall in Hall. specialize (Hall p Hp).
    apply has_shape2_spec in Hall. destruct Hall as [_ Hc].
    rewrite Forall_forall in Hc. now apply Hc.
Qed.

Lemma zeros_shape (c h w : nat) : has_shape3 c h w (DQN.zeros c h w) = true.
Proof.
  apply has_shape3_spec. unfold DQN.zeros. rewrite repeat_length. split; [reflexivity|].
  apply Forall_forall. intros p Hp. apply repeat_spec in Hp. subst p.
  apply has_shape2_spec. rewrite repeat_length. split; [reflexivity|].
  apply Forall_forall. intros row Hrow. apply repeat_spec in Hrow. subst row.
  apply repeat_length.
Qed.

(** A convolution on an input of the right channel count that is at least
    as large as the kernel succeeds, with one plane per output channel. *)
Lemma conv2d_shape (out_c in_c k s h w : nat) (L : DQN.Conv2d) (x : Array3) :
  DQN.conv_shape out_c in_c k s L ->
  1 <= in_c -> 1 <= k -> 1 <= s -> k <= h -> k <= w ->
  has_shape3 in_c h w x = true ->
  exists y,
    DQN.conv2d L x = Some y /\
    has_shape3 out_c (DQN.out_size h k s) (DQN.out_size w k s) y = true.
Proof.
  intros (Hk & Hs & Hw & Hin & Hb) Hc Hk1 Hs1 Hkh Hkw Hx.
  destruct (shape3_dims in_c h w x Hx Hc ltac:(lia)) as (Hlx & Hh & Hw').
  unfold DQN.conv2d. rewrite Hk, Hs, Hh, Hw', Hlx, Hb, Hw.
  rewrite forallb_lengths by (eapply Forall_impl; [|exact Hin]; now intros wo [H _]).
  rewrite Nat.eqb_refl.
  destruct (Nat.leb_spec k h); [|lia]. destruct (Nat.leb_spec k w); [|lia].
  destruct (Nat.leb_spec 1 s); [|lia]. cbn [andb].
  eexists. split; [reflexivity|].
  apply has_shape3_spec. rewrite length_map, length_combine, Hw, Hb, Nat.min_id.
  split; [reflexivity|].
  apply Forall_forall. intros p Hp. apply in_map_iff in Hp.
  destruct Hp as (wb & <- & _).
  apply has_shape2_spec. rewrite length_map, length_seq. split; [reflexivity|].
  apply Forall_forall. intros row Hrow. apply in_map_iff in Hrow.
  destruct Hrow as (i & <- & _). now rewrite length_map, length_seq.
Qed.

Lemma conv2d_channels (out_c in_c k s : nat) (L : DQN.Conv2d) (x : Array3) :
  DQN.conv_shape out_c in_c k s L -> 1 <= out_c -> length x <> in_c ->
  DQN.conv2d L x = None.
Proof.
  intros (_ & _ & Hw & Hin & _) Hout Hx. unfold DQN.conv2d.
  destruct (DQN.conv_weight L) as [|wo ws]; [simpl in Hw; lia|].
  inversion Hin as [|? ? [Hwo _] _]; subst.
  cbn [forallb]. destruct (Nat.eqb_spec (length wo) (length x)) as [Heq|Hne].
  - congruence.
  - reflexivity.
Qed.

Lemma conv2d_small (out_c in_c k s h w : nat) (L : DQN.Conv2d) (x : Array3) :
  DQN.conv_shape out_c in_c k s L ->
  1 <= in_c -> 1 <= h ->
  has_shape3 in_c h w x = true ->
  h < k \/ w < k ->
  DQN.conv2d L x = None.
Proof.
  intros (Hk & _) Hc Hh1 Hx Hsmall.
  destruct (shape3_dims in_c h w x Hx Hc Hh1) as (_ & Hh & Hw).
  unfold DQN.conv2d. rewrite Hk, Hh, Hw.
  destruct (Nat.leb_spec k h), (Nat.leb_spec k w); try lia;
    rewrite ?andb_false_r; reflexivity.
Qed.

Lemma linear_width (out_f in_f : nat) (L : DQN.Linear) (x : list Q) :
  DQN.linear_shape out_f in_f L -> length x = in_f ->
  exists y, DQN.linear L x = Some y /\ length y = out_f.
Proof.
  intros (Hw & Hrows & Hb) Hx. unfold DQN.linear.
  rewrite Hx, forallb_lengths by exact Hrows.
  rewrite Hb, Hw, Nat.eqb_refl. cbn [andb].
  eexists. split; [reflexivity|].
  now rewrite length_map, length_combine, Hw, Hb, Nat.min_id.
Qed.

Lemma linear_mismatch (out_f in_f : nat) (L : DQN.Linear) (x : list Q) :
  DQN.linear_shape out_f in_f L -> 1 <= out_f -> length x <> in_f ->
  DQN.linear L x = None.
Proof.
  intros (Hw & Hrows & _) Hout Hx. unfold DQN.linear.
  destruct (DQN.weight L) as [|row rows]; [simpl in Hw; lia|].
  inversion Hrows as [|? ? Hrow _]; subst. cbn [forallb].
  destruct (Nat.eqb_spec (length row) (length x)); [congruence | reflexivity].
Qed.

Lemma out_size_first (n : nat) : 20 <= n -> 4 <= DQN.out_size n 8 4.
Proof.
  intros H. unfold DQN.out_size.
  assert (3 <= (n - 8) / 4) by (apply Nat.div_le_lower_bound; lia). lia.
Qed.

Section DqnFacts.
Variables c h w : nat.
Hypothesis c_pos : 1 <= c.
Hypothesis h_big : 20 <= h.
Hypothesis w_big : 20 <= w.

(** The two output sizes of the convolution stack on an [h] x [w]
    input. *)
Let oh := DQN.out_size (DQN.out_size h 8 4) 4 2.
Let ow := DQN.out_size (DQN.out_size w 8 4) 4 2.

Lemma conv_stack_shape (c1 c2 : DQN.Conv2d) (x : Array3) :
  DQN.conv_shape 16 c 8 4 c1 -> DQN.conv_shape 32 16 4 2 c2 ->
  has_shape3 c h w x = true ->
  exists o, DQN.conv c1 c2 x = Some o /\ has_shape3 32 oh ow o = true.
Proof.
  intros H1 H2 Hx. unfold DQN.conv.
  destruct (conv2d_shape 16 c 8 4 h w c1 x H1) as (a & Ha & Sa); try lia; [exact Hx|].
  rewrite Ha. cbn [bind].
  destruct (conv2d_shape 32 16 4 2 (DQN.out_size h 8 4) (DQN.out_size w 8 4)
              c2 (DQN.relu3 a) H2) as (b & Hb & Sb); try lia.
  - now apply out_size_first.
  - now apply out_size_first.
  - now apply relu3_shape.
  - rewrite Hb. cbn [bind]. eexists. split; [reflexivity|].
    now apply relu3_shape.
Qed.

Lemma get_conv_out_value (c1 c2 : DQN.Conv2d) :
  DQN.conv_shape 16 c 8 4 c1 -> DQN.conv_shape 32 16 4 2 c2 ->
  DQN._get_conv_out c1 c2 (c, h, w) = Some (32 * oh * ow).
Proof.
  intros H1 H2. unfold DQN._get_conv_out.
  destruct (conv_stack_shape c1 c2 (DQN.zeros c h w) H1 H2 (zeros_shape c h w))
    as (o & Ho & So).
  rewrite Ho. cbn [bind]. now rewrite (flatten_length 32 oh ow o So).
Qed.

(** X11.  For an input shape of at least 20 x 20 with at least one
    channel, [_get_conv_out] returns 32 times the two output sizes of the
    convolution stack, where a size [n] becomes [((n - 8) / 4 + 1 - 4) / 2
    + 1]; it is what the convolutions produce on every input of that
    shape. *)
Theorem conv_out_size_formula (c1 c2 : DQN.Conv2d) (x : Array3) :
  DQN.conv_shape 16 c 8 4 c1 -> DQN.conv_shape 32 16 4 2 c2 ->
  has_shape3 c h w x = true ->
  DQN._get_conv_out c1 c2 (c, h, w)
  = Some (32 * (((h - 8) / 4 + 1 - 4) / 2 + 1) * (((w - 8) / 4 + 1 - 4) / 2 + 1)) /\
  exists o,
    DQN.conv c1 c2 x = Some o /\
    DQN._get_conv_out c1 c2 (c, h, w) = Some (length (DQN.flatten o)).
Proof.
  intros H1 H2 Hx. split.
  - exact (get_conv_out_value c1 c2 H1 H2).
  - destruct (conv_stack_shape c1 c2 x H1 H2 Hx) as (o & Ho & So).
    exists o. split; [exact Ho|].
    rewrite (get_conv_out_value c1 c2 H1 H2).
    now rewrite (flatten_length 32 oh ow o So).
Qed.

Variable n_actions : nat.
Variable net : DQN.t.
Hypothesis net_built : DQN.built (c, h, w) n_actions net.

Lemma fc1_width : DQN.linear_shape 256 (32 * oh * ow) (DQN.fc1 net).
Proof.
  destruct net_built as (H1 & H2 & (size & Hsize & Hfc1) & _).
  cbn [fst] in H1. rewrite (get_conv_out_value _ _ H1 H2) in Hsize.
  replace size with (32 * oh * ow) in Hfc1 by congruence. exact Hfc1.
Qed.

(** X12.  A network built for an input shape and a number of actions
    evaluates every input of that shape without error, and returns one
    value per action. *)
Theorem dqn_forward_width (x : Array3) :
  has_shape3 c h w x = true ->
  exists q, DQN.forward net x = Some q /\ length q = n_actions.
Proof.
  intros Hx. pose proof fc1_width as Hfc1.
  destruct net_built as (H1 & H2 & _ & Hfc2). cbn [fst] in H1.
  destruct (conv_stack_shape _ _ x H1 H2 Hx) as (o & Ho & So).
  destruct (linear_width 256 (32 * oh * ow) (DQN.fc1 net) (DQN.flatten o) Hfc1)
    as (hidden & Hh & Hlen); [now apply flatten_length|].
  destruct (linear_width n_actions 256 (DQN.fc2 net) (map DQN.relu hidden) Hfc2)
    as (q & Hq & Hqlen); [now rewrite length_map|].
  exists q. unfold DQN.forward. rewrite Ho. cbn [bind]. rewrite Hh. cbn [bind].
  split; [exact Hq | exact Hqlen].
Qed.

(** X13.  The same network raises on an input with another number of
    channels, on an input smaller than the first kernel, and on an input
    whose convolution output has another size than the one the first
    linear layer was built for. *)
Theorem forward_rejects (x : Array3) (c' h' w' : nat) :
  has_shape3 c' h' w' x = true ->
  c' <> c \/
  (c' = c /\ 1 <= h' /\ (h' < 8 \/ w' < 8)) \/
  (c' = c /\ 20 <= h' /\ 20 <= w' /\
   DQN.out_size (DQN.out_size h' 8 4) 4 2 * DQN.out_size (DQN.out_size w' 8 4) 4 2
   <> oh * ow) ->
  DQN.forward net x = None.
Proof.
  intros Hx Hcase. pose proof fc1_width as Hfc1.
  destruct net_built as (H1 & H2 & _ & _). cbn [fst] in H1.
  unfold DQN.forward, DQN.conv.
  destruct Hcase as [Hc|[(-> & Hh1 & Hsmall)|(-> & Hh & Hw & Hsize)]].
  - rewrite (conv2d_channels 16 c 8 4 (DQN.conv1 net) x H1); [reflexivity|lia|].
    apply has_shape3_spec in Hx. destruct Hx as [Hlen _]. congruence.
  - now rewrite (conv2d_small 16 c 8 4 h' w' (DQN.conv1 net) x H1 c_pos Hh1 Hx Hsmall).
  - destruct (conv2d_shape 16 c 8 4 h' w' (DQN.conv1 net) x H1)
      as (a & Ha & Sa); try lia; [exact Hx|].
    rewrite Ha. cbn [bind].
    destruct (conv2d_shape 32 16 4 2 (DQN.out_size h' 8 4) (DQN.out_size w' 8 4)
                (DQN.conv2 net) (DQN.relu3 a) H2) as (b & Hb & Sb); try lia.
    + now apply out_size_first.
    + now apply out_size_first.
    + now apply relu3_shape.
    + rewrite Hb. cbn [bind].
      rewrite (linear_mismatch 256 (32 * oh * ow) (DQN.fc1 net)); [reflexivity| exact Hfc1 |lia|].
      rewrite (flatten_length _ _ _ _ (relu3_shape _ _ _ _ Sb)). nia.
Qed.

End DqnFacts.

Lemma repeat_all {X : Type} (P : X -> Prop) (x : X) (n : nat) :
  P x -> Forall P (repeat x n).
Proof.
  intros H. apply Forall_forall. intros y Hy. apply repeat_spec in Hy. now subst.
Qed.

Lemma zero_dqn_built : DQN.built (4, 84, 84) 6 NetInstances.zero_dqn.
Proof.
  assert (H1 : DQN.conv_shape 16 4 8 4 (DQN.conv1 NetInstances.zero_dqn)).
  { repeat split; try reflexivity. apply repeat_all. split; [reflexivity|].
    apply repeat_all. reflexivity. }
  assert (H2 : DQN.conv_shape 32 16 4 2 (DQN.conv2 NetInstances.zero_dqn)).
  { repeat split; try reflexivity. apply repeat_all. split; [reflexivity|].
    apply repeat_all. reflexivity. }
  split; [exact H1|]. split; [exact H2|]. split.
  - exists 2592. split.
    + exact (get_conv_out_value 4 84 84 ltac:(lia) ltac:(lia) ltac:(lia) _ _ H1 H2).
    + split; [apply repeat_length|]. split; [|apply repeat_length].
      apply repeat_all. apply repeat_length.
  - split; [reflexivity|]. split; [|reflexivity].
    apply repeat_all. apply repeat_length.
Qed.

Lemma conv_out_size_formula_witness :
  1 <= 4 /\ 20 <= 84 /\
  has_shape3 4 84 84 (DQN.zeros 4 84 84) = true /\
  DQN._get_conv_out (DQN.conv1 NetInstances.zero_dqn) (DQN.conv2 NetInstances.zero_dqn)
                    (4, 84, 84)
  = Some 2592.
Proof.
  destruct zero_dqn_built as (H1 & H2 & _).
  split; [lia|]. split; [lia|]. split; [apply zeros_shape|].
  exact (proj1 (conv_out_size_formula 4 84 84 ltac:(lia) ltac:(lia) ltac:(lia)
                  _ _ (DQN.zeros 4 84 84) H1 H2 (zeros_shape 4 84 84))).
Defined.

Lemma dqn_forward_width_witness :
  DQN.built (4, 84, 84) 6 NetInstances.zero_dqn /\
  has_shape3 4 84 84 (DQN.zeros 4 84 84) = true /\
  exists q,
    DQN.forward NetInstances.zero_dqn (DQN.zeros 4 84 84) = Some q /\ length q = 6.
Proof.
  split; [exact zero_dqn_built|]. split; [apply zeros_shape|].
  exact (dqn_forward_width 4 84 84 ltac:(lia) ltac:(lia) ltac:(lia) 6
           NetInstances.zero_dqn zero_dqn_built (DQN.zeros 4 84 84)
           (zeros_shape 4 84 84)).
Defined.

Lemma forward_rejects_witness :
  has_shape3 3 84 84 (DQN.zeros 3 84 84) = true /\
  DQN.forward NetInstances.zero_dqn (DQN.zeros 3 84 84) = None /\
  DQN.forward NetInstances.zero_dqn (DQN.zeros 4 100 100) = None.
Proof.
  split; [apply zeros_shape|]. split.
  - apply (forward_rejects 4 84 84 ltac:(lia) ltac:(lia) ltac:(lia) 6
             NetInstances.zero_dqn zero_dqn_built (DQN.zeros 3 84 84) 3 84 84
             (zeros_shape 3 84 84)).
    left. lia.
  - apply (forward_rejects 4 84 84 ltac:(lia) ltac:(lia) ltac:(lia) 6
             NetInstances.zero_dqn zero_dqn_built (DQN.zeros 4 100 100) 4 100 100
             (zeros_shape 4 100 100)).
    right. right. split; [reflexivity|]. split; [lia|]. split; [lia|].
    vm_compute. discriminate.
Defined.

(** ** Agent: greedy choice, reward bookkeeping and shared arrays *)

Lemma Qltb_true (x y : Q) : Qltb x y = true -> (x < y)%Q.
Proof.
  unfold Qltb. intros H. apply negb_true_iff in H.
  apply Qnot_le_lt. intros Hle. apply Qle_bool_iff in Hle. congruence.
Qed.

Lemma Qltb_false (x y : Q) : Qltb x y = false -> (y <= x)%Q.
Proof.
  unfold Qltb. intros H. apply negb_false_iff in H. now apply Qle_bool_iff.
Qed.

Lemma Qltb_ge (x y : Q) : (y <= x)%Q -> Qltb x y = false.
Proof.
  intros H. unfold Qltb. apply negb_false_iff. now apply Qle_bool_iff.
Qed.

Lemma argmax_from_first_max (l : list Q) :
  forall (pre : list Q) (best_i : nat) (best : Q),
    best_i < length pre ->
    nth best_i pre 0%Q = best ->
    (forall j, j < length pre -> (nth j pre 0 <= best)%Q) ->
    (forall j, j < best_i -> (nth j pre 0 < best)%Q) ->
    let r := argmax_from best_i best (length pre) l in
    r < length (pre ++ l) /\
    (forall j, j < length (pre ++ l) -> (nth j (pre ++ l) 0 <= nth r (pre ++ l) 0)%Q) /\
    (forall j, j < r -> (nth j (pre ++ l) 0 < nth r (pre ++ l) 0)%Q).
Proof.
  induction l as [|x l IH]; intros pre best_i best Hlt Hbest Hmax Hfirst; cbn [argmax_from].
  - rewrite app_nil_r. cbv zeta. rewrite Hbest. auto.
  - assert (Hassoc : pre ++ x :: l = (pre ++ [x]) ++ l) by (now rewrite <- app_assoc).
    assert (Hlen : S (length pre) = length (pre ++ [x])).
    { rewrite length_app. simpl. lia. }
    destruct (Qltb best x) eqn:Hcmp.
    + apply Qltb_true in Hcmp. rewrite Hassoc, Hlen.
      apply IH.
      * rewrite <- Hlen. lia.
      * now rewrite nth_middle.
      * intros j Hj. rewrite <- Hlen in Hj.
        destruct (Nat.eq_dec j (length pre)) as [->|Hne].
        -- rewrite nth_middle. apply Qle_refl.
        -- rewrite app_nth1 by lia. apply Qlt_le_weak.
           eapply Qle_lt_trans; [apply Hmax; lia | exact Hcmp].
      * intros j Hj. rewrite app_nth1 by lia.
        eapply Qle_lt_trans; [apply Hmax; lia | exact Hcmp].
    + apply Qltb_false in Hcmp. rewrite Hassoc, Hlen.
      apply IH.
      * rewrite <- Hlen. lia.
      * now rewrite app_nth1.
      * intros j Hj. rewrite <- Hlen in Hj.
        destruct (Nat.eq_dec j (length pre)) as [->|Hne].
        -- now rewrite nth_middle.
        -- rewrite app_nth1 by lia. apply Hmax. lia.
      * intros j Hj. rewrite app_nth1 by lia. now apply Hfirst.
Qed.

(** The index [torch.max] returns: a largest entry, and the first one. *)
Lemma argmax_first_max (l : list Q) (i : nat) :
  argmax l = Some i ->
  i < length l /\
  (forall j, j < length l -> (nth j l 0 <= nth i l 0)%Q) /\
  (forall j, j < i -> (nth j l 0 < nth i l 0)%Q).
Proof.
  destruct l as [|x l]; cbn [argmax]; [discriminate|].
  intros H; inversion H; subst i.
  apply (argmax_from_first_max l [x] 0 x).
  - simpl; lia.
  - reflexivity.
  - intros j Hj. simpl in Hj. assert (j = 0) by lia. subst. apply Qle_refl.
  - intros j Hj. lia.
Qed.

Lemma skipn_snoc_keep {A : Type} (k : nat) (l : list A) (x : A) :
  k <= length l -> skipn k (l ++ [x]) = skipn k l ++ [x].
Proof.
  intros H. rewrite skipn_app.
  replace (k - length l) with 0 by lia. reflexivity.
Qed.

Section TrainMore.
Variable RawEnv : Type.
Variable raw_reset : RawEnv -> RawEnv * Array3.
Variable raw_step : RawEnv -> Z -> option (RawEnv * (Array3 * Q * bool)).
Variable raw_low : Array3.
Variable imresize : Array3 -> nat * nat -> Array3.
Variable forward : TargetNet.StateDict -> Array3 -> list Q.
Variable G : Type.
Variable autograd : TargetNet.StateDict -> list (Experience.t Array3) -> G.
Variable n_actions : Z.
Variable chan : nat.

Hypothesis imresize_shape :
  forall img, has_shape3 110 84 chan (imresize img (110, 84)) = true.
Hypothesis raw_step_ok :
  forall s action, (0 <= action < n_actions)%Z ->
                   exists r, raw_step s action = Some r.
Hypothesis forward_width :
  forall params obs, Z.of_nat (length (forward params obs)) = n_actions.
Hypothesis n_actions_pos : (0 < n_actions)%Z.

Import Train.

Local Abbreviation World := (Train.World RawEnv).
Local Abbreviation State := (Train.State RawEnv G).
Local Abbreviation select_action := (@Train.select_action RawEnv forward).
Local Abbreviation play_step := (Train.play_step raw_reset raw_step imresize forward).
Local Abbreviation play_steps := (Train.play_steps raw_reset raw_step imresize forward).
Local Abbreviation wf_world := (@Train.wf_world RawEnv n_actions).
Local Abbreviation valid_draws := (Train.valid_draws n_actions).
Local Abbreviation main_init := (Train.main_init raw_reset raw_low imresize G).
Local Abbreviation warmup := (Train.warmup raw_reset raw_step imresize forward (G := G)).
Local Abbreviation learning_iter :=
  (Train.learning_iter raw_reset raw_step imresize forward autograd).
Local Abbreviation learning :=
  (Train.learning raw_reset raw_step imresize forward autograd).
Local Abbreviation wf_state := (@Train.wf_state RawEnv G n_actions).

(** [play_step] written out on a well-formed world, once the action and
    the simulator's answer are known. *)
Lemma play_step_unfold (net : option TargetNet.StateDict) (eps : Q) (d : Draws)
      (w : World) (action : Z) (raw' : RawEnv) (obs : Array3) (reward : Q)
      (done : bool) :
  wf_world w ->
  select_action net eps d w = inr action ->
  raw_step (Env.raw (env w)) action = Some (raw', (obs, reward, done)) ->
  exists a b0 b1 b2 b3 f f0,
    Env.buffer (env w) = Some a /\ a < length (heap w) /\
    read (heap w) a = Some [b0; b1; b2; b3] /\
    ImageWrapper._observation imresize obs = [f] /\
    ImageWrapper._observation imresize (snd (raw_reset raw')) = [f0] /\
    let out := [b1; b2; b3; f] in
    let new_state := length (heap w) in
    let h2 := write (heap w) a out ++ [out] in
    let exp := Experience.mk (agent_state w) action reward done new_state in
    let q := ExperienceBuffer.buffer (exp_buffer w) ++ [exp] in
    let cap := ExperienceBuffer.capacity (exp_buffer w) in
    let buf := ExperienceBuffer.mk cap (skipn (length q - Z.to_nat cap) q) in
    let start := [zero_plane; zero_plane; zero_plane; f0] in
    play_step net eps d w
    = inr (if done
           then (mkWorld (h2 ++ [start; start])
                         (Env.mk (fst (raw_reset raw')) (Env.low (env w))
                                 (Some (S new_state))
                                 (Env.calls (env w) ++ [Env.Step action; Env.Reset]))
                         buf (S (S new_state)) 0%Q,
                 Some (total_reward w + reward)%Q)
           else (mkWorld h2
                         (Env.mk raw' (Env.low (env w)) (Some a)
                                 (Env.calls (env w) ++ [Env.Step action]))
                         buf new_state (total_reward w + reward)%Q,
                 None)).
Proof.
  intros (Hok & Hs & Hcap & Hexps) Hsel Hraw.
  destruct Hok as (Hlow & a & cur & Hb & Hr & Hcur).
  destruct (four_planes _ Hcur) as (b0 & b1 & b2 & b3 & -> & H0 & H1 & H2 & H3).
  destruct (env_step_ok RawEnv raw_step imresize chan imresize_shape
              (env w) (heap w) action raw' obs reward done a b0 b1 b2 b3
              Hraw Hb Hr H3) as (f & Hobs & Hf & Hstep).
  set (out := [b1; b2; b3; f]) in *.
  set (h1 := write (heap w) a out) in *.
  set (e1 := Env.mk raw' (Env.low (env w)) (Some a)
                    (Env.calls (env w) ++ [Env.Step action])) in *.
  destruct (env_reset_ok RawEnv raw_reset imresize chan imresize_shape
              e1 (h1 ++ [out]) Hlow) as (f0 & Hobs0 & Hf0 & Hreset).
  subst e1. cbn [Env.raw Env.low Env.calls] in Hobs0, Hreset.
  assert (Ha : a < length (heap w)) by (eapply read_lt; eauto).
  assert (Hlen1 : length h1 = length (heap w)) by apply write_length.
  assert (Hread1 : read h1 a = Some out) by (apply read_write_same; exact Ha).
  exists a, b0, b1, b2, b3, f, f0.
  split; [exact Hb|]. split; [exact Ha|]. split; [exact Hr|].
  split; [exact Hobs|]. split; [exact Hobs0|].
  cbv zeta. fold out. fold h1.
  unfold Train.play_step. rewrite Hsel. cbn [rbind]. rewrite Hstep. cbn [lift rbind].
  unfold copy at 1. rewrite Hread1. cbn [bind alloc lift rbind].
  rewrite Hlen1, append_skipn by lia. cbn [lift rbind].
  destruct done; [|reflexivity].
  unfold Train.agent_reset. unfold Heap, Array3, Plane in *. rewrite Hreset. cbn [lift rbind].
  unfold copy, read. rewrite nth_error_app2, Nat.sub_diag by lia.
  cbn [nth_error bind alloc lift rbind].
  rewrite <- !app_assoc. cbn [app].
  rewrite !length_app, Hlen1. cbn [length].
  rewrite !Nat.add_1_r.
  match goal with
  | |- context [?n + 2] => replace (n + 2) with (S (S n)) by lia
  end.
  reflexivity.
Qed.


(** X14.  From a well-formed world [play_step] does not fail once an
    action is chosen and the simulator accepts it.  The reward of the
    step is added to the agent's running total; at the end of an
    episode the call returns that total, restarts it at zero and resets
    the simulator once; otherwise it returns [None]. *)
Theorem play_step_reward_accounting
        (net : option TargetNet.StateDict) (eps : Q) (d : Draws) (w : World)
        (action : Z) (raw' : RawEnv) (obs : Array3) (reward : Q) (done : bool) :
  wf_world w ->
  select_action net eps d w = inr action ->
  raw_step (Env.raw (env w)) action = Some (raw', (obs, reward, done)) ->
  exists w',
    play_step net eps d w
    = inr (w', if done then Some (total_reward w + reward)%Q else None) /\
    total_reward w' = (if done then 0 else total_reward w + reward)%Q /\
    Env.raw (env w') = (if done then fst (raw_reset raw') else raw') /\
    actions_of (Env.calls (env w')) = actions_of (Env.calls (env w)) ++ [action] /\
    resets_of (Env.calls (env w'))
    = resets_of (Env.calls (env w)) + (if done then 1 else 0).
Proof.
  intros Hwf Hsel Hraw.
  destruct (play_step_unfold net eps d w action raw' obs reward done Hwf Hsel Hraw)
    as (a & b0 & b1 & b2 & b3 & f & f0 & _ & _ & _ & _ & _ & Hstep).
  cbv zeta in Hstep. rewrite Hstep.
  destruct done; eexists; (split; [reflexivity|]);
    cbn [total_reward env Env.raw Env.calls];
    unfold actions_of, resets_of;
    rewrite flat_map_app, filter_app, length_app; cbn; auto.
Qed.

Lemma read_app_old (h h' : Heap) (b : addr) :
  b < length h -> read (h ++ h') b = read h b.
Proof. intros Hb. unfold read. now rewrite nth_error_app1. Qed.

Lemma read_app_new (h h' : Heap) (k : nat) :
  read (h ++ h') (length h + k) = read h' k.
Proof.
  unfold read. rewrite nth_error_app2 by lia.
  now replace (length h + k - length h) with k by lia.
Qed.

(** X15.  The transition stored by [play_step] is the newest element of
    the replay buffer.  Its [state] is the array the agent held before
    the call, with its contents unchanged; its [new_state] is a fresh
    copy of the stacker's buffer after the step, which is the old
    buffer shifted by one frame with the new frame last.  While the
    episode goes on the agent keeps that very copy as its next state,
    so consecutive transitions share it; after the last step of an
    episode the agent holds another fresh array, the first observation
    of the next episode: three zero frames and the reset frame. *)
Theorem play_step_state_chaining
        (net : option TargetNet.StateDict) (eps : Q) (d : Draws) (w : World)
        (action : Z) (raw' : RawEnv) (obs : Array3) (reward : Q) (done : bool) :
  wf_world w ->
  select_action net eps d w = inr action ->
  raw_step (Env.raw (env w)) action = Some (raw', (obs, reward, done)) ->
  exists w' r older new_state a cur f,
    play_step net eps d w = inr (w', r) /\
    ExperienceBuffer.buffer (exp_buffer w')
    = older ++ [Experience.mk (agent_state w) action reward done new_state] /\
    new_state = length (heap w) /\
    Env.buffer (env w) = Some a /\ read (heap w) a = Some cur /\
    ImageWrapper._observation imresize obs = [f] /\
    read (heap w') new_state = Some (skipn 1 cur ++ [f]) /\
    read (heap w') (agent_state w) = read (heap w) (agent_state w) /\
    (done = false ->
     agent_state w' = new_state /\ read (heap w') a = read (heap w') new_state) /\
    (done = true ->
     exists f0,
       ImageWrapper._observation imresize (snd (raw_reset raw')) = [f0] /\
       new_state < agent_state w' /\
       read (heap w') (agent_state w')
       = Some [zero_plane; zero_plane; zero_plane; f0]).
Proof.
  intros Hwf Hsel Hraw.
  destruct (play_step_unfold net eps d w action raw' obs reward done Hwf Hsel Hraw)
    as (a & b0 & b1 & b2 & b3 & f & f0 & Hb & Ha & Hr & Hobs & Hobs0 & Hstep).
  cbv zeta in Hstep.
  destruct Hwf as (_ & [Hs Hsa] & Hcap & _).
  set (out := [b1; b2; b3; f]) in *.
  set (h1 := write (heap w) a out) in *.
  assert (Hlen1 : length h1 = length (heap w)) by apply write_length.
  assert (Hnew : read (h1 ++ [out]) (length (heap w)) = Some out).
  { rewrite <- Hlen1, <- (Nat.add_0_r (length h1)). apply read_app_new. }
  assert (Hold : read (h1 ++ [out]) (agent_state w) = read (heap w) (agent_state w)).
  { rewrite read_app_old by lia. apply read_write_other. congruence. }
  assert (Hlen2 : length (h1 ++ [out]) = S (length (heap w))).
  { rewrite length_app, Hlen1. simpl. lia. }
  set (exp := Experience.mk (agent_state w) action reward done (length (heap w))) in *.
  set (b := ExperienceBuffer.buffer (exp_buffer w)) in *.
  assert (Hlast : skipn (length (b ++ [exp])
                         - Z.to_nat (ExperienceBuffer.capacity (exp_buffer w)))
                        (b ++ [exp])
                  = skipn (length (b ++ [exp])
                           - Z.to_nat (ExperienceBuffer.capacity (exp_buffer w))) b
                    ++ [exp]).
  { apply skipn_snoc_keep. rewrite length_app. simpl. lia. }
  rewrite Hstep.
  destruct done; do 2 eexists;
    exists (skipn (length (b ++ [exp])
                   - Z.to_nat (ExperienceBuffer.capacity (exp_buffer w))) b),
           (length (heap w)), a, [b0; b1; b2; b3], f;
    (split; [reflexivity|]); cbn [exp_buffer ExperienceBuffer.buffer heap agent_state];
    (split; [exact Hlast|]); (split; [reflexivity|]); (split; [exact Hb|]);
    (split; [exact Hr|]); (split; [exact Hobs|]).
  - split; [rewrite read_app_old by lia; exact Hnew|].
    split; [rewrite read_app_old by lia; exact Hold|].
    split; [discriminate|]. intros _. exists f0. split; [exact Hobs0|].
    split; [lia|].
    rewrite <- Hlen2. rewrite <- (Nat.add_1_r (length (h1 ++ [out]))).
    apply read_app_new.
  - split; [exact Hnew|]. split; [exact Hold|].
    split; [|discriminate]. intros _. split; [reflexivity|].
    rewrite Hnew, read_app_old by lia. now apply read_write_same.
Qed.

(** X16.  When the draw is not below epsilon, [play_step] acts
    greedily: the action is the position of a largest value the given
    network computes for the agent's current state, and the first such
    position when several values tie. *)
Theorem select_action_greedy (params : TargetNet.StateDict) (eps : Q)
        (d : Draws) (w : World) :
  wf_world w -> Qltb (u d) eps = false ->
  exists state_v i,
    read (heap w) (agent_state w) = Some state_v /\
    select_action (Some params) eps d w = inr (Z.of_nat i) /\
    (0 <= Z.of_nat i < n_actions)%Z /\
    (forall j, j < length (forward params state_v) ->
               (nth j (forward params state_v) 0 <= nth i (forward params state_v) 0)%Q) /\
    (forall j, j < i ->
               (nth j (forward params state_v) 0 < nth i (forward params state_v) 0)%Q).
Proof.
  intros (_ & [Hs _] & _) Hlt.
  destruct (read (heap w) (agent_state w)) as [state_v|] eqn:Hread.
  2:{ apply nth_error_None in Hread. lia. }
  destruct (argmax (forward params state_v)) as [i|] eqn:Hmax.
  2:{ specialize (forward_width params state_v).
      destruct (forward params state_v); simpl in *; [lia | discriminate]. }
  destruct (argmax_first_max _ _ Hmax) as (Hi & Hle & Hfirst).
  exists state_v, i. split; [reflexivity|].
  split.
  { unfold Train.select_action. rewrite Hlt, Hread. cbn [lift rbind].
    rewrite Hmax. reflexivity. }
  split; [rewrite <- (forward_width params state_v); lia|].
  split; assumption.
Qed.

(** X17.  With [net = None], [play_step] returns exactly when the draw
    is below epsilon; otherwise it fails on calling [None].  With the
    default [epsilon = 0.0] it therefore fails for every draw. *)
Theorem play_step_without_net (eps : Q) (d : Draws) (w : World) :
  wf_world w -> valid_draws d ->
  ((exists r, play_step None eps d w = inr r) <-> (u d < eps)%Q) /\
  (~ (u d < eps)%Q -> play_step None eps d w = inl NoneNotCallable) /\
  play_step None 0%Q d w = inl NoneNotCallable.
Proof.
  intros Hwf Hd.
  assert (Hfail : forall e, ~ (u d < e)%Q ->
                            play_step None e d w = inl NoneNotCallable).
  { intros e Hge.
    apply (select_action_none_raises RawEnv raw_reset raw_step imresize forward
             n_actions e d w Hwf).
    apply Qltb_ge. now apply Qnot_lt_le. }
  split; [split|split].
  - intros [r Hr]. destruct (Qlt_le_dec (u d) eps) as [Hlt|Hge]; [exact Hlt|].
    rewrite Hfail in Hr by (now apply Qle_not_lt). discriminate.
  - intros Hlt.
    destruct (play_step_ok RawEnv raw_reset raw_step imresize forward n_actions chan
                imresize_shape raw_step_ok forward_width n_actions_pos
                None eps d w Hwf Hd) as (w' & action & reward & done & a & Hstep & _).
    { left. apply Qltb_lt. exact Hlt. }
    eexists. exact Hstep.
  - exact (Hfail eps).
  - apply Hfail. apply Qle_not_lt. exact (proj1 Hd).
Qed.

(** ** The warm-up loop and the learning loop as runs *)

Local Abbreviation step_ok :=
  (play_step_ok RawEnv raw_reset raw_step imresize forward n_actions chan
                imresize_shape raw_step_ok forward_width n_actions_pos).

Lemma play_step_wf (net : option TargetNet.StateDict) (eps : Q) (d : Draws)
      (w w1 : World) (r : option Q) :
  wf_world w -> valid_draws d ->
  Qltb (u d) eps = true \/ net <> None ->
  play_step net eps d w = inr (w1, r) ->
  wf_world w1.
Proof.
  intros Hwf Hd Hpol Hstep.
  destruct (step_ok net eps d w Hwf Hd Hpol)
    as (w' & action & reward & done & a & Hstep' & Hwf' & _).
  rewrite Hstep in Hstep'. inversion Hstep'. subst w'. exact Hwf'.
Qed.

Lemma actions_of_app (xs ys : list Env.call) :
  actions_of (xs ++ ys) = actions_of xs ++ actions_of ys.
Proof. unfold actions_of. apply flat_map_app. Qed.

Lemma resets_of_app (xs ys : list Env.call) :
  resets_of (xs ++ ys) = resets_of xs + resets_of ys.
Proof. unfold resets_of. now rewrite filter_app, length_app. Qed.

(** Random steps while the buffer has room: the buffer, the simulator's
    call log and the agent's running reward stay in step. *)
Lemma random_steps_trace (steps : list (option TargetNet.StateDict * Q * Draws)) :
  forall w : World,
    wf_world w ->
    Forall (fun s => valid_draws (snd s) /\ Qltb (u (snd s)) (snd (fst s)) = true)
           steps ->
    (Z.of_nat (ExperienceBuffer.len (exp_buffer w) + length steps)
     <= ExperienceBuffer.capacity (exp_buffer w))%Z ->
    exists w' exps,
      play_steps steps w = inr w' /\ wf_world w' /\
      ExperienceBuffer.buffer (exp_buffer w')
      = ExperienceBuffer.buffer (exp_buffer w) ++ exps /\
      ExperienceBuffer.capacity (exp_buffer w')
      = ExperienceBuffer.capacity (exp_buffer w) /\
      map (@Experience.action addr) exps = map (fun s => rand_action (snd s)) steps /\
      actions_of (Env.calls (env w'))
      = actions_of (Env.calls (env w)) ++ map (@Experience.action addr) exps /\
      resets_of (Env.calls (env w'))
      = resets_of (Env.calls (env w)) + episodes_ended exps /\
      total_reward w' = running_reward (total_reward w) exps.
Proof.
  induction steps as [|[[net eps] d] steps IH]; intros w Hwf Hsteps Hroom.
  - exists w, []. cbn [Train.play_steps map running_reward].
    rewrite !app_nil_r. unfold episodes_ended. cbn. rewrite Nat.add_0_r. auto 10.
  - inversion Hsteps as [|? ? [Hd Hlt] Hrest]; subst. cbn [snd fst] in Hd, Hlt.
    assert (Hsel : select_action net eps d w = inr (rand_action d)).
    { unfold Train.select_action. now rewrite Hlt. }
    destruct (raw_step_ok (Env.raw (env w)) (rand_action d))
      as ([raw' [[obs reward] done]] & Hraw).
    { exact (proj1 (proj2 (proj2 Hd))). }
    destruct (play_step_unfold net eps d w _ raw' obs reward done Hwf Hsel Hraw)
      as (a & b0 & b1 & b2 & b3 & f & f0 & _ & _ & _ & _ & _ & Hstep).
    cbv zeta in Hstep. cbn [length] in Hroom. unfold ExperienceBuffer.len in *.
    rewrite append_len in Hstep by (rewrite length_app; simpl length; lia).
    set (exp := Experience.mk (agent_state w) (rand_action d) reward done
                              (length (heap w))) in *.
    match type of Hstep with
    | _ = inr ?res => set (w1 := fst res) in *; set (r1 := snd res) in *;
                      assert (Hstep1 : play_step net eps d w = inr (w1, r1))
                        by (rewrite Hstep; unfold w1, r1; now destruct done)
    end.
    assert (Hwf1 : wf_world w1).
    { apply (play_step_wf net eps d w w1 r1 Hwf Hd); [now left | exact Hstep1]. }
    assert (Hbuf1 : exp_buffer w1
                    = ExperienceBuffer.mk (ExperienceBuffer.capacity (exp_buffer w))
                        (ExperienceBuffer.buffer (exp_buffer w) ++ [exp])).
    { unfold w1. now destruct done. }
    assert (Hcalls1 : Env.calls (env w1)
                      = Env.calls (env w)
                        ++ Env.Step (rand_action d) :: (if done then [Env.Reset] else [])).
    { unfold w1. now destruct done. }
    assert (Htotal1 : total_reward w1
                      = (if done then 0 else total_reward w + reward)%Q).
    { unfold w1. now destruct done. }
    clearbody w1 r1.
    destruct (IH w1 Hwf1 Hrest)
      as (w2 & exps & Hrun & Hwf2 & Hbuf2 & Hcap2 & Hact2 & Hcalls2 & Hres2 & Htot2).
    { rewrite Hbuf1. cbn [ExperienceBuffer.buffer ExperienceBuffer.capacity].
      rewrite length_app. simpl length. lia. }
    exists w2, (exp :: exps). cbn [Train.play_steps]. rewrite Hstep1. cbn [rbind fst].
    split; [exact Hrun|]. split; [exact Hwf2|].
    rewrite Hbuf1 in Hbuf2, Hcap2.
    cbn [ExperienceBuffer.buffer ExperienceBuffer.capacity] in Hbuf2, Hcap2.
    split; [rewrite Hbuf2, <- app_assoc; reflexivity|].
    split; [exact Hcap2|].
    split; [cbn [map snd]; unfold exp; cbn [Experience.action]; now rewrite Hact2|].
    split.
    { rewrite Hcalls2, Hcalls1, actions_of_app, <- app_assoc. f_equal.
      unfold exp. cbn [map Experience.action]. now destruct done. }
    split.
    { rewrite Hres2, Hcalls1, resets_of_app. unfold episodes_ended, exp.
      cbn [filter Experience.done].
      destruct done; cbn; lia. }
    rewrite Htot2, Htotal1. reflexivity.
Qed.

(** Lines 185-192 written out. *)
Lemma main_init_unfold (raw0 : RawEnv) (params0 : TargetNet.StateDict) :
  NoDup (TargetNet.keys params0) ->
  exists w0,
    main_init raw0 params0
    = inr (mkState w0 (TargetNet.init params0) None 1%Q 0%Z None []) /\
    wf_world w0 /\
    exp_buffer w0 = ExperienceBuffer.init (Experience.t addr) REPLAY_SIZE /\
    total_reward w0 = 0%Q /\
    Env.calls (env w0) = [Env.Reset].
Proof.
  intros Hnd.
  destruct (main_init_ok RawEnv raw_reset raw_low imresize G n_actions chan
              imresize_shape raw0 params0 Hnd) as (st0 & Hinit & [Hwf _] & _).
  revert Hinit. unfold Train.main_init, Train.agent_reset.
  destruct (env_reset_frame RawEnv raw_reset imresize chan imresize_shape
              (Env.make raw_low imresize raw0 4) [])
    as (e1 & out & Hreset & _ & _ & _ & Hcalls).
  { apply (make_low RawEnv raw_low imresize chan imresize_shape). }
  rewrite Hreset. cbn [lift rbind app length copy read nth_error bind alloc].
  intros Hinit. inversion Hinit; subst st0. cbn [world] in Hwf.
  eexists. split; [reflexivity|]. split; [exact Hwf|].
  cbn [exp_buffer total_reward env]. auto.
Qed.

(** The warm-up loop from the script's initial state, written out. *)
Lemma warmup_run (raw0 : RawEnv) (params0 : TargetNet.StateDict)
      (ds : nat -> Draws) :
  NoDup (TargetNet.keys params0) ->
  (forall i, valid_draws (ds i)) ->
  exists w0 w1,
    main_init raw0 params0
    = inr (mkState w0 (TargetNet.init params0) None 1%Q 0%Z None []) /\
    warmup ds (mkState w0 (TargetNet.init params0) None 1%Q 0%Z None [])
    = inr (mkState w1 (TargetNet.init params0) None 1%Q 0%Z None []) /\
    wf_world w1 /\
    ExperienceBuffer.capacity (exp_buffer w1) = REPLAY_SIZE /\
    length (ExperienceBuffer.buffer (exp_buffer w1)) = REPLAY_START_SIZE /\
    map (@Experience.action addr) (ExperienceBuffer.buffer (exp_buffer w1))
    = map (fun i => rand_action (ds i)) (seq 0 REPLAY_START_SIZE) /\
    actions_of (Env.calls (env w1))
    = map (@Experience.action addr) (ExperienceBuffer.buffer (exp_buffer w1)) /\
    resets_of (Env.calls (env w1))
    = 1 + episodes_ended (ExperienceBuffer.buffer (exp_buffer w1)) /\
    total_reward w1 = running_reward 0%Q (ExperienceBuffer.buffer (exp_buffer w1)).
Proof.
  intros Hnd Hds.
  destruct (main_init_unfold raw0 params0 Hnd)
    as (w0 & Hinit & Hwf & Hbuf & Htot & Hcalls).
  destruct (random_steps_trace
              (map (fun i => (None, 1%Q, ds i)) (seq 0 REPLAY_START_SIZE)) w0 Hwf)
    as (w1 & exps & Hrun & Hwf1 & Hbuf1 & Hcap1 & Hact & Hcalls1 & Hres & Htot1).
  { apply Forall_forall. intros s Hs. apply in_map_iff in Hs.
    destruct Hs as (i & <- & _). cbn [snd fst]. split; [apply Hds|].
    apply Qltb_lt. now destruct (Hds i) as (_ & Hu & _). }
  { rewrite Hbuf, length_map, length_seq. vm_compute. discriminate. }
  rewrite Hbuf in Hbuf1, Hcap1.
  cbn [ExperienceBuffer.init ExperienceBuffer.buffer ExperienceBuffer.capacity app]
    in Hbuf1, Hcap1.
  rewrite Hcalls in Hcalls1, Hres. rewrite Htot in Htot1.
  rewrite map_map in Hact. cbn [snd] in Hact.
  exists w0, w1. split; [exact Hinit|].
  unfold Train.warmup. cbn [world]. rewrite Hrun. cbn [rbind].
  split; [reflexivity|]. split; [exact Hwf1|]. split; [exact Hcap1|].
  rewrite Hbuf1.
  split.
  { rewrite <- (length_map (@Experience.action addr)), Hact, length_map.
    apply length_seq. }
  auto.
Qed.

(** X18.  The warm-up loop, from the script's initial state: it leaves
    5000 transitions in the buffer whose actions are the 5000 sampled
    actions in order; these are exactly the actions the simulator was
    stepped with; the simulator was reset once at the start and once
    after every transition that ended an episode; the agent's running
    reward is the sum of the rewards since the last such transition; and
    no network, gradient, loss, counter or log entry has been touched. *)
Theorem warmup_trace (raw0 : RawEnv) (params0 : TargetNet.StateDict)
        (ds : nat -> Draws) :
  NoDup (TargetNet.keys params0) ->
  (forall i, valid_draws (ds i)) ->
  exists st0 st1,
    main_init raw0 params0 = inr st0 /\
    warmup ds st0 = inr st1 /\
    let buf := ExperienceBuffer.buffer (exp_buffer (world st1)) in
    let calls := Env.calls (env (world st1)) in
    length buf = REPLAY_START_SIZE /\
    map (@Experience.action addr) buf
    = map (fun i => rand_action (ds i)) (seq 0 REPLAY_START_SIZE) /\
    actions_of calls = map (@Experience.action addr) buf /\
    resets_of calls = 1 + episodes_ended buf /\
    total_reward (world st1) = running_reward 0%Q buf /\
    tgt_net st1 = TargetNet.init params0 /\
    grads st1 = None /\ loss_v st1 = None /\
    epsilon st1 = 1%Q /\ frame_idx st1 = 0%Z /\ writer st1 = [].
Proof.
  intros Hnd Hds.
  destruct (warmup_run raw0 params0 ds Hnd Hds)
    as (w0 & w1 & Hinit & Hwarm & _ & _ & Hlen & Hact & Hcalls & Hres & Htot).
  eexists _, _. split; [exact Hinit|]. split; [exact Hwarm|].
  cbv zeta. cbn [world tgt_net grads loss_v epsilon frame_idx writer].
  auto 15.
Qed.

Local Abbreviation iter_ok :=
  (learning_iter_ok RawEnv raw_reset raw_step imresize forward G autograd n_actions
                    chan imresize_shape raw_step_ok forward_width n_actions_pos).

(** What one iteration of the learning loop does to the replay buffer
    and to the simulator, besides what [learning_iter_ok] records. *)
Lemma learning_iter_buffer (d : Draws) (st st' : State) :
  wf_state st -> valid_draws d ->
  learning_iter d st = inr st' ->
  ExperienceBuffer.len (exp_buffer (world st'))
  = Nat.min (S (ExperienceBuffer.len (exp_buffer (world st))))
            (Z.to_nat (ExperienceBuffer.capacity (exp_buffer (world st)))) /\
  ExperienceBuffer.capacity (exp_buffer (world st'))
  = ExperienceBuffer.capacity (exp_buffer (world st)) /\
  exists action,
    select_action (Some (TargetNet.target_model (tgt_net st))) (epsilon st) d (world st)
    = inr action /\
    actions_of (Env.calls (env (world st')))
    = actions_of (Env.calls (env (world st))) ++ [action].
Proof.
  intros Hwf Hd Hiter.
  destruct (step_ok (Some (TargetNet.target_model (tgt_net st))) (epsilon st) d
                    (world st) (proj1 Hwf) Hd)
    as (w1 & action & reward & done & a & Hstep & Hwf1 & Hsel & _ & _ & _ & Hbuf & _
        & Hcalls & _).
  { right; discriminate. }
  assert (Hw : world st' = w1).
  { revert Hiter. unfold Train.learning_iter, Train.play_phase.
    rewrite Hstep. cbn [rbind].
    match goal with
    | |- context [Train.learn_phase ?fw ?ag d ?s1] =>
        destruct (learn_phase_ok RawEnv fw G ag n_actions forward_width
                    n_actions_pos d s1) as (st2 & Hlearn & Hw2 & Htn2 & _);
        [split; [exact Hwf1 | exact (proj2 Hwf)] | exact Hd |]
    end.
    rewrite Hlearn. cbn [rbind].
    destruct (bookkeeping_ok RawEnv G st2) as (tn & Hbook & _).
    { rewrite Htn2. exact (proj2 Hwf). }
    rewrite Hbook. intros Hiter. inversion Hiter. cbn [world]. exact Hw2. }
  rewrite Hw, Hbuf. unfold ExperienceBuffer.len.
  cbn [ExperienceBuffer.buffer ExperienceBuffer.capacity].
  split; [rewrite length_skipn, length_app; simpl length; lia|].
  split; [reflexivity|].
  exists action. split; [exact Hsel|].
  rewrite Hcalls, actions_of_app. f_equal. now destruct done.
Qed.

(** The learning loop over any number of iterations. *)
Lemma learning_run (ds : list Draws) :
  forall st : State,
    wf_state st -> Forall valid_draws ds ->
    exists st',
      learning ds st = inr st' /\ wf_state st' /\
      net st' = net st /\
      frame_idx st' = (frame_idx st + Z.of_nat (length ds))%Z /\
      (ds <> [] -> epsilon st' = epsilon_of (frame_idx st' - 1)) /\
      ((Z.of_nat (ExperienceBuffer.len (exp_buffer (world st)))
        <= ExperienceBuffer.capacity (exp_buffer (world st)))%Z ->
       ExperienceBuffer.len (exp_buffer (world st'))
       = Nat.min (ExperienceBuffer.len (exp_buffer (world st)) + length ds)
                 (Z.to_nat (ExperienceBuffer.capacity (exp_buffer (world st))))) /\
      ExperienceBuffer.capacity (exp_buffer (world st'))
      = ExperienceBuffer.capacity (exp_buffer (world st)) /\
      length (actions_of (Env.calls (env (world st'))))
      = length (actions_of (Env.calls (env (world st)))) + length ds /\
      (TargetNet.target_model (tgt_net st) = net st ->
       TargetNet.target_model (tgt_net st') = net st) /\
      ((forall k, (frame_idx st <= k < frame_idx st + Z.of_nat (length ds))%Z ->
                  (k mod SYNC_TARGET_FRAMES)%Z <> 0%Z) ->
       TargetNet.target_model (tgt_net st') = TargetNet.target_model (tgt_net st)) /\
      ((exists k, (frame_idx st <= k < frame_idx st + Z.of_nat (length ds))%Z /\
                  (k mod SYNC_TARGET_FRAMES)%Z = 0%Z) ->
       TargetNet.target_model (tgt_net st') = net st).
Proof.
  induction ds as [|d ds IH]; intros st Hwf Hds.
  - exists st. cbn [Train.learning length].
    split; [reflexivity|]. split; [exact Hwf|]. split; [reflexivity|].
    split; [lia|]. split; [congruence|]. split; [lia|]. split; [reflexivity|].
    split; [lia|]. split; [auto|]. split; [auto|].
    intros (k & Hk & _). lia.
  - inversion Hds as [|? ? Hd Hrest]; subst.
    destruct (iter_ok d st Hwf Hd)
      as (st1 & action & done & Hiter & Hwf1 & _ & _ & Hnet1 & Htgt1 & Hidx1 & Heps1).
    destruct (learning_iter_buffer d st st1 Hwf Hd Hiter)
      as (Hlen1 & Hcap1 & action' & _ & Hact1).
    destruct (IH st1 Hwf1 Hrest)
      as (st2 & Hrun & Hwf2 & Hnet2 & Hidx2 & Heps2 & Hlen2 & Hcap2 & Hact2
          & Hsame2 & Hfrozen2 & Hsync2).
    exists st2. cbn [Train.learning]. rewrite Hiter. cbn [rbind].
    split; [exact Hrun|]. split; [exact Hwf2|]. split; [congruence|].
    assert (Hidx : frame_idx st2 = (frame_idx st + Z.of_nat (length (d :: ds)))%Z).
    { rewrite Hidx2, Hidx1. cbn [length]. lia. }
    split; [exact Hidx|].
    split.
    { intros _. destruct ds as [|d' ds'].
      - cbn [Train.learning] in Hrun. inversion Hrun; subst st2.
        rewrite Heps1, Hidx1. f_equal. lia.
      - apply Heps2. discriminate. }
    split.
    { intros Hle. rewrite Hlen2 by lia. rewrite Hcap1, Hlen1. cbn [length]. lia. }
    split; [congruence|].
    split; [rewrite Hact2, Hact1, length_app; cbn [length]; lia|].
    assert (Hkeep : TargetNet.target_model (tgt_net st) = net st ->
                    TargetNet.target_model (tgt_net st1) = net st1).
    { intros Heq. rewrite Htgt1, Hnet1, Heq. now destruct (_ =? _)%Z. }
    split; [intros Heq; rewrite (Hsame2 (Hkeep Heq)); exact Hnet1|].
    split.
    { intros Hnone. rewrite Hfrozen2.
      - rewrite Htgt1.
        destruct (Z.eqb_spec (frame_idx st mod SYNC_TARGET_FRAMES) 0) as [Hz|_];
          [|reflexivity].
        exfalso. apply (Hnone (frame_idx st)); [cbn [length]; lia | exact Hz].
      - intros k Hk. apply Hnone. cbn [length]. lia. }
    intros (k & Hk & Hz).
    destruct (Z.eq_dec k (frame_idx st)) as [->|Hne].
    + rewrite Hsame2; [exact Hnet1|].
      rewrite Htgt1, Hz, Hnet1. reflexivity.
    + rewrite Hsync2; [exact Hnet1|].
      exists k. split; [cbn [length] in Hk; lia | exact Hz].
Qed.

(** X19.  The loop recomputes epsilon after the agent has acted.  After
    one or more iterations the stored epsilon is the schedule's value
    for the previous frame index, so the action of the iteration with
    frame index [f >= 1] is chosen with the schedule's value for
    [f - 1]; only then is the value for [f] stored. *)
Theorem epsilon_lags_one_frame (ds : list Draws) (d : Draws) (st : State) :
  wf_state st -> Forall valid_draws ds -> valid_draws d -> ds <> [] ->
  exists st_n st' action,
    learning ds st = inr st_n /\
    frame_idx st_n = (frame_idx st + Z.of_nat (length ds))%Z /\
    epsilon st_n = epsilon_of (frame_idx st_n - 1) /\
    learning_iter d st_n = inr st' /\
    select_action (Some (TargetNet.target_model (tgt_net st_n)))
                  (epsilon_of (frame_idx st_n - 1)) d (world st_n)
    = inr action /\
    actions_of (Env.calls (env (world st')))
    = actions_of (Env.calls (env (world st_n))) ++ [action] /\
    epsilon st' = epsilon_of (frame_idx st_n).
Proof.
  intros Hwf Hds Hd Hne.
  destruct (learning_run ds st Hwf Hds)
    as (st_n & Hrun & Hwf_n & _ & Hidx & Heps & _).
  destruct (iter_ok d st_n Hwf_n Hd)
    as (st' & action0 & done & Hiter & _ & _ & _ & _ & _ & _ & Heps').
  destruct (learning_iter_buffer d st_n st' Hwf_n Hd Hiter)
    as (_ & _ & action & Hsel & Hact).
  exists st_n, st', action.
  split; [exact Hrun|]. split; [exact Hidx|]. split; [exact (Heps Hne)|].
  split; [exact Hiter|]. rewrite <- (Heps Hne). auto.
Qed.

(** X20.  Every iteration of the learning loop adds one transition to
    the replay buffer and the buffer never holds more than its
    capacity: after [n] iterations it holds [min (len + n) capacity]
    transitions. *)
Theorem replay_size_during_learning (ds : list Draws) (st : State) :
  wf_state st -> Forall valid_draws ds ->
  (Z.of_nat (ExperienceBuffer.len (exp_buffer (world st)))
   <= ExperienceBuffer.capacity (exp_buffer (world st)))%Z ->
  exists st',
    learning ds st = inr st' /\
    ExperienceBuffer.len (exp_buffer (world st'))
    = Nat.min (ExperienceBuffer.len (exp_buffer (world st)) + length ds)
              (Z.to_nat (ExperienceBuffer.capacity (exp_buffer (world st)))) /\
    ExperienceBuffer.capacity (exp_buffer (world st'))
    = ExperienceBuffer.capacity (exp_buffer (world st)).
Proof.
  intros Hwf Hds Hle.
  destruct (learning_run ds st Hwf Hds)
    as (st' & Hrun & _ & _ & _ & _ & Hlen & Hcap & _).
  exists st'. auto.
Qed.

(** X21.  Over a run of the learning loop the target network changes
    only at frame indices that are multiples of [SYNC_TARGET_FRAMES]:
    with no such index in the run it keeps its parameters, and with one
    it ends with the parameters the value network had when the run
    started. *)
Theorem target_changes_only_at_sync (ds : list Draws) (st : State) :
  wf_state st -> Forall valid_draws ds ->
  exists st',
    learning ds st = inr st' /\
    ((forall k, (frame_idx st <= k < frame_idx st + Z.of_nat (length ds))%Z ->
                (k mod SYNC_TARGET_FRAMES)%Z <> 0%Z) ->
     TargetNet.target_model (tgt_net st') = TargetNet.target_model (tgt_net st)) /\
    ((exists k, (frame_idx st <= k < frame_idx st + Z.of_nat (length ds))%Z /\
                (k mod SYNC_TARGET_FRAMES)%Z = 0%Z) ->
     TargetNet.target_model (tgt_net st') = net st).
Proof.
  intros Hwf Hds.
  destruct (learning_run ds st Hwf Hds)
    as (st' & Hrun & _ & _ & _ & _ & _ & _ & _ & _ & Hfrozen & Hsync).
  exists st'. auto.
Qed.

(** X22.  The script as a whole, for any number of learning iterations:
    initialisation, warm-up and the learning loop all run; the frame
    counter counts the learning iterations only, so the simulator has
    been stepped [REPLAY_START_SIZE] times more often than the counter
    says; the buffer holds [min (5000 + n) 20000] transitions; and both
    networks still hold the initial parameters. *)
Theorem script_run (raw0 : RawEnv) (params0 : TargetNet.StateDict)
        (ds0 : nat -> Draws) (ds : list Draws) :
  NoDup (TargetNet.keys params0) ->
  (forall i, valid_draws (ds0 i)) -> Forall valid_draws ds ->
  exists st0 st1 st2,
    main_init raw0 params0 = inr st0 /\
    warmup ds0 st0 = inr st1 /\
    learning ds st1 = inr st2 /\
    frame_idx st2 = Z.of_nat (length ds) /\
    length (actions_of (Env.calls (env (world st2))))
    = REPLAY_START_SIZE + length ds /\
    ExperienceBuffer.len (exp_buffer (world st2))
    = Nat.min (REPLAY_START_SIZE + length ds) (Z.to_nat REPLAY_SIZE) /\
    net st2 = params0 /\
    TargetNet.target_model (tgt_net st2) = params0.
Proof.
  intros Hnd Hds0 Hds.
  destruct (warmup_run raw0 params0 ds0 Hnd Hds0)
    as (w0 & w1 & Hinit & Hwarm & Hwf1 & Hcap1 & Hlen1 & _ & Hcalls1 & _).
  set (st1 := mkState w1 (TargetNet.init params0) None 1%Q 0%Z None []) in *.
  assert (Hwf : wf_state st1).
  { split; [exact Hwf1 | apply init_wf; exact Hnd]. }
  destruct (learning_run ds st1 Hwf Hds)
    as (st2 & Hrun & _ & Hnet & Hidx & _ & Hlen & _ & Hact & Hsame & _).
  eexists _, st1, st2. split; [exact Hinit|]. split; [exact Hwarm|].
  split; [exact Hrun|].
  cbn [st1 world frame_idx tgt_net Train.net TargetNet.init TargetNet.model
       TargetNet.target_model] in Hidx, Hlen, Hact, Hsame, Hnet.
  unfold ExperienceBuffer.len in *. rewrite Hcap1, Hlen1 in Hlen.
  rewrite Hcalls1, length_map, Hlen1 in Hact.
  split; [rewrite Hidx; lia|]. split; [exact Hact|].
  split; [apply Hlen; vm_compute; discriminate|].
  split; [exact Hnet | exact (Hsame eq_refl)].
Qed.
End TrainMore.

Lemma play_step_reward_accounting_witness :
  let w := Train.world Instances.toy_start in
  Train.wf_world 6 w /\
  Train.select_action Instances.toy_forward None 1%Q (Instances.toy_draws 1) w
  = inr 1%Z /\
  Instances.toy_raw_step (Env.raw (Train.env w)) 1
  = Some (1, (Instances.toy_frame 1, 1%Q, false)) /\
  exists w',
    Train.play_step Instances.toy_raw_reset Instances.toy_raw_step
                    Instances.toy_imresize Instances.toy_forward
                    None 1%Q (Instances.toy_draws 1) w
    = inr (w', None) /\
    Train.total_reward w' = (Train.total_reward w + 1)%Q.
Proof.
  intros w.
  pose proof (proj1 (proj2 toy_start_wf)) as Hwf.
  assert (Hsel : Train.select_action Instances.toy_forward None 1%Q
                                     (Instances.toy_draws 1) w = inr 1%Z)
    by reflexivity.
  assert (Hraw : Instances.toy_raw_step (Env.raw (Train.env w)) 1
                 = Some (1, (Instances.toy_frame 1, 1%Q, false)))
    by (vm_compute; reflexivity).
  split; [exact Hwf|]. split; [exact Hsel|]. split; [exact Hraw|].
  destruct (play_step_reward_accounting
              nat Instances.toy_raw_reset Instances.toy_raw_step
              Instances.toy_imresize Instances.toy_forward 6 3 toy_imresize_shape
              None 1%Q (Instances.toy_draws 1) w 1%Z 1 (Instances.toy_frame 1) 1%Q
              false Hwf Hsel Hraw) as (w' & Hstep & Htot & _).
  exists w'. split; [exact Hstep | exact Htot].
Defined.

Lemma play_step_state_chaining_witness :
  let w := Train.world Instances.toy_start in
  Train.wf_world 6 w /\
  Train.select_action Instances.toy_forward None 1%Q (Instances.toy_draws 0) w
  = inr 0%Z /\
  Instances.toy_raw_step (Env.raw (Train.env w)) 0
  = Some (1, (Instances.toy_frame 1, 0%Q, false)) /\
  exists w' r older,
    Train.play_step Instances.toy_raw_reset Instances.toy_raw_step
                    Instances.toy_imresize Instances.toy_forward
                    None 1%Q (Instances.toy_draws 0) w
    = inr (w', r) /\
    ExperienceBuffer.buffer (Train.exp_buffer w')
    = older ++ [Experience.mk (Train.agent_state w) 0%Z 0%Q false
                              (length (Train.heap w))] /\
    Train.agent_state w' = length (Train.heap w).
Proof.
  intros w.
  pose proof (proj1 (proj2 toy_start_wf)) as Hwf.
  assert (Hsel : Train.select_action Instances.toy_forward None 1%Q
                                     (Instances.toy_draws 0) w = inr 0%Z)
    by reflexivity.
  assert (Hraw : Instances.toy_raw_step (Env.raw (Train.env w)) 0
                 = Some (1, (Instances.toy_frame 1, 0%Q, false)))
    by (vm_compute; reflexivity).
  split; [exact Hwf|]. split; [exact Hsel|]. split; [exact Hraw|].
  destruct (play_step_state_chaining
              nat Instances.toy_raw_reset Instances.toy_raw_step
              Instances.toy_imresize Instances.toy_forward 6 3 toy_imresize_shape
              None 1%Q (Instances.toy_draws 0) w 0%Z 1 (Instances.toy_frame 1) 0%Q
              false Hwf Hsel Hraw)
    as (w' & r & older & new_state & a & cur & f & Hstep & Hbuf & Hnew & _ & _ & _
        & _ & _ & Hgo & _).
  exists w', r, older. split; [exact Hstep|]. rewrite <- Hnew.
  split; [exact Hbuf | exact (proj1 (Hgo eq_refl))].
Defined.

Lemma select_action_greedy_witness :
  let w := Train.world Instances.toy_start in
  Train.wf_world 6 w /\
  Qltb (Train.u (Instances.toy_draws 0)) 0%Q = false /\
  exists state_v i,
    read (Train.heap w) (Train.agent_state w) = Some state_v /\
    Train.select_action Instances.toy_forward (Some Instances.toy_params) 0%Q
                        (Instances.toy_draws 0) w
    = inr (Z.of_nat i) /\
    forall j, j < length (Instances.toy_forward Instances.toy_params state_v) ->
              (nth j (Instances.toy_forward Instances.toy_params state_v) 0
               <= nth i (Instances.toy_forward Instances.toy_params state_v) 0)%Q.
Proof.
  intros w.
  pose proof (proj1 (proj2 toy_start_wf)) as Hwf.
  split; [exact Hwf|]. split; [reflexivity|].
  destruct (select_action_greedy nat Instances.toy_forward 6 toy_forward_width eq_refl
              Instances.toy_params 0%Q (Instances.toy_draws 0) w Hwf eq_refl)
    as (state_v & i & Hread & Hsel & _ & Hmax & _).
  exists state_v, i. split; [exact Hread|]. split; [exact Hsel | exact Hmax].
Defined.

Lemma play_step_without_net_witness :
  let w := Train.world Instances.toy_start in
  Train.wf_world 6 w /\
  Train.valid_draws 6 (Instances.toy_draws 0) /\
  Train.play_step Instances.toy_raw_reset Instances.toy_raw_step
                  Instances.toy_imresize Instances.toy_forward
                  None 0%Q (Instances.toy_draws 0) w
  = inl Train.NoneNotCallable.
Proof.
  intros w.
  pose proof (proj1 (proj2 toy_start_wf)) as Hwf.
  split; [exact Hwf|]. split; [exact (toy_draws_valid 0)|].
  exact (proj2 (proj2 (play_step_without_net
                         nat Instances.toy_raw_reset Instances.toy_raw_step
                         Instances.toy_imresize Instances.toy_forward 6 3
                         toy_imresize_shape toy_raw_step_ok toy_forward_width eq_refl
                         0%Q (Instances.toy_draws 0) w Hwf (toy_draws_valid 0)))).
Defined.

Lemma warmup_trace_witness :
  NoDup (TargetNet.keys Instances.toy_params) /\
  (forall i, Train.valid_draws 6 (Instances.toy_draws i)) /\
  exists st0 st1,
    Train.main_init Instances.toy_raw_reset Instances.toy_raw_low
                    Instances.toy_imresize Q 0 Instances.toy_params
    = inr st0 /\
    Train.warmup Instances.toy_raw_reset Instances.toy_raw_step Instances.toy_imresize
                 Instances.toy_forward Instances.toy_draws st0
    = inr st1 /\
    length (ExperienceBuffer.buffer (Train.exp_buffer (Train.world st1)))
    = REPLAY_START_SIZE /\
    actions_of (Env.calls (Train.env (Train.world st1)))
    = map (@Experience.action addr)
          (ExperienceBuffer.buffer (Train.exp_buffer (Train.world st1))).
Proof.
  split; [exact toy_params_keys|]. split; [exact toy_draws_valid|].
  destruct (warmup_trace nat Instances.toy_raw_reset Instances.toy_raw_step
              Instances.toy_raw_low Instances.toy_imresize Instances.toy_forward
              Q 6 3 toy_imresize_shape toy_raw_step_ok toy_forward_width eq_refl
              0 Instances.toy_params Instances.toy_draws
              toy_params_keys toy_draws_valid)
    as (st0 & st1 & Hinit & Hwarm & Hlen & _ & Hact & _).
  exists st0, st1. auto.
Defined.

Lemma epsilon_lags_one_frame_witness :
  Train.wf_state 6 Instances.toy_start /\
  Forall (Train.valid_draws 6) [Instances.toy_draws 0] /\
  Train.valid_draws 6 (Instances.toy_draws 1) /\
  [Instances.toy_draws 0] <> [] /\
  exists st_n,
    Train.learning Instances.toy_raw_reset Instances.toy_raw_step Instances.toy_imresize
                   Instances.toy_forward Instances.toy_autograd
                   [Instances.toy_draws 0] Instances.toy_start
    = inr st_n /\
    Train.epsilon st_n = epsilon_of (Train.frame_idx st_n - 1).
Proof.
  pose proof (proj2 toy_start_wf) as Hwf.
  assert (Hds : Forall (Train.valid_draws 6) [Instances.toy_draws 0]).
  { constructor; [apply toy_draws_valid | constructor]. }
  assert (Hne : [Instances.toy_draws 0] <> []) by discriminate.
  split; [exact Hwf|]. split; [exact Hds|]. split; [exact (toy_draws_valid 1)|].
  split; [exact Hne|].
  destruct (epsilon_lags_one_frame
              nat Instances.toy_raw_reset Instances.toy_raw_step Instances.toy_imresize
              Instances.toy_forward Q Instances.toy_autograd 6 3
              toy_imresize_shape toy_raw_step_ok toy_forward_width eq_refl
              [Instances.toy_draws 0] (Instances.toy_draws 1) Instances.toy_start
              Hwf Hds (toy_draws_valid 1) Hne)
    as (st_n & st' & action & Hrun & _ & Heps & _).
  exists st_n. split; [exact Hrun | exact Heps].
Defined.

Lemma replay_size_during_learning_witness :
  let ds := [Instances.toy_draws 0; Instances.toy_draws 1] in
  Train.wf_state 6 Instances.toy_start /\
  Forall (Train.valid_draws 6) ds /\
  (Z.of_nat (ExperienceBuffer.len (Train.exp_buffer (Train.world Instances.toy_start)))
   <= ExperienceBuffer.capacity (Train.exp_buffer (Train.world Instances.toy_start)))%Z /\
  exists st',
    Train.learning Instances.toy_raw_reset Instances.toy_raw_step Instances.toy_imresize
                   Instances.toy_forward Instances.toy_autograd ds Instances.toy_start
    = inr st' /\
    ExperienceBuffer.len (Train.exp_buffer (Train.world st'))
    = Nat.min
        (ExperienceBuffer.len (Train.exp_buffer (Train.world Instances.toy_start)) + 2)
        (Z.to_nat (ExperienceBuffer.capacity
                     (Train.exp_buffer (Train.world Instances.toy_start)))).
Proof.
  intros ds.
  pose proof (proj2 toy_start_wf) as Hwf.
  assert (Hds : Forall (Train.valid_draws 6) ds).
  { constructor; [apply toy_draws_valid|].
    constructor; [apply toy_draws_valid | constructor]. }
  assert (Hle : (Z.of_nat (ExperienceBuffer.len
                             (Train.exp_buffer (Train.world Instances.toy_start)))
                 <= ExperienceBuffer.capacity
                      (Train.exp_buffer (Train.world Instances.toy_start)))%Z)
    by (vm_compute; discriminate).
  split; [exact Hwf|]. split; [exact Hds|]. split; [exact Hle|].
  destruct (replay_size_during_learning
              nat Instances.toy_raw_reset Instances.toy_raw_step Instances.toy_imresize
              Instances.toy_forward Q Instances.toy_autograd 6 3
              toy_imresize_shape toy_raw_step_ok toy_forward_width eq_refl
              ds Instances.toy_start Hwf Hds Hle)
    as (st' & Hrun & Hlen & _).
  exists st'. split; [exact Hrun | exact Hlen].
Defined.

Lemma target_changes_only_at_sync_witness :
  Train.wf_state 6 Instances.toy_start /\
  Forall (Train.valid_draws 6) [Instances.toy_draws 0] /\
  exists st',
    Train.learning Instances.toy_raw_reset Instances.toy_raw_step Instances.toy_imresize
                   Instances.toy_forward Instances.toy_autograd
                   [Instances.toy_draws 0] Instances.toy_start
    = inr st' /\
    TargetNet.target_model (Train.tgt_net st') = Train.net Instances.toy_start.
Proof.
  pose proof (proj2 toy_start_wf) as Hwf.
  assert (Hds : Forall (Train.valid_draws 6) [Instances.toy_draws 0]).
  { constructor; [apply toy_draws_valid | constructor]. }
  split; [exact Hwf|]. split; [exact Hds|].
  destruct (target_changes_only_at_sync
              nat Instances.toy_raw_reset Instances.toy_raw_step Instances.toy_imresize
              Instances.toy_forward Q Instances.toy_autograd 6 3
              toy_imresize_shape toy_raw_step_ok toy_forward_width eq_refl
              [Instances.toy_draws 0] Instances.toy_start Hwf Hds)
    as (st' & Hrun & _ & Hsync).
  exists st'. split; [exact Hrun|]. apply Hsync.
  exists (Train.frame_idx Instances.toy_start).
  vm_compute. repeat split; discriminate.
Defined.

Lemma script_run_witness :
  NoDup (TargetNet.keys Instances.toy_params) /\
  (forall i, Train.valid_draws 6 (Instances.toy_draws i)) /\
  Forall (Train.valid_draws 6) [Instances.toy_draws 0] /\
  exists st0 st1 st2,
    Train.main_init Instances.toy_raw_reset Instances.toy_raw_low
                    Instances.toy_imresize Q 0 Instances.toy_params
    = inr st0 /\
    Train.warmup Instances.toy_raw_reset Instances.toy_raw_step Instances.toy_imresize
                 Instances.toy_forward Instances.toy_draws st0
    = inr st1 /\
    Train.learning Instances.toy_raw_reset Instances.toy_raw_step Instances.toy_imresize
                   Instances.toy_forward Instances.toy_autograd
                   [Instances.toy_draws 0] st1
    = inr st2 /\
    Train.frame_idx st2 = 1%Z /\
    length (actions_of (Env.calls (Train.env (Train.world st2))))
    = REPLAY_START_SIZE + 1 /\
    TargetNet.target_model (Train.tgt_net st2) = Instances.toy_params.
Proof.
  assert (Hds : Forall (Train.valid_draws 6) [Instances.toy_draws 0]).
  { constructor; [apply toy_draws_valid | constructor]. }
  split; [exact toy_params_keys|]. split; [exact toy_draws_valid|].
  split; [exact Hds|].
  destruct (script_run nat Instances.toy_raw_reset Instances.toy_raw_step
              Instances.toy_raw_low Instances.toy_imresize Instances.toy_forward
              Q Instances.toy_autograd 6 3
              toy_imresize_shape toy_raw_step_ok toy_forward_width eq_refl
              0 Instances.toy_params Instances.toy_draws [Instances.toy_draws 0]
              toy_params_keys toy_draws_valid Hds)
    as (st0 & st1 & st2 & Hinit & Hwarm & Hrun & Hidx & Hact & _ & _ & Htgt).
  exists st0, st1, st2. auto 10.
Defined.

(** ** The wrapped environment before its first reset *)

Section EnvMore.
Variable RawEnv : Type.
Variable raw_reset : RawEnv -> RawEnv * Array3.
Variable raw_step : RawEnv -> Z -> option (RawEnv * (Array3 * Q * bool)).
Variable raw_low : Array3.
Variable imresize : Array3 -> nat * nat -> Array3.
Variable chan : nat.
Hypothesis imresize_shape :
  forall img, has_shape3 110 84 chan (imresize img (110, 84)) = true.

(** X23.  [BufferWrapper(ImageWrapper(env), n_steps)] announces
    observations of shape [n_steps] x 84 x 84, whatever the simulator's
    frames look like.  Its buffer exists only after the first reset:
    [step] on a freshly wrapped environment fails for every action.
    With [n_steps = 0] even [reset] fails, on writing the last slot of
    an empty buffer. *)
Theorem wrapped_env_before_reset (raw0 : RawEnv) (n_steps : nat)
        (h : Heap) (action : Z) :
  has_shape3 n_steps 84 84 (Env.low (Env.make raw_low imresize raw0 n_steps)) = true /\
  Env.step raw_step imresize (Env.make raw_low imresize raw0 n_steps) h action = None /\
  Env.reset raw_reset imresize (Env.make raw_low imresize raw0 0) h = None.
Proof.
  split; [|split].
  - unfold Env.make; cbn [Env.low].
    destruct (observation_frame imresize chan imresize_shape raw_low)
      as (f & -> & Hf).
    unfold zeros_like, BufferWrapper.repeat_axis0. cbn [map flat_map].
    rewrite app_nil_r.
    assert (Hz : has_shape2 84 84 (map (map (fun _ : Q => 0%Q)) f) = true).
    { apply has_shape2_spec in Hf. destruct Hf as [Hl Hr].
      apply has_shape2_spec. rewrite length_map. split; [exact Hl|].
      apply Forall_forall. intros row Hrow. apply in_map_iff in Hrow.
      destruct Hrow as (row0 & <- & Hrow0). rewrite length_map.
      rewrite Forall_forall in Hr. now apply Hr. }
    apply has_shape3_spec. split; [apply repeat_length|].
    apply Forall_forall. intros p Hp. apply repeat_spec in Hp. now subst p.
  - unfold Env.step, Env.make. cbn [Env.raw].
    destruct (raw_step raw0 action) as [[raw' [[obs reward] done]]|];
      reflexivity.
  - unfold Env.reset, Env.make. cbn [Env.low Env.raw alloc Env.calls].
    destruct (observation_frame imresize chan imresize_shape raw_low)
      as (f & -> & _).
    destruct (raw_reset raw0) as [raw' obs].
    unfold Env._observation, zeros_like, BufferWrapper.repeat_axis0.
    cbn [Env.buffer bind map flat_map repeat app].
    unfold read. rewrite nth_error_app2, Nat.sub_diag by lia. reflexivity.
Qed.

End EnvMore.

Lemma wrapped_env_before_reset_witness :
  (forall img, has_shape3 110 84 3 (Instances.toy_imresize img (110, 84)) = true) /\
  has_shape3 4 84 84
             (Env.low (Env.make Instances.toy_raw_low Instances.toy_imresize 0 4))
  = true /\
  Env.step Instances.toy_raw_step Instances.toy_imresize
           (Env.make Instances.toy_raw_low Instances.toy_imresize 0 4) [] 0
  = None.
Proof.
  split; [exact toy_imresize_shape|].
  destruct (wrapped_env_before_reset nat Instances.toy_raw_reset Instances.toy_raw_step
              Instances.toy_raw_low Instances.toy_imresize 3 toy_imresize_shape
              0 4 [] 0%Z) as (Hshape & Hstep & _).
  split; [exact Hshape | exact Hstep].
Defined.
